(** * Verification of the packet-plane core of agent_team_test

    A shallow embedding of
    - [src/app/AppPacket.cpp]            (wire codec, CRC-32, link-health monitor),
    - [include/thread/LockFreeRingBuffer.hpp] (SPSC packet ring),
    - [include/stats/LatencyStats.hpp]   (latency sample ring and percentiles),
    - [src/thread/UdpThreadManager.cpp]  (TX/RX queues, counters and samplers),
    - [src/app/main.cpp]                 (TX timer and RX packet callbacks),
    - [src/timer/Timer.cpp]              (timer intervals),
    - [src/app/ArgParser.cpp]            (command-line options),
    together with the properties the specification states about them and
    further properties of the code.

    Conventions of the embedding.
    - A C++ unsigned integer of width [w] is a [Z] in [0, 2^w); every
      operation that can leave that range is followed by an explicit
      [wrap w].
    - A byte is a [Z] in [0, 256); a (pointer, size) argument pair is the
      list of the bytes of the region, [None] standing for [nullptr].
      Where a call reads through a pointer kept from an earlier call after
      it has written to a buffer the pointer may point into, the memory is
      one list of bytes and a pointer is an address in it ([Borrowed]).
    - [std::chrono::steady_clock::time_point] is the tick count of the
      clock, in nanoseconds, as a [Z]; every function that reads the clock
      takes the value read as an argument [now].
    - [double] is IEEE-754 binary64 ([PrimFloat]), one rounding per
      operation. *)

From Stdlib Require Import ZArith Lia Floats List Bool.
From Stdlib Require Import Sorting.Mergesort Sorting.Sorted Sorting.Permutation.
From Stdlib Require Strings.String.
From stdpp Require Import base list.
Import ListNotations.

Local Open Scope Z_scope.

(** ** Fixed-width unsigned arithmetic *)

Definition wrap (w : Z) (x : Z) : Z := x mod 2 ^ w.

Definition UINT16_MAX : Z := 65535.

Definition is_byte (b : Z) : Prop := 0 <= b < 256.

Definition is_u16 (x : Z) : Prop := 0 <= x < 2 ^ 16.
Definition is_u32 (x : Z) : Prop := 0 <= x < 2 ^ 32.
Definition is_u64 (x : Z) : Prop := 0 <= x < 2 ^ 64.

(** ** CRC-32 ([AppPacket::calculateCrc32]) *)

Module Crc.

Definition CRC32_POLYNOMIAL : Z := 0xEDB88320.

(** One iteration of the inner [for (bit ...)] loop. *)
Definition crc_bit (crc : Z) : Z :=
  if negb (Z.land crc 1 =? 0)
  then Z.lxor (Z.shiftr crc 1) CRC32_POLYNOMIAL
  else Z.shiftr crc 1.

(** The inner loop: [bit] runs over 0..7. *)
Fixpoint crc_bits (n : nat) (crc : Z) : Z :=
  match n with
  | O => crc
  | S n' => crc_bits n' (crc_bit crc)
  end.

(** One iteration of the outer loop: [crc ^= data[idx]] and eight shifts. *)
Definition crc_byte (crc : Z) (b : Z) : Z :=
  crc_bits 8 (Z.lxor crc b).

Definition calculateCrc32 (data : list Z) : Z :=
  Z.lxor (fold_left crc_byte data 0xFFFFFFFF) 0xFFFFFFFF.

(** *** The checksum as the specification words it

    IEEE-802.3 CRC-32 in reflected form: a 32-bit register starts at
    0xFFFFFFFF; the message is fed bit by bit, each byte least significant
    bit first; a bit that differs from the low bit of the register shifts
    the register right and XORs the polynomial 0xEDB88320 in, an equal bit
    only shifts; the result is the register XOR 0xFFFFFFFF. *)

Definition serial_step (reg : Z) (bit : bool) : Z :=
  if xorb (Z.testbit reg 0) bit
  then Z.lxor (Z.shiftr reg 1) 0xEDB88320
  else Z.shiftr reg 1.

Fixpoint bits_lsb_first (n : nat) (x : Z) : list bool :=
  match n with
  | O => []
  | S n' => Z.testbit x 0 :: bits_lsb_first n' (Z.shiftr x 1)
  end.

Definition message_bits (data : list Z) : list bool :=
  concat (map (bits_lsb_first 8) data).

Definition crc32_ieee_reference (data : list Z) : Z :=
  Z.lxor (fold_left serial_step (message_bits data) 0xFFFFFFFF) 0xFFFFFFFF.

End Crc.

(** ** Wire representation of the header and footer fields

    [std::memmove] between the packed structs and the byte buffer, on the
    little-endian targets the project is built for. *)

Module Wire.

(** The [n] low-order bytes of [v], least significant first. *)
Fixpoint le_bytes (n : nat) (v : Z) : list Z :=
  match n with
  | O => []
  | S n' => Z.land v 0xFF :: le_bytes n' (Z.shiftr v 8)
  end.

(** The unsigned integer stored in the bytes [bs], least significant first. *)
Fixpoint le_value (bs : list Z) : Z :=
  match bs with
  | [] => 0
  | b :: bs' => Z.lor b (Z.shiftl (le_value bs') 8)
  end.

(** [std::memmove(&buf[off], src, |src|)]: the bytes outside the target
    range keep their value. *)
Definition write_bytes (buf : list Z) (off : nat) (src : list Z) : list Z :=
  take off buf ++ src ++ drop (off + length src) buf.

(** [n] bytes read at [&buf[off]]. *)
Definition read_bytes (buf : list Z) (off n : nat) : list Z :=
  take n (drop off buf).

End Wire.

(** ** The packet object ([class AppPacket]) *)

Module Packet.
Import Crc Wire.

Definition APP_PACKET_MAX_DATA_SIZE : Z := 256.
Definition APP_PACKET_COMM_TIMEOUT_MS : Z := 1000.
Definition APP_PACKET_EXPECTED_INTERVAL_MS : Z := 100.
Definition APP_PACKET_INTERVAL_TOLERANCE_US : Z := 5000.

(** [sizeof(AppPacketHeader)] and [sizeof(AppPacketFooter)]. *)
Definition HEADER_SIZE : Z := 8.
Definition FOOTER_SIZE : Z := 4.

(** [enum class AppPacketError]; the enumerator [None] is written
    [NoError] to keep it apart from [option]'s constructor. *)
Inductive AppPacketError : Set :=
  | NoError
  | InvalidDataPointer
  | DataTooLarge
  | BufferTooSmall
  | InvalidPacket
  | CrcMismatch
  | UnstableCommunication
  | LossOfCommunication.

Definition error_eqb (a b : AppPacketError) : bool :=
  match a, b with
  | NoError, NoError
  | InvalidDataPointer, InvalidDataPointer
  | DataTooLarge, DataTooLarge
  | BufferTooSmall, BufferTooSmall
  | InvalidPacket, InvalidPacket
  | CrcMismatch, CrcMismatch
  | UnstableCommunication, UnstableCommunication
  | LossOfCommunication, LossOfCommunication => true
  | _, _ => false
  end.

(** The data members.  [m_data_ptr] is the memory reachable from the
    pointer ([None] for [nullptr]); the payload view is its first
    [m_data_length] bytes. *)
Record AppPacket : Type := mkAppPacket {
  m_unique_id : Z;
  m_lifesign : Z;
  m_data_ptr : option (list Z);
  m_data_length : Z;
  m_crc32 : Z;
  m_rx_lifesign : Z;
  m_rx_lifesign_prev : Z;
  m_last_change_time : Z;
  m_last_recv_time : Z;
  m_comm_timeout_ms : Z;
  m_expected_interval_ms : Z;
  m_tolerance_us : Z;
  m_last_interval_us : Z;
  m_unstable_counter : Z;
  m_comm_unstable : bool;
  m_error : AppPacketError
}.

(** The constructor reads the clock twice, once per time stamp. *)
Definition AppPacket_new (now1 now2 : Z) : AppPacket :=
  {| m_unique_id := 0;
     m_lifesign := 0;
     m_data_ptr := None;
     m_data_length := 0;
     m_crc32 := 0;
     m_rx_lifesign := 0;
     m_rx_lifesign_prev := 0;
     m_last_change_time := now1;
     m_last_recv_time := now2;
     m_comm_timeout_ms := APP_PACKET_COMM_TIMEOUT_MS;
     m_expected_interval_ms := APP_PACKET_EXPECTED_INTERVAL_MS;
     m_tolerance_us := APP_PACKET_INTERVAL_TOLERANCE_US;
     m_last_interval_us := 0;
     m_unstable_counter := 0;
     m_comm_unstable := false;
     m_error := NoError |}.

(** Assignments to single members. *)
Definition set_error (e : AppPacketError) (p : AppPacket) : AppPacket :=
  mkAppPacket p.(m_unique_id) p.(m_lifesign) p.(m_data_ptr) p.(m_data_length)
    p.(m_crc32) p.(m_rx_lifesign) p.(m_rx_lifesign_prev) p.(m_last_change_time)
    p.(m_last_recv_time) p.(m_comm_timeout_ms) p.(m_expected_interval_ms)
    p.(m_tolerance_us) p.(m_last_interval_us) p.(m_unstable_counter)
    p.(m_comm_unstable) e.

Definition set_unique_id (id : Z) (p : AppPacket) : AppPacket :=
  mkAppPacket id p.(m_lifesign) p.(m_data_ptr) p.(m_data_length)
    p.(m_crc32) p.(m_rx_lifesign) p.(m_rx_lifesign_prev) p.(m_last_change_time)
    p.(m_last_recv_time) p.(m_comm_timeout_ms) p.(m_expected_interval_ms)
    p.(m_tolerance_us) p.(m_last_interval_us) p.(m_unstable_counter)
    p.(m_comm_unstable) p.(m_error).

Definition set_lifesign (ls : Z) (p : AppPacket) : AppPacket :=
  mkAppPacket p.(m_unique_id) ls p.(m_data_ptr) p.(m_data_length)
    p.(m_crc32) p.(m_rx_lifesign) p.(m_rx_lifesign_prev) p.(m_last_change_time)
    p.(m_last_recv_time) p.(m_comm_timeout_ms) p.(m_expected_interval_ms)
    p.(m_tolerance_us) p.(m_last_interval_us) p.(m_unstable_counter)
    p.(m_comm_unstable) p.(m_error).

Definition set_data (ptr : option (list Z)) (len : Z) (p : AppPacket) : AppPacket :=
  mkAppPacket p.(m_unique_id) p.(m_lifesign) ptr len
    p.(m_crc32) p.(m_rx_lifesign) p.(m_rx_lifesign_prev) p.(m_last_change_time)
    p.(m_last_recv_time) p.(m_comm_timeout_ms) p.(m_expected_interval_ms)
    p.(m_tolerance_us) p.(m_last_interval_us) p.(m_unstable_counter)
    p.(m_comm_unstable) p.(m_error).

Definition set_data_ptr (ptr : option (list Z)) (p : AppPacket) : AppPacket :=
  set_data ptr p.(m_data_length) p.

Definition set_data_length (len : Z) (p : AppPacket) : AppPacket :=
  set_data p.(m_data_ptr) len p.

Definition set_crc32 (crc : Z) (p : AppPacket) : AppPacket :=
  mkAppPacket p.(m_unique_id) p.(m_lifesign) p.(m_data_ptr) p.(m_data_length)
    crc p.(m_rx_lifesign) p.(m_rx_lifesign_prev) p.(m_last_change_time)
    p.(m_last_recv_time) p.(m_comm_timeout_ms) p.(m_expected_interval_ms)
    p.(m_tolerance_us) p.(m_last_interval_us) p.(m_unstable_counter)
    p.(m_comm_unstable) p.(m_error).

(** [AppPacket::setUniqueId] *)
Definition setUniqueId (id : Z) (p : AppPacket) : AppPacket :=
  set_unique_id id p.

(** [AppPacket::setDataPointer(data, length)]; the argument pair is the
    region [data] of [length] bytes. *)
Definition setDataPointer (data : option (list Z)) (p : AppPacket) : AppPacket :=
  match data with
  | None => set_data None 0 (set_error InvalidDataPointer p)
  | Some bytes =>
      let length := Z.of_nat (length bytes) in
      if length >? APP_PACKET_MAX_DATA_SIZE
      then set_data None 0 (set_error DataTooLarge p)
      else set_data (Some bytes) length (set_error NoError p)
  end.

(** [AppPacket::getData] / [getDataLength]: the payload view. *)
Definition payload_view (p : AppPacket) : list Z :=
  match p.(m_data_ptr) with
  | None => []
  | Some mem => take (Z.to_nat p.(m_data_length)) mem
  end.

(** [duration_cast<microseconds>] and [duration_cast<milliseconds>] of a
    nanosecond duration truncate towards zero; [static_cast<uint32_t>]
    reduces the 64-bit count modulo 2^32. *)
Definition elapsed_us_u32 (from to : Z) : Z := wrap 32 (Z.quot (to - from) 1000).
Definition elapsed_ms_u32 (from to : Z) : Z := wrap 32 (Z.quot (to - from) 1000000).

(** The bounds computed by [updateReceivedLifesign], in [uint32_t]. *)
Definition expected_us (p : AppPacket) : Z := wrap 32 (p.(m_expected_interval_ms) * 1000).

Definition lower_bound (p : AppPacket) : Z :=
  if expected_us p >? p.(m_tolerance_us)
  then expected_us p - p.(m_tolerance_us)
  else 0.

Definition upper_bound (p : AppPacket) : Z :=
  wrap 32 (expected_us p + p.(m_tolerance_us)).

(** The test of [if ((m_last_interval_us < lower_bound) || ...)]. *)
Definition out_of_tolerance (p : AppPacket) (interval_us : Z) : bool :=
  (interval_us <? lower_bound p) || (interval_us >? upper_bound p).

(** [AppPacket::updateReceivedLifesign], with the clock value it reads. *)
Definition updateReceivedLifesign (now : Z) (lifesign : Z) (p : AppPacket) : AppPacket :=
  let interval_us := elapsed_us_u32 p.(m_last_recv_time) now in
  let out := out_of_tolerance p interval_us in
  let counter :=
    if out
    then (if p.(m_unstable_counter) <? UINT16_MAX
          then p.(m_unstable_counter) + 1
          else p.(m_unstable_counter))
    else 0 in
  let error1 :=
    if out
    then (if error_eqb p.(m_error) NoError then UnstableCommunication else p.(m_error))
    else (if error_eqb p.(m_error) UnstableCommunication then NoError else p.(m_error)) in
  let changed := negb (lifesign =? p.(m_rx_lifesign)) in
  let error2 :=
    if changed
    then (if error_eqb error1 LossOfCommunication then NoError else error1)
    else error1 in
  {| m_unique_id := p.(m_unique_id);
     m_lifesign := p.(m_lifesign);
     m_data_ptr := p.(m_data_ptr);
     m_data_length := p.(m_data_length);
     m_crc32 := p.(m_crc32);
     m_rx_lifesign := lifesign;
     m_rx_lifesign_prev := p.(m_rx_lifesign);
     m_last_change_time := if changed then now else p.(m_last_change_time);
     m_last_recv_time := now;
     m_comm_timeout_ms := p.(m_comm_timeout_ms);
     m_expected_interval_ms := p.(m_expected_interval_ms);
     m_tolerance_us := p.(m_tolerance_us);
     m_last_interval_us := interval_us;
     m_unstable_counter := counter;
     m_comm_unstable := out;
     m_error := error2 |}.

(** [AppPacket::isCommLost], with the clock value it reads. *)
Definition isCommLost (now : Z) (p : AppPacket) : bool :=
  elapsed_ms_u32 p.(m_last_change_time) now >=? p.(m_comm_timeout_ms).

(** [AppPacket::getTimeSinceLastChange] *)
Definition getTimeSinceLastChange (now : Z) (p : AppPacket) : Z :=
  elapsed_ms_u32 p.(m_last_change_time) now.

(** [AppPacket::isCommUnstable] *)
Definition isCommUnstable (p : AppPacket) : bool := p.(m_comm_unstable).

(** [AppPacket::setCommTimeout] *)
Definition setCommTimeout (timeout_ms : Z) (p : AppPacket) : AppPacket :=
  mkAppPacket p.(m_unique_id) p.(m_lifesign) p.(m_data_ptr) p.(m_data_length)
    p.(m_crc32) p.(m_rx_lifesign) p.(m_rx_lifesign_prev) p.(m_last_change_time)
    p.(m_last_recv_time) timeout_ms p.(m_expected_interval_ms)
    p.(m_tolerance_us) p.(m_last_interval_us) p.(m_unstable_counter)
    p.(m_comm_unstable) p.(m_error).

(** [AppPacket::setExpectedInterval] *)
Definition setExpectedInterval (interval_ms tolerance_us : Z) (p : AppPacket) : AppPacket :=
  mkAppPacket p.(m_unique_id) p.(m_lifesign) p.(m_data_ptr) p.(m_data_length)
    p.(m_crc32) p.(m_rx_lifesign) p.(m_rx_lifesign_prev) p.(m_last_change_time)
    p.(m_last_recv_time) p.(m_comm_timeout_ms) interval_ms
    tolerance_us p.(m_last_interval_us) p.(m_unstable_counter)
    p.(m_comm_unstable) p.(m_error).

(** [AppPacket::resetCommMonitor] *)
Definition resetCommMonitor (now : Z) (p : AppPacket) : AppPacket :=
  {| m_unique_id := p.(m_unique_id);
     m_lifesign := p.(m_lifesign);
     m_data_ptr := p.(m_data_ptr);
     m_data_length := p.(m_data_length);
     m_crc32 := p.(m_crc32);
     m_rx_lifesign := 0;
     m_rx_lifesign_prev := 0;
     m_last_change_time := now;
     m_last_recv_time := now;
     m_comm_timeout_ms := p.(m_comm_timeout_ms);
     m_expected_interval_ms := p.(m_expected_interval_ms);
     m_tolerance_us := p.(m_tolerance_us);
     m_last_interval_us := 0;
     m_unstable_counter := 0;
     m_comm_unstable := false;
     m_error :=
       if error_eqb p.(m_error) LossOfCommunication
          || error_eqb p.(m_error) UnstableCommunication
       then NoError else p.(m_error) |}.

(** The eight header bytes built by [encode]. *)
Definition header_bytes (unique_id lifesign data_length : Z) : list Z :=
  le_bytes 4 unique_id ++ le_bytes 2 lifesign ++ le_bytes 2 data_length.

(** [AppPacket::encode(buffer, buffer_size)].  Returns the number of bytes
    written, the buffer after the call and the packet after the call.
    The bytes of the payload view are a list of their own here: this is
    the call for a payload region that the write of the header does not
    reach.  [Borrowed.encode] below is the call for any region, with the
    view and the buffer in one memory. *)
Definition encode (buffer : option (list Z)) (p : AppPacket)
  : Z * option (list Z) * AppPacket :=
  let total_size := wrap 64 (HEADER_SIZE + p.(m_data_length) + FOOTER_SIZE) in
  match buffer with
  | None => (0, None, set_error InvalidDataPointer p)
  | Some buf =>
      let buffer_size := Z.of_nat (length buf) in
      if buffer_size <? total_size
      then (0, Some buf, set_error BufferTooSmall p)
      else
        let header :=
          header_bytes p.(m_unique_id) p.(m_lifesign) (wrap 16 p.(m_data_length)) in
        let buf1 := write_bytes buf 0 header in
        let offset1 := HEADER_SIZE in
        let '(buf2, offset2) :=
          match p.(m_data_ptr) with
          | Some mem =>
              if p.(m_data_length) >? 0
              then (write_bytes buf1 (Z.to_nat offset1)
                      (take (Z.to_nat p.(m_data_length)) mem),
                    offset1 + p.(m_data_length))
              else (buf1, offset1)
          | None => (buf1, offset1)
          end in
        let crc := calculateCrc32 (take (Z.to_nat offset2) buf2) in
        let buf3 := write_bytes buf2 (Z.to_nat offset2) (le_bytes 4 crc) in
        let offset3 := offset2 + FOOTER_SIZE in
        (offset3, Some buf3,
         set_lifesign (wrap 16 (p.(m_lifesign) + 1))
           (set_error NoError (set_crc32 crc p)))
  end.

(** [AppPacket::decode(buffer, buffer_size)], with the clock value read by
    the call of [updateReceivedLifesign] it contains. *)
Definition decode (now : Z) (buffer : option (list Z)) (p : AppPacket)
  : bool * AppPacket :=
  match buffer with
  | None => (false, set_error InvalidDataPointer p)
  | Some buf =>
      let buffer_size := Z.of_nat (length buf) in
      if buffer_size <? HEADER_SIZE + FOOTER_SIZE
      then (false, set_error InvalidPacket p)
      else
        let header_unique_id := le_value (read_bytes buf 0 4) in
        let header_lifesign := le_value (read_bytes buf 4 2) in
        let header_data_length := le_value (read_bytes buf 6 2) in
        let offset := HEADER_SIZE in
        let expected_size := HEADER_SIZE + header_data_length + FOOTER_SIZE in
        if buffer_size <? expected_size
        then (false, set_error InvalidPacket p)
        else if header_data_length >? APP_PACKET_MAX_DATA_SIZE
        then (false, set_error DataTooLarge p)
        else
          let p1 := set_data_length header_data_length
                      (set_unique_id header_unique_id p) in
          let p2 := updateReceivedLifesign now header_lifesign p1 in
          let p3 :=
            if p2.(m_data_length) >? 0
            then set_data_ptr (Some (drop (Z.to_nat offset) buf)) p2
            else set_data_ptr None p2 in
          let offset' := offset + p3.(m_data_length) in
          let p4 := set_crc32 (le_value (read_bytes buf (Z.to_nat offset') 4)) p3 in
          let computed_crc :=
            calculateCrc32 (take (Z.to_nat (HEADER_SIZE + p4.(m_data_length))) buf) in
          if negb (computed_crc =? p4.(m_crc32))
          then (false, set_error CrcMismatch p4)
          else (true, set_error NoError p4)
  end.

(** The wire frame of the data model: header, payload, and the checksum
    of the two. *)
Definition wire_frame (unique_id lifesign : Z) (payload : list Z) : list Z :=
  let body := header_bytes unique_id lifesign (Z.of_nat (length payload)) ++ payload in
  body ++ le_bytes 4 (calculateCrc32 body).

(** The calls a client can make on a packet object, and the state a
    sequence of calls leads to. *)
Inductive Call : Type :=
  | CallSetUniqueId (id : Z)
  | CallSetDataPointer (data : option (list Z))
  | CallEncode (buffer : option (list Z))
  | CallDecode (now : Z) (buffer : option (list Z))
  | CallUpdateReceivedLifesign (now lifesign : Z)
  | CallSetCommTimeout (timeout_ms : Z)
  | CallSetExpectedInterval (interval_ms tolerance_us : Z)
  | CallResetCommMonitor (now : Z).

Definition call (c : Call) (p : AppPacket) : AppPacket :=
  match c with
  | CallSetUniqueId id => setUniqueId id p
  | CallSetDataPointer data => setDataPointer data p
  | CallEncode buffer => (encode buffer p).2
  | CallDecode now buffer => (decode now buffer p).2
  | CallUpdateReceivedLifesign now lifesign => updateReceivedLifesign now lifesign p
  | CallSetCommTimeout timeout_ms => setCommTimeout timeout_ms p
  | CallSetExpectedInterval interval_ms tolerance_us =>
      setExpectedInterval interval_ms tolerance_us p
  | CallResetCommMonitor now => resetCommMonitor now p
  end.

Definition run (cs : list Call) (p : AppPacket) : AppPacket :=
  fold_left (fun p c => call c p) cs p.

(** The payload literal of [txTimerCallback]: "Agent Team Test". *)
Definition tx_payload : list Z :=
  [65; 103; 101; 110; 116; 32; 84; 101; 97; 109; 32; 84; 101; 115; 116].

(** The second frame a fresh sender with identifier 0x12345678 emits for
    [tx_payload] (lifesign 1), with bit 0 of byte 10 flipped on the way. *)
Definition corrupted_frame : list Z :=
  [120; 86; 52; 18; 1; 0; 15; 0; 65; 103; 100; 110; 116; 32; 84; 101;
   97; 109; 32; 84; 101; 115; 116; 247; 47; 110; 111].

(** The link-health part of the receive-side state. *)
Record LinkHealth : Type := mkLinkHealth {
  last_rx_lifesign : Z;
  prev_rx_lifesign : Z;
  last_change_instant : Z;
  last_recv_instant : Z;
  last_interval_us : Z;
  unstable_streak : Z;
  unstable : bool
}.

Definition link_health (p : AppPacket) : LinkHealth :=
  {| last_rx_lifesign := p.(m_rx_lifesign);
     prev_rx_lifesign := p.(m_rx_lifesign_prev);
     last_change_instant := p.(m_last_change_time);
     last_recv_instant := p.(m_last_recv_time);
     last_interval_us := p.(m_last_interval_us);
     unstable_streak := p.(m_unstable_counter);
     unstable := p.(m_comm_unstable) |}.

(** The checks [decode] makes before it touches the monitor: null pointer,
    buffer shorter than the envelope or than the declared frame, declared
    length above the maximum. *)
Definition rejected_early (buffer : option (list Z)) : Prop :=
  match buffer with
  | None => True
  | Some buf =>
      let size := Z.of_nat (length buf) in
      let declared := le_value (read_bytes buf 6 2) in
      size < 12 \/ size < 12 + declared \/ declared > 256
  end.

(** The specification's wording of the oversized-payload rule: after
    [setDataPointer] with more than 256 bytes, [encode] returns 0 and the
    error is [DataTooLarge]. *)
Definition encode_fails_with_DataTooLarge
  (p : AppPacket) (data : list Z) (buffer : option (list Z)) : Prop :=
  let enc := encode buffer (setDataPointer (Some data) p) in
  enc.1.1 = 0 /\ (enc.2).(m_error) = DataTooLarge.

(** The specification's wording of the tolerance band, over the
    integers: [max(0, E - T) <= interval_us <= E + T] with
    [E = expected_interval_ms * 1000] and [T = tolerance_us]. *)
Definition spec_in_tolerance (p : AppPacket) (interval_us : Z) : Prop :=
  let E := p.(m_expected_interval_ms) * 1000 in
  let T := p.(m_tolerance_us) in
  Z.max 0 (E - T) <= interval_us <= E + T.


(** The members are within the range of their C++ types. *)
Record well_typed (p : AppPacket) : Prop := {
  wt_unique_id : is_u32 p.(m_unique_id);
  wt_lifesign : is_u16 p.(m_lifesign);
  wt_data_length : is_u64 p.(m_data_length);
  wt_crc32 : is_u32 p.(m_crc32);
  wt_rx_lifesign : is_u16 p.(m_rx_lifesign);
  wt_rx_lifesign_prev : is_u16 p.(m_rx_lifesign_prev);
  wt_comm_timeout_ms : is_u32 p.(m_comm_timeout_ms);
  wt_expected_interval_ms : is_u32 p.(m_expected_interval_ms);
  wt_tolerance_us : is_u32 p.(m_tolerance_us);
  wt_last_interval_us : is_u32 p.(m_last_interval_us);
  wt_unstable_counter : is_u16 p.(m_unstable_counter)
}.

End Packet.

(** ** The packet with its payload view in shared memory

    [setDataPointer] keeps the pointer it is given, and [encode] reads
    through that pointer after it has written the header.  Here the
    payload view and the output buffer are regions of one memory [mem],
    each given by its address, so that they can overlap.  The member
    [m_data_ptr] of the object is the address [view]; the field of that
    name in the record is not used.  The object and the locals of the call
    lie outside [mem]. *)

Module Borrowed.
Import Crc Wire Packet.

(** [AppPacket::setDataPointer(data, length)] for a pointer into the
    memory.  Returns the pointer the object keeps and the object. *)
Definition setDataPointer (data : option nat) (length : Z) (p : AppPacket)
  : option nat * AppPacket :=
  match data with
  | None => (None, set_data_length 0 (set_error InvalidDataPointer p))
  | Some a =>
      if length >? APP_PACKET_MAX_DATA_SIZE
      then (None, set_data_length 0 (set_error DataTooLarge p))
      else (Some a, set_data_length length (set_error NoError p))
  end.

(** [AppPacket::encode(buffer, buffer_size)] for a buffer in the memory.
    Each [std::memmove] reads its source in full before it writes.
    Returns the number of bytes written, the memory after the call and the
    object after the call. *)
Definition encode (mem : list Z) (buffer : option nat) (buffer_size : Z)
  (view : option nat) (p : AppPacket) : Z * list Z * AppPacket :=
  let total_size := wrap 64 (HEADER_SIZE + p.(m_data_length) + FOOTER_SIZE) in
  match buffer with
  | None => (0, mem, set_error InvalidDataPointer p)
  | Some b =>
      if buffer_size <? total_size
      then (0, mem, set_error BufferTooSmall p)
      else
        let header :=
          header_bytes p.(m_unique_id) p.(m_lifesign) (wrap 16 p.(m_data_length)) in
        let mem1 := write_bytes mem b header in
        let offset1 := HEADER_SIZE in
        let '(mem2, offset2) :=
          match view with
          | Some a =>
              if p.(m_data_length) >? 0
              then (write_bytes mem1 (b + Z.to_nat offset1)
                      (read_bytes mem1 a (Z.to_nat p.(m_data_length))),
                    offset1 + p.(m_data_length))
              else (mem1, offset1)
          | None => (mem1, offset1)
          end in
        let crc := calculateCrc32 (read_bytes mem2 b (Z.to_nat offset2)) in
        let mem3 := write_bytes mem2 (b + Z.to_nat offset2) (le_bytes 4 crc) in
        let offset3 := offset2 + FOOTER_SIZE in
        (offset3, mem3,
         set_lifesign (wrap 16 (p.(m_lifesign) + 1))
           (set_error NoError (set_crc32 crc p)))
  end.

(** The round trip as the specification words it, for a payload that is
    the region of [n] bytes at [view] and an output buffer of [size] bytes
    at [buffer]: the frame written is decoded to the bytes the payload
    region held before the call. *)
Definition spec_roundtrip_payload (mem : list Z) (buffer size view n : nat)
  (id : Z) (tx rx : AppPacket) (now : Z) : Prop :=
  let set := setDataPointer (Some view) (Z.of_nat n) (setUniqueId id tx) in
  let enc := encode mem (Some buffer) (Z.of_nat size) set.1 set.2 in
  let frame := read_bytes enc.1.2 buffer (Z.to_nat enc.1.1) in
  payload_view (decode now (Some frame) rx).2 = read_bytes mem view n.

End Borrowed.

(** ** The SPSC packet ring ([template class LockFreeRingBuffer])

    The embedding is the sequential behaviour of the member functions: each
    call runs to completion on the state it finds.  The memory orders of the
    atomic accesses have no counterpart here. *)

Module Ring.
Import Wire.

(** [struct Packet]: the members [length] and [data]. *)
Record Packet : Type := mkPacket {
  pkt_length : Z;
  pkt_data : list Z
}.

#[export] Instance Packet_inhabited : Inhabited Packet := populate (mkPacket 0 []).

Record LockFreeRingBuffer : Type := mkRing {
  m_buffer : list Packet;
  m_writeIdx : Z;
  m_readIdx : Z
}.

Section Template.

(** The template parameters. *)
Variables MaxPacketSize Capacity : Z.

(** The constructor zeroes the two indices; [m_buffer] is left with
    whatever the storage holds, here [slots]. *)
Definition LockFreeRingBuffer_new (slots : list Packet) : LockFreeRingBuffer :=
  {| m_buffer := slots; m_writeIdx := 0; m_readIdx := 0 |}.

(** [push(data, length)]; the argument pair is the region [data]. *)
Definition push (data : list Z) (rb : LockFreeRingBuffer)
  : bool * LockFreeRingBuffer :=
  let length := Z.of_nat (length data) in
  if length >? MaxPacketSize
  then (false, rb)
  else
    let currentWrite := rb.(m_writeIdx) in
    let nextWrite := wrap 64 (currentWrite + 1) mod Capacity in
    if nextWrite =? rb.(m_readIdx)
    then (false, rb)
    else
      let slot := rb.(m_buffer) !!! Z.to_nat currentWrite in
      let slot' :=
        {| pkt_length := wrap 16 length;
           pkt_data := write_bytes slot.(pkt_data) 0 data |} in
      (true,
       {| m_buffer := <[Z.to_nat currentWrite := slot']> rb.(m_buffer);
          m_writeIdx := nextWrite;
          m_readIdx := rb.(m_readIdx) |}).

(** [pop(data, maxLength, actualLength)]; [out] is the output region of
    [maxLength] bytes and [actualLength] the value of the reference
    argument before the call.  Returns the result, the output region and
    [actualLength] after the call, and the ring after the call. *)
Definition pop (out : list Z) (actualLength : Z) (rb : LockFreeRingBuffer)
  : bool * list Z * Z * LockFreeRingBuffer :=
  let maxLength := Z.of_nat (length out) in
  let currentRead := rb.(m_readIdx) in
  if currentRead =? rb.(m_writeIdx)
  then (false, out, actualLength, rb)
  else
    let slot := rb.(m_buffer) !!! Z.to_nat currentRead in
    let actualLength' := slot.(pkt_length) in
    if actualLength' >? maxLength
    then (false, out, actualLength', rb)
    else
      (true,
       write_bytes out 0 (take (Z.to_nat actualLength') slot.(pkt_data)),
       actualLength',
       {| m_buffer := rb.(m_buffer);
          m_writeIdx := rb.(m_writeIdx);
          m_readIdx := wrap 64 (currentRead + 1) mod Capacity |}).

Definition size (rb : LockFreeRingBuffer) : Z :=
  let w := rb.(m_writeIdx) in
  let r := rb.(m_readIdx) in
  if w >=? r then w - r else wrap 64 (wrap 64 (Capacity - r) + w).

Definition isEmpty (rb : LockFreeRingBuffer) : bool :=
  rb.(m_readIdx) =? rb.(m_writeIdx).

Definition isFull (rb : LockFreeRingBuffer) : bool :=
  wrap 64 (rb.(m_writeIdx) + 1) mod Capacity =? rb.(m_readIdx).

(** A producer that pushes the packets [ds] one after the other, with no
    pop in between; the results of the calls, in order. *)
Fixpoint push_all (ds : list (list Z)) (rb : LockFreeRingBuffer)
  : list bool * LockFreeRingBuffer :=
  match ds with
  | [] => ([], rb)
  | d :: ds' =>
      let '(ok, rb1) := push d rb in
      let '(oks, rb2) := push_all ds' rb1 in
      (ok :: oks, rb2)
  end.

(** The ring holds [Capacity] slots of [MaxPacketSize] bytes and both
    indices are below [Capacity]. *)
Record ring_ok (rb : LockFreeRingBuffer) : Prop := {
  ok_slots : Z.of_nat (length rb.(m_buffer)) = Capacity;
  ok_data : Forall (fun s => Z.of_nat (length s.(pkt_data)) = MaxPacketSize) rb.(m_buffer);
  ok_write : 0 <= rb.(m_writeIdx) < Capacity;
  ok_read : 0 <= rb.(m_readIdx) < Capacity
}.

End Template.

End Ring.

(** ** Double-precision helpers of the latency statistics *)

Module Fp.

(** [static_cast<double>] of an unsigned integer: round to nearest even. *)
Definition u64_to_double (z : Z) : float :=
  SF2Prim (binary_normalize prec emax z 0 false).

(** [static_cast<size_t>(std::ceil(x))] for a finite [x] whose ceiling is a
    [size_t]; the C++ conversion has no defined result otherwise, and 0
    stands for it here. *)
Definition ceil_to_size (x : float) : Z :=
  match Prim2SF x with
  | S754_zero _ => 0
  | S754_finite s m e =>
      let num := if s then Z.neg m else Z.pos m in
      if 0 <=? e
      then num * 2 ^ e
      else - ((- num) / 2 ^ (- e))
  | _ => 0
  end.

(** [std::max(a, b)] on doubles: [(a < b) ? b : a]. *)
Definition fmax (a b : float) : float :=
  if PrimFloat.ltb a b then b else a.

End Fp.

(** [std::sort] on [uint64_t] values: the ascending rearrangement, here
    computed by merge sort. *)
Module ZOrder <: Orders.TotalLeBool.

Definition t := Z.

Definition leb := Z.leb.

Theorem leb_total : forall a1 a2, leb a1 a2 = true \/ leb a2 a1 = true.
Proof.
  intros a1 a2. unfold leb.
  destruct (Z.leb_spec a1 a2); [now left|right]. apply Z.leb_le. lia.
Qed.

End ZOrder.

Module ZSort := Mergesort.Sort ZOrder.

(** ** The latency sampler ([template class LatencyStats]) *)

Module Latency.
Import Fp.

Definition LATENCY_STATS_DEFAULT_CAPACITY : Z := 100000.

Record LatencyStats : Type := mkStats {
  m_samples : list Z;
  m_writeIdx : Z;
  m_count : Z
}.

(** [struct Result] *)
Record Result : Type := mkResult {
  count : Z;
  min_us : float;
  max_us : float;
  mean_us : float;
  stdev_us : float;
  p50_us : float;
  p95_us : float;
  p99_us : float;
  p999_us : float;
  p9999_us : float
}.

(** [Result result = {}] *)
Definition Result_zero : Result :=
  mkResult 0 0 0 0 0 0 0 0 0 0.

(** [static_cast<double>(x) / 1000.0]: nanoseconds to microseconds. *)
Definition ns_to_us (x : Z) : float := (u64_to_double x / 1000)%float.

(** [LatencyStats::percentile] *)
Definition percentile (sorted : list Z) (p : float) : float :=
  match sorted with
  | [] => 0%float
  | _ =>
      let size := Z.of_nat (length sorted) in
      let rank := ((p / 100) * u64_to_double size)%float in
      let idx := ceil_to_size rank in
      let idx := if idx =? 0 then 1 else idx in
      let idx := if idx >? size then size else idx in
      ns_to_us (sorted !!! Z.to_nat (idx - 1))
  end.

(** The percentile arguments of [computeStats]. *)
#[warnings="-inexact-float"]
Definition P999 : float := 99.9%float.
#[warnings="-inexact-float"]
Definition P9999 : float := 99.99%float.

Section Template.

Variable Capacity : Z.

(** The constructor: indices zero, [m_samples.fill(0)]. *)
Definition LatencyStats_new : LatencyStats :=
  {| m_samples := replicate (Z.to_nat Capacity) 0;
     m_writeIdx := 0;
     m_count := 0 |}.

(** [recordSample(uint64_t latency_ns)] *)
Definition recordSample (latency_ns : Z) (s : LatencyStats) : LatencyStats :=
  let idx := s.(m_writeIdx) in
  {| m_samples := <[Z.to_nat idx := latency_ns]> s.(m_samples);
     m_writeIdx := wrap 64 (idx + 1) mod Capacity;
     m_count := wrap 64 (s.(m_count) + 1) |}.

(** A single producer that records the samples [xs] in order. *)
Definition record_all (xs : list Z) (s : LatencyStats) : LatencyStats :=
  fold_left (fun s x => recordSample x s) xs s.

(** [reset] *)
Definition reset (s : LatencyStats) : LatencyStats :=
  {| m_samples := replicate (length s.(m_samples)) 0;
     m_writeIdx := 0;
     m_count := 0 |}.

(** [numSamples] of [computeStats]. *)
Definition numSamples (s : LatencyStats) : Z :=
  if s.(m_count) <? Capacity then s.(m_count) else Capacity.

(** The snapshot [computeStats] copies into [sorted], before sorting. *)
Definition snapshot (s : LatencyStats) : list Z :=
  if s.(m_count) <=? Capacity
  then take (Z.to_nat (numSamples s)) s.(m_samples)
  else
    let writePos := s.(m_writeIdx) in
    drop (Z.to_nat writePos) s.(m_samples) ++ take (Z.to_nat writePos) s.(m_samples).

(** [computeStats] *)
Definition computeStats (s : LatencyStats) : Result :=
  let totalCount := s.(m_count) in
  if totalCount =? 0
  then Result_zero
  else
    let sorted := ZSort.sort (snapshot s) in
    let min := ns_to_us (hd 0 sorted) in
    let max := ns_to_us (List.last sorted 0) in
    let '(sum, sumSq) :=
      fold_left
        (fun (acc : float * float) (x : Z) =>
           let val := ns_to_us x in
           (fst acc + val, snd acc + val * val)%float)
        (take (Z.to_nat (numSamples s)) sorted) (0%float, 0%float) in
    let n := u64_to_double (numSamples s) in
    let stdev :=
      if numSamples s >? 1
      then PrimFloat.sqrt (fmax 0 ((sumSq - (sum * sum / n)) / (n - 1)))%float
      else 0%float in
    {| count := totalCount;
       min_us := min;
       max_us := max;
       mean_us := (sum / n)%float;
       stdev_us := stdev;
       p50_us := percentile sorted 50;
       p95_us := percentile sorted 95;
       p99_us := percentile sorted 99;
       p999_us := percentile sorted P999;
       p9999_us := percentile sorted P9999 |}.

(** The ring read from the write position onwards. *)
Definition unrolled (s : LatencyStats) : list Z :=
  drop (Z.to_nat s.(m_writeIdx)) s.(m_samples)
  ++ take (Z.to_nat s.(m_writeIdx)) s.(m_samples).

(** The state reached by recording [xs] into a fresh sampler: the counter
    is the number of samples, the write index that number modulo the
    capacity, and the ring, read from the write position, holds the last
    [Capacity] elements of the zero filling followed by [xs]. *)
Record recorded (xs : list Z) (s : LatencyStats) : Prop := {
  rec_length : Z.of_nat (length s.(m_samples)) = Capacity;
  rec_index : s.(m_writeIdx) = Z.of_nat (length xs) mod Capacity;
  rec_count : s.(m_count) = Z.of_nat (length xs);
  rec_ring : unrolled s = drop (length xs) (replicate (Z.to_nat Capacity) 0 ++ xs)
}.

End Template.

(** The nearest-rank index as the specification words it, for the
    percentile [pnum / pden] over [n] samples:
    [min(n, max(1, ceil(p * n / 100)))], computed over the integers. *)
Definition spec_nearest_rank_index (pnum pden n : Z) : Z :=
  Z.min n (Z.max 1 (- ((- (pnum * n)) / (100 * pden)))).

(** [n] values starting at [first], each [step] above the one before. *)
Fixpoint ramp (n : nat) (first step : Z) : list Z :=
  match n with
  | O => []
  | S n' => first :: ramp n' (first + step) step
  end.

(** The samples of the percentile scenario: 1 us, 2 us, ..., 100 000 us,
    in nanoseconds. *)
Definition known_distribution : list Z :=
  ramp (Z.to_nat 100000) 1000 1000.

End Latency.

(** ** Transmission errors *)

Module Corruption.

(** The buffer [buf] with bit [k] of the byte at index [i] inverted. *)
Definition flip_bit (buf : list Z) (i : nat) (k : Z) : list Z :=
  <[i := Z.lxor (buf !!! i) (Z.shiftl 1 k)]> buf.

End Corruption.

(** ** Sequences of calls and of received frames *)

Module Traffic.
Import Packet.

(** The clock value a call reads, if it reads the clock. *)
Definition call_time (c : Call) : option Z :=
  match c with
  | CallDecode now _ => Some now
  | CallUpdateReceivedLifesign now _ => Some now
  | CallResetCommMonitor now => Some now
  | _ => None
  end.

(** The clock never runs backwards: every reading of the calls [cs] is at
    least the reading before it, [t] being the last reading so far. *)
Fixpoint clock_monotone (t : Z) (cs : list Call) : Prop :=
  match cs with
  | [] => True
  | c :: cs' =>
      match call_time c with
      | Some now => t <= now /\ clock_monotone now cs'
      | None => clock_monotone t cs'
      end
  end.

(** The last clock reading after the calls [cs]. *)
Fixpoint last_reading (t : Z) (cs : list Call) : Z :=
  match cs with
  | [] => t
  | c :: cs' =>
      match call_time c with
      | Some now => last_reading now cs'
      | None => last_reading t cs'
      end
  end.

(** The monitor driven with a sequence of (arrival time, lifesign) pairs. *)
Definition receive_all (evs : list (Z * Z)) (p : AppPacket) : AppPacket :=
  fold_left (fun p ev => updateReceivedLifesign ev.1 ev.2 p) evs p.

(** Every frame of [evs] arrives out of tolerance: its distance to the
    frame before it ([recv] for the first) is outside the band of [p]. *)
Fixpoint all_out_of_tolerance (p : AppPacket) (recv : Z) (evs : list (Z * Z)) : Prop :=
  match evs with
  | [] => True
  | ev :: evs' =>
      out_of_tolerance p (elapsed_us_u32 recv ev.1) = true /\
      all_out_of_tolerance p ev.1 evs'
  end.

(** The streak is a 16-bit value and the flag says whether it is non-zero. *)
Definition streak_ok (p : AppPacket) : Prop :=
  0 <= p.(m_unstable_counter) <= 65535 /\
  (p.(m_comm_unstable) = true <-> 0 < p.(m_unstable_counter)).

(** The instants are ordered and not in the future. *)
Definition instants_ok (t : Z) (p : AppPacket) : Prop :=
  p.(m_last_change_time) <= p.(m_last_recv_time) /\ p.(m_last_recv_time) <= t.

End Traffic.

(** ** The ring as a queue *)

Module RingQueue.
Import Wire Ring.

Section Template.

Variables MaxPacketSize Capacity : Z.

(** The slot [k] places after the read index. *)
Definition slot_at (rb : LockFreeRingBuffer) (k : nat) : Packet :=
  rb.(m_buffer) !!! Z.to_nat ((rb.(m_readIdx) + Z.of_nat k) mod Capacity).

(** What a slot holds for the consumer: its stored length and the bytes a
    [pop] copies out. *)
Definition slot_view (s : Packet) : Z * list Z :=
  (s.(pkt_length), take (Z.to_nat s.(pkt_length)) s.(pkt_data)).

(** The packets waiting in the ring, oldest first. *)
Definition queued (rb : LockFreeRingBuffer) : list (Z * list Z) :=
  map (fun k => slot_view (slot_at rb k)) (seq 0 (Z.to_nat (size Capacity rb))).

(** What [push] stores for the packet [data]. *)
Definition stored (data : list Z) : Z * list Z :=
  (Z.of_nat (length data), data).

(** A consumer alone: up to [n] calls of [pop] into the same region, one
    after the other, stopping at the first that fails; the packets
    delivered, each the first [actualLength] bytes of the region. *)
Fixpoint drain (n : nat) (out : list Z) (rb : LockFreeRingBuffer)
  : list (list Z) * LockFreeRingBuffer :=
  match n with
  | O => ([], rb)
  | S n' =>
      let '(ok, out', actualLength, rb1) := pop Capacity out 0 rb in
      if ok
      then
        let '(ps, rb2) := drain n' out' rb1 in
        (take (Z.to_nat actualLength) out' :: ps, rb2)
      else ([], rb1)
  end.

End Template.

End RingQueue.

(** ** The rank computed by [percentile] *)

Module LatencyRank.
Import Fp Latency.

(** The one-based index [percentile] reads, for [size] samples: the
    statements of the function between the emptiness test and the array
    access. *)
Definition percentile_index (size : Z) (p : float) : Z :=
  let rank := ((p / 100) * u64_to_double size)%float in
  let idx := ceil_to_size rank in
  let idx := if idx =? 0 then 1 else idx in
  if idx >? size then size else idx.

(** The sample counts at which the index for 99.9 is checked to be one above
    the nearest rank: the multiples of 1000 other than 33 000 and 66 000. *)
Definition p999_off_by_one (n : Z) : bool :=
  (n mod 1000 =? 0) && negb (n =? 33000) && negb (n =? 66000).

(** The same ceiling and the same index, computed with shifts and with the
    primitive conversion of an integer below 2^63 to a double; used to
    evaluate the index over a range of sample counts. *)
Definition ceil_shift (x : float) : Z :=
  match Prim2SF x with
  | S754_zero _ => 0
  | S754_finite s m e =>
      let num := if s then Z.neg m else Z.pos m in
      if 0 <=? e
      then Z.shiftl num e
      else Z.shiftr (num + Z.ones (- e)) (- e)
  | _ => 0
  end.

Definition percentile_index_prim (size : Z) (p : float) : Z :=
  let rank := ((p / 100) * PrimFloat.of_uint63 (Uint63.of_Z size))%float in
  let idx := ceil_shift rank in
  let idx := if idx =? 0 then 1 else idx in
  if idx >? size then size else idx.

(** The comparison of the computed indices with the nearest-rank indices of
    the specification, for one sample count. *)
Definition ranks_as_expected (n : Z) : bool :=
  (percentile_index_prim n 50 =? spec_nearest_rank_index 50 1 n)
  && (percentile_index_prim n 95 =? spec_nearest_rank_index 95 1 n)
  && (percentile_index_prim n 99 =? spec_nearest_rank_index 99 1 n)
  && (percentile_index_prim n P9999 =? spec_nearest_rank_index 9999 100 n)
  && (percentile_index_prim n P999 =?
        spec_nearest_rank_index 999 10 n + (if p999_off_by_one n then 1 else 0)).

End LatencyRank.

(** ** The thread manager ([class UdpThreadManager]) *)

Module Manager.
Import Ring RingQueue.

(** Template arguments of the two queues, [LockFreeRingBuffer<2048, 1024>]. *)
Definition QUEUE_PACKET_SIZE : Z := 2048.
Definition QUEUE_CAPACITY : Z := 1024.

(** [sizeof(rxBuffer)] and [sizeof(txBuffer)] of the two thread loops. *)
Definition THREAD_BUFFER_SIZE : Z := 2048.

(** The members the queueing and the two loops work on; [m_rxCallback]
    tells whether a callback is set. *)
Record UdpThreadManager : Type := mkManager {
  m_rxQueue : LockFreeRingBuffer;
  m_txQueue : LockFreeRingBuffer;
  m_rxCallback : bool;
  m_rxPacketCount : Z;
  m_txPacketCount : Z;
  m_rxDropCount : Z;
  m_txDropCount : Z;
  m_rxLatencyStats : Latency.LatencyStats;
  m_txLatencyStats : Latency.LatencyStats;
  m_rxIntervalStats : Latency.LatencyStats;
  m_lastRxTime : Z;
  m_firstRxPacket : bool
}.

(** The constructor; [rxSlots] and [txSlots] are what the storage of the
    two queues holds and [now] the clock value it reads. *)
Definition UdpThreadManager_new (rxSlots txSlots : list Packet) (now : Z)
  : UdpThreadManager :=
  {| m_rxQueue := LockFreeRingBuffer_new rxSlots;
     m_txQueue := LockFreeRingBuffer_new txSlots;
     m_rxCallback := false;
     m_rxPacketCount := 0;
     m_txPacketCount := 0;
     m_rxDropCount := 0;
     m_txDropCount := 0;
     m_rxLatencyStats := Latency.LatencyStats_new Latency.LATENCY_STATS_DEFAULT_CAPACITY;
     m_txLatencyStats := Latency.LatencyStats_new Latency.LATENCY_STATS_DEFAULT_CAPACITY;
     m_rxIntervalStats := Latency.LatencyStats_new Latency.LATENCY_STATS_DEFAULT_CAPACITY;
     m_lastRxTime := now;
     m_firstRxPacket := true |}.

(** [setRxCallback] with a non-null callback. *)
Definition setRxCallback (m : UdpThreadManager) : UdpThreadManager :=
  {| m_rxQueue := m.(m_rxQueue);
     m_txQueue := m.(m_txQueue);
     m_rxCallback := true;
     m_rxPacketCount := m.(m_rxPacketCount);
     m_txPacketCount := m.(m_txPacketCount);
     m_rxDropCount := m.(m_rxDropCount);
     m_txDropCount := m.(m_txDropCount);
     m_rxLatencyStats := m.(m_rxLatencyStats);
     m_txLatencyStats := m.(m_txLatencyStats);
     m_rxIntervalStats := m.(m_rxIntervalStats);
     m_lastRxTime := m.(m_lastRxTime);
     m_firstRxPacket := m.(m_firstRxPacket) |}.

(** [LatencyStats::recordSample(start, end)]: the nanoseconds between two
    clock values, converted to [uint64_t]. *)
Definition recordSample_between (start end_ : Z) (s : Latency.LatencyStats)
  : Latency.LatencyStats :=
  Latency.recordSample Latency.LATENCY_STATS_DEFAULT_CAPACITY (wrap 64 (end_ - start)) s.

(** [queueTxPacket(data, length)] *)
Definition queueTxPacket (data : list Z) (m : UdpThreadManager)
  : bool * UdpThreadManager :=
  let '(pushed, q) := push QUEUE_PACKET_SIZE QUEUE_CAPACITY data m.(m_txQueue) in
  (pushed,
   {| m_rxQueue := m.(m_rxQueue);
      m_txQueue := q;
      m_rxCallback := m.(m_rxCallback);
      m_rxPacketCount := m.(m_rxPacketCount);
      m_txPacketCount := m.(m_txPacketCount);
      m_rxDropCount := m.(m_rxDropCount);
      m_txDropCount :=
        if pushed then m.(m_txDropCount) else wrap 64 (m.(m_txDropCount) + 1);
      m_rxLatencyStats := m.(m_rxLatencyStats);
      m_txLatencyStats := m.(m_txLatencyStats);
      m_rxIntervalStats := m.(m_rxIntervalStats);
      m_lastRxTime := m.(m_lastRxTime);
      m_firstRxPacket := m.(m_firstRxPacket) |}).

(** One pass of the body of [rxThreadLoop].  [recv] is what [receive]
    gave: [Some bytes] for a return value equal to the number of [bytes]
    written to [rxBuffer], [None] for a negative one; [rxStart] and [rxEnd]
    are the two clock values read.  Returns the region handed to the
    callback, if it is called. *)
Definition rxThreadLoop_body (recv : option (list Z)) (rxStart rxEnd : Z)
  (m : UdpThreadManager) : option (list Z) * UdpThreadManager :=
  match recv with
  | None => (None, m)
  | Some bytes =>
      if Z.of_nat (length bytes) >? 0
      then
        let '(pushed, q) := push QUEUE_PACKET_SIZE QUEUE_CAPACITY bytes m.(m_rxQueue) in
        (if m.(m_rxCallback) then Some bytes else None,
         {| m_rxQueue := q;
            m_txQueue := m.(m_txQueue);
            m_rxCallback := m.(m_rxCallback);
            m_rxPacketCount := wrap 64 (m.(m_rxPacketCount) + 1);
            m_txPacketCount := m.(m_txPacketCount);
            m_rxDropCount :=
              if pushed then m.(m_rxDropCount) else wrap 64 (m.(m_rxDropCount) + 1);
            m_txDropCount := m.(m_txDropCount);
            m_rxLatencyStats := recordSample_between rxStart rxEnd m.(m_rxLatencyStats);
            m_txLatencyStats := m.(m_txLatencyStats);
            m_rxIntervalStats :=
              if m.(m_firstRxPacket)
              then m.(m_rxIntervalStats)
              else recordSample_between m.(m_lastRxTime) rxStart m.(m_rxIntervalStats);
            m_lastRxTime := rxStart;
            m_firstRxPacket := false |})
      else (None, m)
  end.

(** One pass of the body of [txThreadLoop].  [txBuffer] and [txLength]
    are the two locals of the loop; [sentLen] is what [send] returns if it
    is called, [txStart] and [txEnd] the clock values read around it.
    Returns the region handed to [send], if it is called, and the locals
    after the pass. *)
Definition txThreadLoop_body (sentLen txStart txEnd : Z)
  (txBuffer : list Z) (txLength : Z) (m : UdpThreadManager)
  : option (list Z) * list Z * Z * UdpThreadManager :=
  let '(popped, txBuffer', txLength', q) :=
    pop QUEUE_CAPACITY txBuffer txLength m.(m_txQueue) in
  if popped
  then
    (Some (take (Z.to_nat txLength') txBuffer'), txBuffer', txLength',
     {| m_rxQueue := m.(m_rxQueue);
        m_txQueue := q;
        m_rxCallback := m.(m_rxCallback);
        m_rxPacketCount := m.(m_rxPacketCount);
        m_txPacketCount :=
          if sentLen >? 0 then wrap 64 (m.(m_txPacketCount) + 1) else m.(m_txPacketCount);
        m_rxDropCount := m.(m_rxDropCount);
        m_txDropCount :=
          if sentLen >? 0 then m.(m_txDropCount) else wrap 64 (m.(m_txDropCount) + 1);
        m_rxLatencyStats := m.(m_rxLatencyStats);
        m_txLatencyStats :=
          if sentLen >? 0
          then recordSample_between txStart txEnd m.(m_txLatencyStats)
          else m.(m_txLatencyStats);
        m_rxIntervalStats := m.(m_rxIntervalStats);
        m_lastRxTime := m.(m_lastRxTime);
        m_firstRxPacket := m.(m_firstRxPacket) |})
  else
    (None, txBuffer', txLength',
     {| m_rxQueue := m.(m_rxQueue);
        m_txQueue := q;
        m_rxCallback := m.(m_rxCallback);
        m_rxPacketCount := m.(m_rxPacketCount);
        m_txPacketCount := m.(m_txPacketCount);
        m_rxDropCount := m.(m_rxDropCount);
        m_txDropCount := m.(m_txDropCount);
        m_rxLatencyStats := m.(m_rxLatencyStats);
        m_txLatencyStats := m.(m_txLatencyStats);
        m_rxIntervalStats := m.(m_rxIntervalStats);
        m_lastRxTime := m.(m_lastRxTime);
        m_firstRxPacket := m.(m_firstRxPacket) |}).

(** What happens to a running manager, one whole call or loop pass at a
    time: the application queues a packet, the TX thread makes a pass, the
    RX thread makes a pass. *)
Inductive Event : Type :=
  | QueueTx (data : list Z)
  | TxPass (sentLen txStart txEnd : Z)
  | RxPass (recv : option (list Z)) (rxStart rxEnd : Z).

(** The manager with the locals of the TX loop, and what has been
    observed so far: the calls of [queueTxPacket] with their results, the
    regions handed to [send] with its results, and the regions handed to
    the callback; oldest first. *)
Record Threads : Type := mkThreads {
  manager : UdpThreadManager;
  txBuffer : list Z;
  txLength : Z;
  queue_log : list (list Z * bool);
  send_log : list (list Z * Z);
  callback_log : list (list Z)
}.

Definition step (e : Event) (t : Threads) : Threads :=
  match e with
  | QueueTx data =>
      let '(ok, m) := queueTxPacket data t.(manager) in
      {| manager := m;
         txBuffer := t.(txBuffer);
         txLength := t.(txLength);
         queue_log := t.(queue_log) ++ [(data, ok)];
         send_log := t.(send_log);
         callback_log := t.(callback_log) |}
  | TxPass sentLen txStart txEnd =>
      let '(handed, buf, len, m) :=
        txThreadLoop_body sentLen txStart txEnd t.(txBuffer) t.(txLength) t.(manager) in
      {| manager := m;
         txBuffer := buf;
         txLength := len;
         queue_log := t.(queue_log);
         send_log :=
           match handed with
           | Some region => t.(send_log) ++ [(region, sentLen)]
           | None => t.(send_log)
           end;
         callback_log := t.(callback_log) |}
  | RxPass recv rxStart rxEnd =>
      let '(handed, m) := rxThreadLoop_body recv rxStart rxEnd t.(manager) in
      {| manager := m;
         txBuffer := t.(txBuffer);
         txLength := t.(txLength);
         queue_log := t.(queue_log);
         send_log := t.(send_log);
         callback_log :=
           match handed with
           | Some region => t.(callback_log) ++ [region]
           | None => t.(callback_log)
           end |}
  end.

Definition run (es : list Event) (t : Threads) : Threads :=
  fold_left (fun t e => step e t) es t.

(** The threads of a manager that has just been started; [txBuffer] and
    [txLength] are what the locals of the TX loop hold. *)
Definition started (m : UdpThreadManager) (txBuffer : list Z) (txLength : Z) : Threads :=
  {| manager := m;
     txBuffer := txBuffer;
     txLength := txLength;
     queue_log := [];
     send_log := [];
     callback_log := [] |}.

(** The packets [queueTxPacket] accepted, in the order of the calls. *)
Definition accepted (log : list (list Z * bool)) : list (list Z) :=
  map fst (List.filter (fun c : list Z * bool => c.2) log).

(** The datagrams of the RX passes in which [receive] returned a positive
    length, with the two clock values of the pass. *)
Fixpoint rx_datagrams (es : list Event) : list (list Z * Z * Z) :=
  match es with
  | [] => []
  | RxPass (Some bytes) rxStart rxEnd :: es' =>
      if Z.of_nat (length bytes) >? 0
      then (bytes, rxStart, rxEnd) :: rx_datagrams es'
      else rx_datagrams es'
  | _ :: es' => rx_datagrams es'
  end.

(** [receive] writes at most [sizeof(rxBuffer)] bytes. *)
Definition receive_fits (e : Event) : Prop :=
  match e with
  | RxPass (Some bytes) _ _ => Z.of_nat (length bytes) <= THREAD_BUFFER_SIZE
  | _ => True
  end.

(** The spans between successive clock values, as [uint64_t] nanoseconds. *)
Fixpoint gaps (ts : list Z) : list Z :=
  match ts with
  | a :: (b :: _) as ts' => wrap 64 (b - a) :: gaps ts'
  | _ => []
  end.

(** Storage of a queue as the template lays it out: [QUEUE_CAPACITY] slots
    of [QUEUE_PACKET_SIZE] bytes. *)
Definition slots_ok (slots : list Packet) : Prop :=
  Z.of_nat (length slots) = QUEUE_CAPACITY /\
  Forall (fun s => Z.of_nat (length s.(pkt_data)) = QUEUE_PACKET_SIZE) slots.

(** The results of [send] that count as sent, and those that do not. *)
Definition sends_ok (log : list (list Z * Z)) : list (list Z * Z) :=
  List.filter (fun c : list Z * Z => c.2 >? 0) log.

Definition sends_failed (log : list (list Z * Z)) : list (list Z * Z) :=
  List.filter (fun c : list Z * Z => negb (c.2 >? 0)) log.

(** The calls of [queueTxPacket] that returned false. *)
Definition refused (log : list (list Z * bool)) : list (list Z * bool) :=
  List.filter (fun c : list Z * bool => negb c.2) log.

(** What the TX side keeps true: the TX queue is well formed, the region
    of the TX loop has its size, the packets handed to [send] followed by
    those waiting are the accepted ones, and the two TX counters count the
    sent packets and the lost ones. *)
Record tx_inv (t : Threads) : Prop := {
  tx_ring : ring_ok QUEUE_PACKET_SIZE QUEUE_CAPACITY t.(manager).(m_txQueue);
  tx_region : Z.of_nat (length t.(txBuffer)) = THREAD_BUFFER_SIZE;
  tx_fifo :
    map stored (map fst t.(send_log)) ++ queued QUEUE_CAPACITY t.(manager).(m_txQueue)
    = map stored (accepted t.(queue_log));
  tx_sizes :
    Forall (fun d => Z.of_nat (length d) <= QUEUE_PACKET_SIZE) (accepted t.(queue_log));
  tx_sent :
    t.(manager).(m_txPacketCount)
    = wrap 64 (Z.of_nat (length (sends_ok t.(send_log))));
  tx_drop :
    t.(manager).(m_txDropCount)
    = wrap 64 (Z.of_nat (length (refused t.(queue_log))
                         + length (sends_failed t.(send_log))))
}.

(** The fields of a datagram of [rx_datagrams]. *)
Definition dg_bytes (d : list Z * Z * Z) : list Z := d.1.1.
Definition dg_start (d : list Z * Z * Z) : Z := d.1.2.
Definition dg_span (d : list Z * Z * Z) : Z := wrap 64 (d.2 - d.1.2).

(** What the RX side keeps true after the events [es]. *)
Record rx_inv (es : list Event) (t : Threads) : Prop := {
  rx_ring : ring_ok QUEUE_PACKET_SIZE QUEUE_CAPACITY t.(manager).(m_rxQueue);
  rx_queue :
    queued QUEUE_CAPACITY t.(manager).(m_rxQueue)
    = map stored (take (Z.to_nat (QUEUE_CAPACITY - 1)) (map dg_bytes (rx_datagrams es)));
  rx_count :
    t.(manager).(m_rxPacketCount) = wrap 64 (Z.of_nat (length (rx_datagrams es)));
  rx_drop :
    t.(manager).(m_rxDropCount)
    = wrap 64 (Z.of_nat (length (rx_datagrams es) - Z.to_nat (QUEUE_CAPACITY - 1)));
  rx_callback :
    t.(callback_log)
    = if t.(manager).(m_rxCallback) then map dg_bytes (rx_datagrams es) else [];
  rx_first :
    t.(manager).(m_firstRxPacket)
    = match rx_datagrams es with [] => true | _ => false end;
  rx_last :
    forall d, List.last (map Some (rx_datagrams es)) None = Some d ->
              t.(manager).(m_lastRxTime) = dg_start d;
  rx_interval :
    t.(manager).(m_rxIntervalStats)
    = Latency.record_all Latency.LATENCY_STATS_DEFAULT_CAPACITY
        (gaps (map dg_start (rx_datagrams es)))
        (Latency.LatencyStats_new Latency.LATENCY_STATS_DEFAULT_CAPACITY);
  rx_latency :
    t.(manager).(m_rxLatencyStats)
    = Latency.record_all Latency.LATENCY_STATS_DEFAULT_CAPACITY
        (map dg_span (rx_datagrams es))
        (Latency.LatencyStats_new Latency.LATENCY_STATS_DEFAULT_CAPACITY)
}.

End Manager.

(** ** The application ([main.cpp]) *)

Module App.
Import Wire Packet Ring RingQueue Manager.

Definition TX_INTERVAL_MS : Z := 100.
Definition COMM_TIMEOUT_MS : Z := 1000.

(** The identifier [main] gives the TX packet, [0x12345678]. *)
Definition TX_UNIQUE_ID : Z := 305419896.

(** [sizeof(tx_buffer)] of [txTimerCallback]. *)
Definition TX_BUFFER_SIZE : Z := 256.

(** The lines the callbacks write to the terminal, by their arguments. *)
Inductive UiLine : Type :=
  | RxLine (unique_id lifesign data_length interval_us : Z)
  | RxUnstableLine (count : Z)
  | RxDecodeFailedLine (error : AppPacketError)
  | TxQueuedLine (lifesign encoded_len queue_size : Z)
  | TxQueueFullLine.

(** The objects of [main] the callbacks work on. *)
Record App : Type := mkApp {
  threadMgr : Threads;
  tx_packet : AppPacket;
  rx_packet : AppPacket;
  ui : list UiLine
}.

(** The objects as [main] sets them up; [c1] to [c5] are the clock values
    the constructors read. *)
Definition main_start (rxSlots txSlots : list Packet) (c1 c2 c3 c4 c5 : Z)
  (txBuffer : list Z) (txLength : Z) : App :=
  {| threadMgr :=
       started (setRxCallback (UdpThreadManager_new rxSlots txSlots c5)) txBuffer txLength;
     tx_packet := setUniqueId TX_UNIQUE_ID (AppPacket_new c1 c2);
     rx_packet :=
       setExpectedInterval TX_INTERVAL_MS APP_PACKET_INTERVAL_TOLERANCE_US
         (setCommTimeout COMM_TIMEOUT_MS (AppPacket_new c3 c4));
     ui := [] |}.

(** [txTimerCallback] *)
Definition txTimerCallback (a : App) : App :=
  let tx_buffer := replicate (Z.to_nat TX_BUFFER_SIZE) 0 in
  let p1 := setDataPointer (Some tx_payload) a.(tx_packet) in
  let '(encoded_len, buffer, p2) := encode (Some tx_buffer) p1 in
  if encoded_len >? 0
  then
    let region :=
      take (Z.to_nat encoded_len)
        (match buffer with Some b => b | None => tx_buffer end) in
    let queued_ok := (queueTxPacket region a.(threadMgr).(manager)).1 in
    let t := step (QueueTx region) a.(threadMgr) in
    {| threadMgr := t;
       tx_packet := p2;
       rx_packet := a.(rx_packet);
       ui :=
         a.(ui) ++
         [if queued_ok
          then TxQueuedLine p2.(m_lifesign) encoded_len
                 (size QUEUE_CAPACITY t.(manager).(m_txQueue))
          else TxQueueFullLine] |}
  else
    {| threadMgr := a.(threadMgr);
       tx_packet := p2;
       rx_packet := a.(rx_packet);
       ui := a.(ui) |}.

(** [rxPacketHandler], with the clock value its [decode] reads. *)
Definition rxPacketHandler (now : Z) (data : list Z) (a : App) : App :=
  let '(decode_ok, p) := decode now (Some data) a.(rx_packet) in
  {| threadMgr := a.(threadMgr);
     tx_packet := a.(tx_packet);
     rx_packet := p;
     ui :=
       a.(ui) ++
       (if decode_ok
        then
          RxLine p.(m_unique_id) p.(m_rx_lifesign) p.(m_data_length)
            p.(m_last_interval_us)
          :: (if isCommUnstable p then [RxUnstableLine p.(m_unstable_counter)] else [])
        else [RxDecodeFailedLine p.(m_error)]) |}.

(** What happens to the running application: the TX timer fires, the TX
    thread makes a pass, the RX thread makes a pass, in which the callback
    runs [rxPacketHandler] at the clock value [now]. *)
Inductive AppEvent : Type :=
  | TxTimer
  | TxThread (sentLen txStart txEnd : Z)
  | RxThread (recv : option (list Z)) (rxStart now rxEnd : Z).

Definition app_step (e : AppEvent) (a : App) : App :=
  match e with
  | TxTimer => txTimerCallback a
  | TxThread sentLen txStart txEnd =>
      {| threadMgr := step (TxPass sentLen txStart txEnd) a.(threadMgr);
         tx_packet := a.(tx_packet);
         rx_packet := a.(rx_packet);
         ui := a.(ui) |}
  | RxThread recv rxStart now rxEnd =>
      let handed := (rxThreadLoop_body recv rxStart rxEnd a.(threadMgr).(manager)).1 in
      let a1 :=
        {| threadMgr := step (RxPass recv rxStart rxEnd) a.(threadMgr);
           tx_packet := a.(tx_packet);
           rx_packet := a.(rx_packet);
           ui := a.(ui) |} in
      match handed with
      | Some region => rxPacketHandler now region a1
      | None => a1
      end
  end.

Definition app_run (es : list AppEvent) (a : App) : App :=
  fold_left (fun a e => app_step e a) es a.

(** The number of times the TX timer fired. *)
Definition ticks (es : list AppEvent) : nat :=
  length (List.filter (fun e => match e with TxTimer => true | _ => false end) es).

(** The frame of the tick with number [k], counted from 0. *)
Definition tick_frame (k : nat) : list Z :=
  wire_frame TX_UNIQUE_ID (Z.of_nat k mod 65536) tx_payload.

(** The datagrams of the RX passes in which [receive] returned a positive
    length. *)
Fixpoint received (es : list AppEvent) : list (list Z) :=
  match es with
  | [] => []
  | RxThread (Some bytes) _ _ _ :: es' =>
      if Z.of_nat (length bytes) >? 0 then bytes :: received es' else received es'
  | _ :: es' => received es'
  end.

(** A datagram that is a frame of the wire format. *)
Definition is_frame (bytes : list Z) : Prop :=
  exists id ls payload,
    bytes = wire_frame id ls payload /\
    is_u32 id /\ is_u16 ls /\ Forall is_byte payload /\ (length payload <= 256)%nat.

(** The three header fields of a datagram. *)
Definition header_fields (bytes : list Z) : Z * Z * Z :=
  (le_value (read_bytes bytes 0 4),
   le_value (read_bytes bytes 4 2),
   le_value (read_bytes bytes 6 2)).

(** The [RX] lines of the terminal, by identifier, lifesign and length,
    and the lines that report a failed decode. *)
Fixpoint rx_lines (lines : list UiLine) : list (Z * Z * Z) :=
  match lines with
  | [] => []
  | RxLine unique_id lifesign data_length _ :: lines' =>
      (unique_id, lifesign, data_length) :: rx_lines lines'
  | _ :: lines' => rx_lines lines'
  end.

Fixpoint decode_failures (lines : list UiLine) : list AppPacketError :=
  match lines with
  | [] => []
  | RxDecodeFailedLine error :: lines' => error :: decode_failures lines'
  | _ :: lines' => decode_failures lines'
  end.

(** What the transmit side keeps true after the events [es]. *)
Record sender_inv (es : list AppEvent) (a : App) : Prop := {
  snd_tx : tx_inv a.(threadMgr);
  snd_id : a.(tx_packet).(m_unique_id) = TX_UNIQUE_ID;
  snd_lifesign : a.(tx_packet).(m_lifesign) = Z.of_nat (ticks es) mod 65536;
  snd_frames :
    exists ks,
      accepted a.(threadMgr).(queue_log) = map tick_frame ks /\
      StronglySorted lt ks /\
      Forall (fun k => (k < ticks es)%nat) ks /\
      ((ticks es <= 1023)%nat -> ks = seq 0 (ticks es))
}.

(** What the receive side keeps true after the events [es]. *)
Record receiver_inv (es : list AppEvent) (a : App) : Prop := {
  rcv_callback : a.(threadMgr).(manager).(m_rxCallback) = true;
  rcv_lines : rx_lines a.(ui) = map header_fields (received es);
  rcv_failures : decode_failures a.(ui) = []
}.

End App.

(** ** The timer handle ([class TimerHandle]) *)

Module Timer.

Definition NSEC_PER_SEC : Z := 1000000000.
Definition NSEC_PER_MSEC : Z := 1000000.

Inductive TimerHandleError : Type :=
  | NoTimerError
  | TimerCreateFail
  | SetTimeFail
  | ReadFail.

(** [m_callback] tells whether a callback is set. *)
Record TimerHandle : Type := mkTimerHandle {
  m_timerfd : Z;
  m_callback : bool;
  m_error : TimerHandleError
}.

Definition TimerHandle_new : TimerHandle :=
  {| m_timerfd := -1; m_callback := false; m_error := NoTimerError |}.

(** [struct itimerspec]: first expiration and period, each in seconds and
    nanoseconds. *)
Record itimerspec : Type := mkItimerspec {
  it_value_sec : Z;
  it_value_nsec : Z;
  it_interval_sec : Z;
  it_interval_nsec : Z
}.

(** [TimerHandle::msec2nsec(uint32_t)] and [TimerHandle::sec2nsec(uint32_t)] *)
Definition msec2nsec (msec : Z) : Z := wrap 64 (msec * NSEC_PER_MSEC).

Definition sec2nsec (sec : Z) : Z := wrap 64 (sec * NSEC_PER_SEC).

(** [TimerHandle::initialize(interval_nsec, periodic)]; [created] is what
    [timerfd_create] returns and [settime_ret] what [timerfd_settime]
    returns if it is called.  Returns the setting handed to
    [timerfd_settime], if it is called, and the handle after the call. *)
Definition initialize (interval_nsec : Z) (periodic : bool) (created settime_ret : Z)
  (h : TimerHandle) : option itimerspec * TimerHandle :=
  if created <? 0
  then (None,
        {| m_timerfd := created; m_callback := h.(m_callback);
           m_error := TimerCreateFail |})
  else
    let sec := interval_nsec / NSEC_PER_SEC in
    let nsec := interval_nsec mod NSEC_PER_SEC in
    (Some {| it_value_sec := sec;
             it_value_nsec := nsec;
             it_interval_sec := if periodic then sec else 0;
             it_interval_nsec := if periodic then nsec else 0 |},
     {| m_timerfd := created; m_callback := h.(m_callback);
        m_error := if settime_ret <? 0 then SetTimeFail else NoTimerError |}).

End Timer.

(** ** The command line ([ArgParser.cpp]) *)

Module ArgParser.
Import Stdlib.Strings.String.

Definition PARSE_FLAG_HAS_SRC : Z := 1.
Definition PARSE_FLAG_HAS_DST : Z := 2.
Definition PARSE_FLAG_ERR_SRC_FMT : Z := 4.
Definition PARSE_FLAG_ERR_DST_FMT : Z := 8.
Definition PARSE_FLAG_REQUIRED_MASK : Z := 3.
Definition PARSE_FLAG_ERROR_MASK : Z := 12.

Record UdpPeerArgs : Type := mkUdpPeerArgs {
  src_addr : Z;
  src_port : Z;
  dst_addr : Z;
  dst_port : Z
}.

(** What a call of [parseAddrPort] on a token does: it returns true and
    stores an address and a port, it returns false and stores nothing, or
    [std::stoul] throws. *)
Inductive ParseOutcome : Type :=
  | Parsed (addr port : Z)
  | Malformed
  | Thrown.

(** Which of the two options an argument is. *)
Inductive Side : Type := Src | Dst.

Section Parser.

(** [parseAddrPort], by its outcome on each token. *)
Variable parseAddrPort : string -> ParseOutcome.

(** The loop of [parseUdpPeerArgs] over the arguments from [argv[idx]] on;
    [None] when an exception leaves the function. *)
Fixpoint scan (argv : list string) (result_flags : Z) (args : UdpPeerArgs)
  : option (Z * UdpPeerArgs) :=
  match argv with
  | [] => Some (result_flags, args)
  | arg :: rest =>
      match rest with
      | [] => Some (result_flags, args)
      | token :: rest' =>
          if (arg =? "--src")%string
          then
            match parseAddrPort token with
            | Parsed addr port =>
                scan rest' (Z.lor result_flags PARSE_FLAG_HAS_SRC)
                  {| src_addr := addr; src_port := port;
                     dst_addr := args.(dst_addr); dst_port := args.(dst_port) |}
            | Malformed =>
                scan rest' (Z.lor result_flags PARSE_FLAG_ERR_SRC_FMT) args
            | Thrown => None
            end
          else if (arg =? "--dst")%string
          then
            match parseAddrPort token with
            | Parsed addr port =>
                scan rest' (Z.lor result_flags PARSE_FLAG_HAS_DST)
                  {| src_addr := args.(src_addr); src_port := args.(src_port);
                     dst_addr := addr; dst_port := port |}
            | Malformed =>
                scan rest' (Z.lor result_flags PARSE_FLAG_ERR_DST_FMT) args
            | Thrown => None
            end
          else scan rest result_flags args
      end
  end.

(** [parseUdpPeerArgs(argc, argv, args)]: the result and [args] after the
    call. *)
Definition parseUdpPeerArgs (argv : list string) (args : UdpPeerArgs)
  : option (bool * UdpPeerArgs) :=
  match scan (tl argv) 0 args with
  | None => None
  | Some (result_flags, args') =>
      Some ((Z.land result_flags PARSE_FLAG_REQUIRED_MASK =? PARSE_FLAG_REQUIRED_MASK)
            && (Z.land result_flags PARSE_FLAG_ERROR_MASK =? 0),
            args')
  end.

(** The options the loop takes from the arguments: each [--src] or
    [--dst] that has a successor, with that successor as its token. *)
Fixpoint options (argv : list string) : list (Side * string) :=
  match argv with
  | [] => []
  | arg :: rest =>
      match rest with
      | [] => []
      | token :: rest' =>
          if (arg =? "--src")%string then (Src, token) :: options rest'
          else if (arg =? "--dst")%string then (Dst, token) :: options rest'
          else options rest
      end
  end.

(** The address and port of the last well-formed token of a side, or the
    values given if there is none. *)
Fixpoint last_parsed (side : Side) (opts : list (Side * string)) (addr port : Z) : Z * Z :=
  match opts with
  | [] => (addr, port)
  | (s, token) :: opts' =>
      match s, side, parseAddrPort token with
      | Src, Src, Parsed a p => last_parsed side opts' a p
      | Dst, Dst, Parsed a p => last_parsed side opts' a p
      | _, _, _ => last_parsed side opts' addr port
      end
  end.

Definition well_formed (opt : Side * string) : Prop :=
  exists addr port, parseAddrPort opt.2 = Parsed addr port.

Definition no_throw (opt : Side * string) : Prop :=
  parseAddrPort opt.2 <> Thrown.

Definition side_eqb (a b : Side) : bool :=
  match a, b with
  | Src, Src | Dst, Dst => true
  | _, _ => false
  end.

(** Whether some token of a side is well formed, and whether some is
    malformed. *)
Definition has_parsed (side : Side) (opts : list (Side * string)) : bool :=
  existsb (fun opt : Side * string =>
             side_eqb opt.1 side &&
             match parseAddrPort opt.2 with Parsed _ _ => true | _ => false end) opts.

Definition has_malformed (side : Side) (opts : list (Side * string)) : bool :=
  existsb (fun opt : Side * string =>
             side_eqb opt.1 side &&
             match parseAddrPort opt.2 with Malformed => true | _ => false end) opts.

(** The value of [result_flags] with the given four bits. *)
Definition flags_of (has_src has_dst err_src err_dst : bool) : Z :=
  Z.b2z has_src + 2 * Z.b2z has_dst + 4 * Z.b2z err_src + 8 * Z.b2z err_dst.

End Parser.

End ArgParser.

(** * Properties *)

(** ** Theorems about the CRC *)

Module CrcFacts.
Import Crc.

Lemma lxor_u32 a b : is_u32 a -> is_u32 b -> is_u32 (Z.lxor a b).
Proof.
  unfold is_u32. intros [Ha Ha'] [Hb Hb']. split.
  - apply Z.lxor_nonneg. tauto.
  - destruct (Z.eq_dec (Z.lxor a b) 0) as [->|Hne]; [reflexivity|].
    assert (0 < Z.lxor a b) by (pose proof (proj2 (Z.lxor_nonneg a b)); lia).
    apply Z.log2_lt_pow2; [assumption|].
    pose proof (Z.log2_lxor a b Ha Hb) as Hl.
    assert (Z.log2 a < 32).
    { destruct (Z.eq_dec a 0) as [->|]; [simpl; lia|].
      apply Z.log2_lt_pow2; lia. }
    assert (Z.log2 b < 32).
    { destruct (Z.eq_dec b 0) as [->|]; [simpl; lia|].
      apply Z.log2_lt_pow2; lia. }
    lia.
Qed.

Lemma shiftr1_u32 a : is_u32 a -> is_u32 (Z.shiftr a 1).
Proof.
  unfold is_u32. intros [Ha Ha']. rewrite Z.shiftr_div_pow2 by lia.
  change (2 ^ 1) with 2. split.
  - apply Z.div_pos; lia.
  - apply Z.div_lt_upper_bound; lia.
Qed.

Lemma crc_bit_u32 crc : is_u32 crc -> is_u32 (crc_bit crc).
Proof.
  intros H. unfold crc_bit.
  destruct (negb _).
  - apply lxor_u32; [now apply shiftr1_u32|]. unfold is_u32, CRC32_POLYNOMIAL. lia.
  - now apply shiftr1_u32.
Qed.

Lemma crc_bits_u32 n crc : is_u32 crc -> is_u32 (crc_bits n crc).
Proof.
  revert crc. induction n as [|n IH]; intros crc H; simpl; [assumption|].
  apply IH, crc_bit_u32, H.
Qed.

Lemma crc_byte_u32 crc b : is_u32 crc -> is_byte b -> is_u32 (crc_byte crc b).
Proof.
  intros Hc Hb. apply crc_bits_u32, lxor_u32; [assumption|].
  unfold is_byte in Hb. unfold is_u32. lia.
Qed.

Lemma fold_crc_byte_u32 data crc :
  is_u32 crc -> Forall is_byte data -> is_u32 (fold_left crc_byte data crc).
Proof.
  intros Hc Hd. revert crc Hc.
  induction Hd as [|b data Hb _ IH]; intros crc Hc; simpl; [assumption|].
  apply IH, crc_byte_u32; assumption.
Qed.

(** The checksum of a byte string always fits the 32-bit footer field. *)
Lemma calculateCrc32_u32 data :
  Forall is_byte data -> is_u32 (calculateCrc32 data).
Proof.
  intros Hd. apply lxor_u32.
  - apply fold_crc_byte_u32; [|assumption]. unfold is_u32. lia.
  - unfold is_u32. lia.
Qed.


(** Feeding a byte at once is feeding its bits one by one: after [n] steps
    the bits of [x] not yet consumed are still XORed into the register. *)
Lemma crc_bit_serial c x :
  crc_bit (Z.lxor c x) = Z.lxor (serial_step c (Z.testbit x 0)) (Z.shiftr x 1).
Proof.
  unfold crc_bit, serial_step.
  replace (Z.land (Z.lxor c x) 1) with (Z.lxor c x mod 2)
    by (symmetry; apply (Z.land_ones _ 1); lia).
  rewrite Z.shiftr_lxor, <- Z.bit0_mod, Z.lxor_spec.
  destruct (xorb (Z.testbit c 0) (Z.testbit x 0)); cbn [Z.b2z Z.eqb negb].
  - rewrite !Z.lxor_assoc. f_equal. apply Z.lxor_comm.
  - reflexivity.
Qed.

Lemma crc_bits_serial n c x :
  crc_bits n (Z.lxor c x) =
  Z.lxor (fold_left serial_step (bits_lsb_first n x) c) (Z.shiftr x (Z.of_nat n)).
Proof.
  revert c x. induction n as [|n IH]; intros c x.
  - simpl. now rewrite Z.shiftr_0_r.
  - cbn [crc_bits bits_lsb_first fold_left].
    rewrite crc_bit_serial, IH, Z.shiftr_shiftr by lia.
    do 2 f_equal. lia.
Qed.

Lemma crc_byte_serial c b :
  is_byte b -> crc_byte c b = fold_left serial_step (bits_lsb_first 8 b) c.
Proof.
  intros Hb. unfold crc_byte. rewrite crc_bits_serial.
  rewrite Z.shiftr_div_pow2 by lia.
  unfold is_byte in Hb. rewrite Z.div_small by (simpl; lia).
  apply Z.lxor_0_r.
Qed.

Lemma fold_crc_byte_serial data c :
  Forall is_byte data ->
  fold_left crc_byte data c = fold_left serial_step (message_bits data) c.
Proof.
  intros Hd. revert c. unfold message_bits.
  induction Hd as [|b data Hb _ IH]; intros c; [reflexivity|].
  cbn [fold_left map concat]. rewrite fold_left_app, <- crc_byte_serial by assumption.
  apply IH.
Qed.

(** C4: [calculateCrc32] is the reflected IEEE-802.3 CRC-32 with polynomial
    0xEDB88320, initial value 0xFFFFFFFF and final XOR 0xFFFFFFFF (it agrees
    with the bit-serial reference on every byte string), and it maps the
    empty input to 0x00000000, the byte 0x61 to 0xE8B7BE43 and the nine
    ASCII bytes of "123456789" to 0xCBF43926. *)
Theorem crc32_ieee_vectors :
  CRC32_POLYNOMIAL = 0xEDB88320 /\
  (forall data, Forall is_byte data ->
     calculateCrc32 data = crc32_ieee_reference data) /\
  calculateCrc32 [] = 0x00000000 /\
  calculateCrc32 [0x61] = 0xE8B7BE43 /\
  calculateCrc32 [0x31; 0x32; 0x33; 0x34; 0x35; 0x36; 0x37; 0x38; 0x39] = 0xCBF43926.
Proof.
  split; [reflexivity|]. split.
  - intros data Hd. unfold calculateCrc32, crc32_ieee_reference.
    now rewrite fold_crc_byte_serial.
  - repeat split; vm_compute; reflexivity.
Qed.

(** The agreement with the reference, on the bytes of "Agent Team Test". *)
Lemma crc32_ieee_vectors_witness :
  calculateCrc32 [65; 103; 101; 110; 116; 32; 84; 101; 97; 109; 32; 84; 101; 115; 116]
  = crc32_ieee_reference
      [65; 103; 101; 110; 116; 32; 84; 101; 97; 109; 32; 84; 101; 115; 116].
Proof.
  apply (proj1 (proj2 crc32_ieee_vectors)).
  repeat constructor; unfold is_byte; lia.
Defined.

End CrcFacts.

(** ** Theorems about the byte-level helpers *)

Module WireFacts.
Import Wire.

Lemma le_bytes_length n v : length (le_bytes n v) = n.
Proof. revert v. induction n as [|n IH]; intros v; simpl; [reflexivity|]. now rewrite IH. Qed.

Lemma land_255_byte v : is_byte (Z.land v 0xFF).
Proof.
  unfold is_byte. change 0xFF with (Z.ones 8).
  rewrite Z.land_ones by lia. apply Z.mod_pos_bound. lia.
Qed.

Lemma le_bytes_is_byte n v : Forall is_byte (le_bytes n v).
Proof.
  revert v. induction n as [|n IH]; intros v; simpl; constructor.
  - apply land_255_byte.
  - apply IH.
Qed.

(** A byte in the low position and a value shifted past it do not overlap. *)
Lemma lor_shiftl_8 b x :
  is_byte b -> 0 <= x -> Z.lor b (Z.shiftl x 8) = b + 256 * x.
Proof.
  intros Hb Hx.
  assert (Hd : Z.land b (Z.shiftl x 8) = 0).
  { apply Z.bits_inj'. intros i Hi. rewrite Z.land_spec, Z.bits_0.
    destruct (Z.lt_ge_cases i 8) as [Hlt|Hge].
    - rewrite (Z.shiftl_spec_low x 8 i) by assumption. apply andb_false_r.
    - replace (Z.testbit b i) with false; [reflexivity|].
      symmetry. apply Z.bits_above_log2; [unfold is_byte in Hb; lia|].
      destruct (Z.eq_dec b 0) as [->|Hne]; [simpl; lia|].
      assert (Z.log2 b < 8) by (apply Z.log2_lt_pow2; unfold is_byte in Hb; simpl; lia).
      lia. }
  rewrite <- Z.lxor_lor by assumption.
  rewrite <- Z.add_nocarry_lxor by assumption.
  rewrite Z.shiftl_mul_pow2 by lia. simpl (2 ^ 8). lia.
Qed.

Lemma le_value_nonneg bs : Forall is_byte bs -> 0 <= le_value bs.
Proof.
  induction 1 as [|b bs Hb _ IH]; simpl; [lia|].
  rewrite lor_shiftl_8 by assumption. unfold is_byte in Hb. lia.
Qed.

(** Reading back the [n] bytes written for [v] gives [v] modulo 2^(8n). *)
Lemma le_value_le_bytes n v :
  0 <= v -> le_value (le_bytes n v) = v mod 2 ^ (8 * Z.of_nat n).
Proof.
  revert v. induction n as [|n IH]; intros v Hv.
  - simpl. now rewrite Z.mod_1_r.
  - cbn [le_bytes le_value].
    assert (Hs : 0 <= Z.shiftr v 8) by (apply Z.shiftr_nonneg; assumption).
    rewrite lor_shiftl_8.
    + rewrite IH by assumption.
      change 0xFF with (Z.ones 8). rewrite Z.land_ones by lia.
      rewrite Z.shiftr_div_pow2 by lia.
      replace (8 * Z.of_nat (S n)) with (8 + 8 * Z.of_nat n) by lia.
      rewrite Z.pow_add_r by lia.
      rewrite Z.rem_mul_r by lia. reflexivity.
    + apply land_255_byte.
    + rewrite IH by assumption. apply Z.mod_pos_bound. lia.
Qed.

Lemma le_value_le_bytes_u32 v : is_u32 v -> le_value (le_bytes 4 v) = v.
Proof.
  intros [H0 H1]. rewrite le_value_le_bytes by assumption.
  apply Z.mod_small. split; [assumption|]. exact H1.
Qed.

Lemma le_value_le_bytes_u16 v : is_u16 v -> le_value (le_bytes 2 v) = v.
Proof.
  intros [H0 H1]. rewrite le_value_le_bytes by assumption.
  apply Z.mod_small. split; [assumption|]. exact H1.
Qed.

Lemma write_bytes_length buf off src :
  (off + length src <= length buf)%nat ->
  length (write_bytes buf off src) = length buf.
Proof.
  intros H. unfold write_bytes.
  rewrite !length_app, length_take, length_drop. lia.
Qed.

(** Writing at offset 0 into a region that is long enough. *)
Lemma write_bytes_0 buf src :
  write_bytes buf 0 src = src ++ drop (length src) buf.
Proof. reflexivity. Qed.

(** Appending behind a prefix that is already in place. *)
Lemma write_bytes_after pre rest src :
  write_bytes (pre ++ rest) (length pre) src = pre ++ src ++ drop (length src) rest.
Proof.
  unfold write_bytes.
  rewrite take_app_length. rewrite drop_app_add'; reflexivity.
Qed.

Lemma read_bytes_at pre bs rest n :
  n = length bs ->
  read_bytes (pre ++ bs ++ rest) (length pre) n = bs.
Proof.
  intros ->. unfold read_bytes.
  rewrite drop_app_length. apply take_app_length.
Qed.

Lemma read_bytes_0 bs rest n :
  n = length bs -> read_bytes (bs ++ rest) 0 n = bs.
Proof. intros ->. unfold read_bytes. simpl. apply take_app_length. Qed.

End WireFacts.

(** ** Theorems about the packet codec *)

Module CodecFacts.
Import Crc Wire Packet CrcFacts WireFacts.

Lemma header_bytes_length id ls dl : length (header_bytes id ls dl) = 8%nat.
Proof. unfold header_bytes. now rewrite !length_app, !le_bytes_length. Qed.

Lemma header_bytes_is_byte id ls dl : Forall is_byte (header_bytes id ls dl).
Proof. unfold header_bytes. rewrite !Forall_app. auto using le_bytes_is_byte. Qed.

Lemma wire_frame_length id ls payload :
  length (wire_frame id ls payload) = (12 + length payload)%nat.
Proof.
  unfold wire_frame. cbv zeta.
  rewrite !length_app, header_bytes_length, le_bytes_length. lia.
Qed.

(** What [encode] leaves in the buffer, for a packet whose payload view is
    [payload]: the frame, followed by the untouched rest of the buffer. *)
Lemma encode_writes_frame (p : AppPacket) (payload buf : list Z) :
  p.(m_data_ptr) = Some payload ->
  p.(m_data_length) = Z.of_nat (length payload) ->
  (length payload <= 256)%nat ->
  (12 + length payload <= length buf)%nat ->
  encode (Some buf) p =
    (12 + Z.of_nat (length payload),
     Some (wire_frame p.(m_unique_id) p.(m_lifesign) payload
             ++ drop (12 + length payload) buf),
     set_lifesign (wrap 16 (p.(m_lifesign) + 1))
       (set_error NoError
          (set_crc32
             (calculateCrc32
                (header_bytes p.(m_unique_id) p.(m_lifesign)
                   (Z.of_nat (length payload)) ++ payload)) p))).
Proof.
  intros Hptr Hlen H256 Hbuf. unfold encode.
  rewrite Hptr, Hlen. unfold HEADER_SIZE, FOOTER_SIZE, wrap.
  set (N := Z.of_nat (length payload)).
  assert (HN : 0 <= N <= 256) by lia.
  rewrite (Z.mod_small (8 + N + 4)) by (simpl; lia).
  rewrite (Z.mod_small N (2 ^ 16)) by (simpl; lia).
  destruct (Z.ltb_spec (Z.of_nat (length buf)) (8 + N + 4)) as [Hlt|_]; [lia|].
  set (hdr := header_bytes (m_unique_id p) (m_lifesign p) N).
  assert (Hh : length hdr = 8%nat) by apply header_bytes_length.
  match goal with
  | |- context [if N >? 0 then ?a else ?b] =>
      assert (Hb2 : (if N >? 0 then a else b)
                    = (hdr ++ payload ++ drop (8 + length payload) buf, 8 + N))
  end.
  { rewrite write_bytes_0, Hh.
    destruct (Z.gtb_spec N 0) as [Hpos|Hz].
    - replace (Z.to_nat 8) with (length hdr) by (rewrite Hh; reflexivity).
      rewrite write_bytes_after.
      replace (Z.to_nat N) with (length payload) by lia.
      rewrite firstn_all, drop_drop. reflexivity.
    - assert (length payload = 0)%nat as E0 by lia.
      destruct payload; [|discriminate]. simpl.
      replace N with 0 by lia. reflexivity. }
  rewrite Hb2. clear Hb2.
  replace (Z.to_nat (8 + N)) with (length (hdr ++ payload))
    by (rewrite length_app, Hh; lia).
  rewrite app_assoc, take_app_length.
  rewrite write_bytes_after, le_bytes_length, drop_drop.
  unfold wire_frame. cbv zeta. fold N. fold hdr.
  replace (8 + N + 4) with (12 + N) by lia.
  replace (8 + length payload + 4)%nat with (12 + length payload)%nat by lia.
  now rewrite <- !app_assoc.
Qed.

(** The three header fields read back from a buffer that starts with a
    header. *)
Lemma read_header id ls dl rest :
  is_u32 id -> is_u16 ls -> is_u16 dl ->
  let buf := header_bytes id ls dl ++ rest in
  le_value (read_bytes buf 0 4) = id /\
  le_value (read_bytes buf 4 2) = ls /\
  le_value (read_bytes buf 6 2) = dl.
Proof.
  intros Hid Hls Hdl buf. unfold buf, header_bytes.
  repeat split.
  - rewrite <- !app_assoc, read_bytes_0 by (now rewrite le_bytes_length).
    now apply le_value_le_bytes_u32.
  - rewrite <- !app_assoc.
    rewrite (read_bytes_at (le_bytes 4 id) (le_bytes 2 ls)) by (now rewrite le_bytes_length).
    now apply le_value_le_bytes_u16.
  - rewrite <- !app_assoc, (app_assoc (le_bytes 4 id)).
    rewrite (read_bytes_at (le_bytes 4 id ++ le_bytes 2 ls) (le_bytes 2 dl))
      by (now rewrite le_bytes_length).
    now apply le_value_le_bytes_u16.
Qed.

Lemma updateReceivedLifesign_data_length now ls p :
  (updateReceivedLifesign now ls p).(m_data_length) = p.(m_data_length).
Proof. reflexivity. Qed.

(** [decode] accepts every well-formed frame, whatever the state of the
    receiving packet. *)
Lemma decode_wire_frame now rx id ls payload :
  is_u32 id -> is_u16 ls -> Forall is_byte payload ->
  (length payload <= 256)%nat ->
  let frame := wire_frame id ls payload in
  let N := Z.of_nat (length payload) in
  let body := header_bytes id ls N ++ payload in
  decode now (Some frame) rx =
    (true,
     set_error NoError
       (set_crc32 (calculateCrc32 body)
          (set_data_ptr (if N >? 0 then Some (drop 8 frame) else None)
             (updateReceivedLifesign now ls
                (set_data_length N (set_unique_id id rx)))))).
Proof.
  intros Hid Hls Hpl H256 frame N body.
  assert (HN : is_u16 N) by (unfold is_u16, N; simpl; lia).
  assert (Hbody : length body = (8 + length payload)%nat)
    by (unfold body; rewrite length_app, header_bytes_length; reflexivity).
  assert (Hframe : frame = body ++ le_bytes 4 (calculateCrc32 body)) by reflexivity.
  assert (Hcrc : is_u32 (calculateCrc32 body)).
  { apply calculateCrc32_u32. unfold body. rewrite Forall_app.
    split; [apply header_bytes_is_byte|assumption]. }
  unfold decode.
  assert (Hlen : Z.of_nat (length frame) = 12 + N)
    by (unfold frame; rewrite wire_frame_length; lia).
  rewrite Hlen. unfold HEADER_SIZE, FOOTER_SIZE, APP_PACKET_MAX_DATA_SIZE.
  destruct (Z.ltb_spec (12 + N) (8 + 4)) as [?|_]; [lia|].
  destruct (read_header id ls N (payload ++ le_bytes 4 (calculateCrc32 body))
              Hid Hls HN) as (E1 & E2 & E3).
  assert (Hframe' : frame =
            header_bytes id ls N ++ payload ++ le_bytes 4 (calculateCrc32 body))
    by (rewrite Hframe; unfold body; now rewrite <- app_assoc).
  rewrite <- Hframe' in E1, E2, E3. rewrite E1, E2, E3.
  destruct (Z.ltb_spec (12 + N) (8 + N + 4)) as [?|_]; [lia|].
  destruct (Z.gtb_spec N 256) as [?|_]; [lia|].
  rewrite updateReceivedLifesign_data_length.
  cbn [m_data_length set_data_length set_data set_unique_id set_data_ptr set_crc32].
  assert (Hp3 : forall q : AppPacket,
    m_data_length (if N >? 0 then set_data_ptr (Some (drop (Z.to_nat 8) frame)) q
                   else set_data_ptr None q) = m_data_length q)
    by (intros q; destruct (N >? 0); reflexivity).
  rewrite !Hp3, updateReceivedLifesign_data_length.
  cbn [m_data_length set_data_length set_data set_unique_id set_data_ptr set_crc32 m_crc32].
  replace (Z.to_nat (8 + N)) with (length body) by lia.
  assert (Htake : take (length body) frame = body)
    by (rewrite Hframe; apply take_app_length).
  assert (Hread : read_bytes frame (length body) 4 = le_bytes 4 (calculateCrc32 body)).
  { rewrite Hframe.
    rewrite <- (app_nil_r (le_bytes 4 (calculateCrc32 body))) at 1.
    apply read_bytes_at. now rewrite le_bytes_length. }
  rewrite Htake, !Hread.
  rewrite le_value_le_bytes_u32 by assumption.
  rewrite Z.eqb_refl. cbn [negb].
  destruct (N >? 0); reflexivity.
Qed.

(** *** Rejected frames and the link-health state *)

Lemma link_health_set_error e p : link_health (set_error e p) = link_health p.
Proof. reflexivity. Qed.

(** A frame rejected by one of the early checks leaves the monitor alone. *)
Lemma decode_rejected_early now buffer p :
  rejected_early buffer ->
  (decode now buffer p).1 = false /\
  link_health (decode now buffer p).2 = link_health p /\
  ((decode now buffer p).2).(m_error) <> NoError.
Proof.
  unfold rejected_early, decode, HEADER_SIZE, FOOTER_SIZE, APP_PACKET_MAX_DATA_SIZE.
  destruct buffer as [buf|]; [|intros _; repeat split; discriminate].
  cbv zeta. intros H.
  destruct (Z.ltb_spec (Z.of_nat (length buf)) (8 + 4)); [repeat split; discriminate|].
  destruct (Z.ltb_spec (Z.of_nat (length buf)) (8 + le_value (read_bytes buf 6 2) + 4));
    [repeat split; discriminate|].
  destruct (Z.gtb_spec (le_value (read_bytes buf 6 2)) 256);
    [repeat split; discriminate|].
  lia.
Qed.

(** A frame that passes the early checks reaches [updateReceivedLifesign]
    before its checksum is compared: whatever the outcome of the comparison,
    the monitor has been driven with the lifesign of the frame. *)
Lemma decode_updates_before_crc now buf p :
  ~ rejected_early (Some buf) ->
  link_health (decode now (Some buf) p).2 =
  link_health (updateReceivedLifesign now (le_value (read_bytes buf 4 2)) p).
Proof.
  unfold rejected_early, decode, HEADER_SIZE, FOOTER_SIZE, APP_PACKET_MAX_DATA_SIZE.
  cbv zeta. intros H.
  destruct (Z.ltb_spec (Z.of_nat (length buf)) (8 + 4)); [lia|].
  destruct (Z.ltb_spec (Z.of_nat (length buf)) (8 + le_value (read_bytes buf 6 2) + 4));
    [lia|].
  destruct (Z.gtb_spec (le_value (read_bytes buf 6 2)) 256); [lia|].
  match goal with |- context [negb ?c] => destruct (negb c) end;
  match goal with |- context [if ?c then set_data_ptr _ _ else _] => destruct c end;
  reflexivity.
Qed.

(** Where the failing input comes from: the second frame of a fresh sender
    with identifier 0x12345678 and payload "Agent Team Test", which the
    decoder accepts, with one payload bit flipped. *)
Lemma corrupted_frame_origin :
  let tx := setUniqueId 0x12345678 (AppPacket_new 0 0) in
  let first := encode (Some (replicate 256 0)) (setDataPointer (Some tx_payload) tx) in
  let second := encode (Some (replicate 256 0)) (setDataPointer (Some tx_payload) first.2) in
  exists sent,
    second.1.2 = Some sent /\
    take 27 sent = wire_frame 0x12345678 1 tx_payload /\
    (decode 100000000 (Some (take 27 sent)) (AppPacket_new 0 0)).1 = true /\
    corrupted_frame = <[10%nat := Z.lxor (sent !!! 10%nat) 1]> (take 27 sent).
Proof.
  cbv zeta. eexists. split; [vm_compute; reflexivity|].
  repeat split; vm_compute; reflexivity.
Qed.

(** C1, at the failing input: a fresh receiver created at time 0 is handed,
    100 ms later, a 27-byte frame whose payload has one bit flipped.
    [decode] rejects it with [CrcMismatch], yet the monitor has recorded the
    frame: received lifesign 1, both instants moved to the arrival time, and
    a measured interval of 100 000 us. *)
Theorem decode_crc_mismatch_alters_link_health :
  let rx := AppPacket_new 0 0 in
  let dec := decode 100000000 (Some corrupted_frame) rx in
  dec.1 = false /\
  (dec.2).(m_error) = CrcMismatch /\
  link_health rx = mkLinkHealth 0 0 0 0 0 0 false /\
  link_health dec.2 = mkLinkHealth 1 0 100000000 100000000 100000 0 false /\
  link_health dec.2 <> link_health rx.
Proof.
  cbv zeta. repeat split; try (vm_compute; reflexivity).
  vm_compute. discriminate.
Qed.

(** *** Oversized payload views *)

(** What [encode] does with a packet whose payload view is empty. *)
Lemma encode_empty_view (p : AppPacket) (buffer : option (list Z)) :
  p.(m_data_ptr) = None -> p.(m_data_length) = 0 ->
  encode buffer p =
  match buffer with
  | None => (0, None, set_error InvalidDataPointer p)
  | Some buf =>
      if Z.of_nat (length buf) <? 12
      then (0, Some buf, set_error BufferTooSmall p)
      else
        (12, Some (wire_frame p.(m_unique_id) p.(m_lifesign) [] ++ drop 12 buf),
         set_lifesign (wrap 16 (p.(m_lifesign) + 1))
           (set_error NoError
              (set_crc32
                 (calculateCrc32 (header_bytes p.(m_unique_id) p.(m_lifesign) 0)) p)))
  end.
Proof.
  intros Hptr Hlen. unfold encode. rewrite Hptr, Hlen.
  destruct buffer as [buf|]; [|reflexivity].
  change (wrap 64 (HEADER_SIZE + 0 + FOOTER_SIZE)) with 12.
  destruct (Z.ltb_spec (Z.of_nat (length buf)) 12) as [Hlt|Hge]; [reflexivity|].
  change (wrap 16 0) with 0.
  set (hdr := header_bytes (m_unique_id p) (m_lifesign p) 0).
  assert (Hh : length hdr = 8%nat) by apply header_bytes_length.
  cbv zeta. change (HEADER_SIZE + FOOTER_SIZE) with 12.
  rewrite write_bytes_0, Hh.
  replace (Z.to_nat HEADER_SIZE) with (length hdr) by (rewrite Hh; reflexivity).
  rewrite take_app_length.
  rewrite <- (app_nil_l (drop 8 buf)) at 1.
  rewrite (write_bytes_after hdr), le_bytes_length, app_nil_l, drop_drop.
  unfold wire_frame. cbv zeta. change (Z.of_nat (length [])) with 0. fold hdr.
  rewrite !app_nil_r, <- app_assoc. reflexivity.
Qed.

(** C3, counterexample: a 257-byte view set on a fresh packet, then
    [encode] into a 256-byte buffer: 12 bytes are written and the error is
    cleared. *)
Lemma encode_after_oversized_view_succeeds :
  let enc := encode (Some (replicate 256 0))
               (setDataPointer (Some (replicate 257 0)) (AppPacket_new 0 0)) in
  enc.1.1 = 12 /\ (enc.2).(m_error) = NoError /\
  ~ encode_fails_with_DataTooLarge (AppPacket_new 0 0) (replicate 257 0)
      (Some (replicate 256 0)).
Proof.
  cbv zeta. split; [vm_compute; reflexivity|]. split; [vm_compute; reflexivity|].
  unfold encode_fails_with_DataTooLarge. intros [H _]. vm_compute in H. discriminate.
Qed.

(** C3, amended: for every payload view longer than 256 bytes,
    [setDataPointer] fails with [DataTooLarge] and clears the view; [encode]
    never reports [DataTooLarge] itself.  A following [encode] into a
    non-null buffer of at least 12 bytes returns 12, clears the error,
    advances the lifesign and emits the frame of the empty payload
    ([data_length = 0]); with a null or shorter buffer it returns 0 with
    [InvalidDataPointer] or [BufferTooSmall].  No frame carrying any payload
    is produced for the oversized view. *)
Theorem oversized_view_rejected_by_setDataPointer
  (p : AppPacket) (data : list Z) (buffer : option (list Z)) :
  (length data > 256)%nat ->
  let p1 := setDataPointer (Some data) p in
  p1.(m_error) = DataTooLarge /\
  p1.(m_data_ptr) = None /\
  p1.(m_data_length) = 0 /\
  payload_view p1 = [] /\
  let enc := encode buffer p1 in
  (enc.2).(m_error) <> DataTooLarge /\
  match buffer with
  | None => enc.1.1 = 0 /\ enc.1.2 = None /\ (enc.2).(m_error) = InvalidDataPointer
  | Some buf =>
      if Z.of_nat (length buf) <? 12
      then enc.1.1 = 0 /\ enc.1.2 = Some buf /\ (enc.2).(m_error) = BufferTooSmall
      else enc.1.1 = 12 /\
           enc.1.2 = Some (wire_frame p.(m_unique_id) p.(m_lifesign) [] ++ drop 12 buf) /\
           (enc.2).(m_error) = NoError /\
           (enc.2).(m_lifesign) = wrap 16 (p.(m_lifesign) + 1)
  end.
Proof.
  intros Hlen p1.
  assert (Hp1 : p1 = set_data None 0 (set_error DataTooLarge p)).
  { unfold p1, setDataPointer, APP_PACKET_MAX_DATA_SIZE.
    destruct (Z.gtb_spec (Z.of_nat (length data)) 256) as [_|?]; [reflexivity|lia]. }
  rewrite Hp1. repeat (split; [reflexivity|]). cbv zeta.
  rewrite encode_empty_view by reflexivity.
  destruct buffer as [buf|].
  - destruct (Z.of_nat (length buf) <? 12); cbn; repeat split; discriminate.
  - cbn. repeat split; discriminate.
Qed.

Lemma oversized_view_rejected_by_setDataPointer_witness :
  let p1 := setDataPointer (Some (replicate 257 0)) (AppPacket_new 0 0) in
  p1.(m_error) = DataTooLarge /\
  p1.(m_data_ptr) = None /\
  p1.(m_data_length) = 0 /\
  payload_view p1 = [] /\
  let enc := encode (Some (replicate 256 0)) p1 in
  (enc.2).(m_error) <> DataTooLarge /\
  enc.1.1 = 12 /\
  enc.1.2 = Some (wire_frame 0 0 [] ++ replicate 244 0) /\
  (enc.2).(m_error) = NoError /\
  (enc.2).(m_lifesign) = 1.
Proof.
  apply (oversized_view_rejected_by_setDataPointer (AppPacket_new 0 0)
           (replicate 257 0) (Some (replicate 256 0))).
  simpl. lia.
Defined.

End CodecFacts.

(** ** Theorems about the packet in shared memory *)

Module BorrowedFacts.
Import Crc Wire Packet CrcFacts WireFacts CodecFacts.

Lemma read_bytes_length (m : list Z) (a n : nat) :
  (a + n <= length m)%nat -> length (read_bytes m a n) = n.
Proof. intros H. unfold read_bytes. rewrite length_take, length_drop. lia. Qed.

Lemma read_bytes_is_byte (m : list Z) (a n : nat) :
  Forall is_byte m -> Forall is_byte (read_bytes m a n).
Proof. intros H. unfold read_bytes. now apply Forall_take, Forall_drop. Qed.

(** A write leaves the bytes before it and the bytes behind it alone. *)
Lemma read_bytes_write_other (m : list Z) (o : nat) (src : list Z) (a n : nat) :
  (o + length src <= length m)%nat ->
  (a + n <= o \/ o + length src <= a)%nat ->
  read_bytes (write_bytes m o src) a n = read_bytes m a n.
Proof.
  intros Hfit Hdis. unfold read_bytes, write_bytes.
  apply list_eq. intros i.
  destruct (Nat.lt_ge_cases i n) as [Hi|Hi].
  - rewrite !lookup_take_lt by lia. rewrite !lookup_drop.
    destruct Hdis as [Hb|Ha].
    + rewrite lookup_app_l by (rewrite length_take; lia).
      now rewrite lookup_take_lt by lia.
    + rewrite lookup_app_r by (rewrite length_take; lia).
      rewrite length_take.
      rewrite lookup_app_r by lia.
      rewrite lookup_drop. f_equal. lia.
  - now rewrite !lookup_take_ge by lia.
Qed.

(** What has been written is what is read back. *)
Lemma read_bytes_write_same (m : list Z) (o : nat) (src : list Z) :
  (o <= length m)%nat ->
  read_bytes (write_bytes m o src) o (length src) = src.
Proof.
  intros Ho. unfold read_bytes, write_bytes.
  rewrite drop_app_length' by (rewrite length_take; lia).
  apply take_app_length.
Qed.

(** Two writes, the second right behind the first, are one write. *)
Lemma write_bytes_next (m : list Z) (o : nat) (s1 s2 : list Z) :
  (o <= length m)%nat ->
  write_bytes (write_bytes m o s1) (o + length s1) s2 = write_bytes m o (s1 ++ s2).
Proof.
  intros Ho. unfold write_bytes.
  assert (Hl : length (take o m ++ s1) = (o + length s1)%nat)
    by (rewrite length_app, length_take; lia).
  rewrite (app_assoc (take o m) s1).
  rewrite take_app_length' by first [exact Hl|symmetry; exact Hl].
  rewrite drop_app_add' by first [exact Hl|symmetry; exact Hl].
  rewrite drop_drop, length_app, <- !app_assoc.
  now rewrite Nat.add_assoc.
Qed.

(** What [encode] leaves in the memory when the payload region does not
    reach into the eight bytes the header is written to: the frame of the
    bytes the region held, at the address of the buffer. *)
Lemma encode_writes_frame_in_memory
  (mem : list Z) (b size a n : nat) (p : AppPacket) :
  p.(m_data_length) = Z.of_nat n ->
  (n <= 256)%nat ->
  (12 + n <= size)%nat ->
  (b + size <= length mem)%nat ->
  (a + n <= length mem)%nat ->
  (n = 0 \/ a + n <= b \/ b + 8 <= a)%nat ->
  let payload := read_bytes mem a n in
  Borrowed.encode mem (Some b) (Z.of_nat size) (Some a) p =
    (12 + Z.of_nat n,
     write_bytes mem b (wire_frame p.(m_unique_id) p.(m_lifesign) payload),
     set_lifesign (wrap 16 (p.(m_lifesign) + 1))
       (set_error NoError
          (set_crc32
             (calculateCrc32
                (header_bytes p.(m_unique_id) p.(m_lifesign) (Z.of_nat n) ++ payload))
             p))).
Proof.
  intros Hlen H256 Hsize Hbuf Hview Hdis payload.
  assert (Hpl : length payload = n) by (apply read_bytes_length; lia).
  unfold Borrowed.encode. rewrite Hlen. unfold HEADER_SIZE, FOOTER_SIZE, wrap.
  set (N := Z.of_nat n).
  rewrite (Z.mod_small (8 + N + 4)) by (simpl; lia).
  rewrite (Z.mod_small N (2 ^ 16)) by (simpl; lia).
  destruct (Z.ltb_spec (Z.of_nat size) (8 + N + 4)) as [?|_]; [lia|].
  set (hdr := header_bytes (m_unique_id p) (m_lifesign p) N).
  assert (Hh : length hdr = 8%nat) by apply header_bytes_length.
  change (Z.to_nat 8) with 8%nat.
  assert (Hbody :
    (if N >? 0
     then (write_bytes (write_bytes mem b hdr) (b + 8)
             (read_bytes (write_bytes mem b hdr) a (Z.to_nat N)), 8 + N)
     else (write_bytes mem b hdr, 8))
    = (write_bytes mem b (hdr ++ payload), 8 + N)).
  { destruct (Z.gtb_spec N 0) as [Hpos|Hz].
    - replace (Z.to_nat N) with n by lia.
      rewrite read_bytes_write_other by (rewrite Hh; lia). fold payload.
      replace (b + 8)%nat with (b + length hdr)%nat by (rewrite Hh; reflexivity).
      rewrite write_bytes_next by lia. reflexivity.
    - assert (Hnil : payload = []) by (apply length_zero_iff_nil; lia).
      rewrite Hnil, app_nil_r. f_equal. lia. }
  rewrite Hbody.
  assert (Hbl : length (hdr ++ payload) = Z.to_nat (8 + N))
    by (rewrite length_app, Hh, Hpl; lia).
  rewrite <- Hbl, read_bytes_write_same by lia.
  rewrite write_bytes_next by lia.
  unfold wire_frame. cbv zeta. rewrite Hpl. fold N hdr.
  f_equal. f_equal. lia.
Qed.


(** For a payload region clear of the header bytes, the call on the shared
    memory and the call of [Packet.encode], which is handed the bytes of the
    buffer and of the region as two lists, agree: same return value, same
    bytes in the buffer, same packet. *)
Lemma encode_agrees_with_separate_view
  (mem : list Z) (b size a n : nat) (p : AppPacket) :
  p.(m_data_length) = Z.of_nat n ->
  (n <= 256)%nat ->
  (12 + n <= size)%nat ->
  (b + size <= length mem)%nat ->
  (a + n <= length mem)%nat ->
  (n = 0 \/ a + n <= b \/ b + 8 <= a)%nat ->
  let view := Some (read_bytes mem a n) in
  let shared := Borrowed.encode mem (Some b) (Z.of_nat size) (Some a) p in
  let separate := encode (Some (read_bytes mem b size)) (set_data_ptr view p) in
  separate.1.1 = shared.1.1 /\
  separate.1.2 = Some (read_bytes shared.1.2 b size) /\
  separate.2 = set_data_ptr view shared.2.
Proof.
  intros Hlen H256 Hsize Hbuf Hview Hdis view shared separate.
  set (payload := read_bytes mem a n).
  assert (Hpl : length payload = n) by (apply read_bytes_length; lia).
  assert (Hbl : length (read_bytes mem b size) = size) by (apply read_bytes_length; lia).
  pose proof (encode_writes_frame_in_memory mem b size a n p
                Hlen H256 Hsize Hbuf Hview Hdis) as Hs.
  cbv zeta in Hs. fold payload shared in Hs.
  pose proof (encode_writes_frame (set_data_ptr view p) payload (read_bytes mem b size)
                eq_refl) as Hl.
  rewrite Hpl, Hbl in Hl. specialize (Hl Hlen H256 Hsize).
  fold separate in Hl.
  change (m_unique_id (set_data_ptr view p)) with (m_unique_id p) in Hl.
  change (m_lifesign (set_data_ptr view p)) with (m_lifesign p) in Hl.
  set (frame := wire_frame (m_unique_id p) (m_lifesign p) payload) in *.
  assert (Hfl : length frame = (12 + n)%nat)
    by (unfold frame; rewrite wire_frame_length, Hpl; reflexivity).
  clearbody shared separate. subst shared separate. cbn [fst snd].
  split; [reflexivity|]. split; [|reflexivity].
  f_equal. unfold read_bytes, write_bytes.
  rewrite drop_app_length' by (rewrite length_take; lia).
  rewrite take_app_ge by lia.
  f_equal. rewrite skipn_firstn_comm, drop_drop, Hfl.
  reflexivity.
Qed.

(** A write leaves the bytes before its offset and the bytes behind its
    last byte where they were. *)
Lemma write_bytes_before (m : list Z) (o : nat) (src : list Z) :
  (o <= length m)%nat -> take o (write_bytes m o src) = take o m.
Proof.
  intros Ho. unfold write_bytes.
  rewrite take_app_length' by (rewrite length_take; lia). reflexivity.
Qed.

Lemma write_bytes_behind (m : list Z) (o : nat) (src : list Z) :
  (o <= length m)%nat ->
  drop (o + length src) (write_bytes m o src) = drop (o + length src) m.
Proof.
  intros Ho. unfold write_bytes.
  rewrite app_assoc.
  rewrite drop_app_length' by (rewrite length_app, length_take; lia).
  reflexivity.
Qed.

(** [setDataPointer] with a non-null pointer and a length within the
    limit keeps both. *)
Lemma setDataPointer_keeps_view (a : nat) (n : nat) (p : AppPacket) :
  (n <= 256)%nat ->
  Borrowed.setDataPointer (Some a) (Z.of_nat n) p =
    (Some a, set_data_length (Z.of_nat n) (set_error NoError p)).
Proof.
  intros Hn. unfold Borrowed.setDataPointer, APP_PACKET_MAX_DATA_SIZE.
  destruct (Z.gtb_spec (Z.of_nat n) 256) as [?|_]; [lia|reflexivity].
Qed.

(** C2 (round trip, amended): for every identifier, every sender lifesign
    and every payload of N <= 256 bytes held in a region of the memory that
    does not reach into the first eight bytes of the output buffer (the
    region is empty, or ends at or before the start of the buffer, or starts
    at or behind its eighth byte), [encode] into a buffer of at least 12 + N
    bytes writes exactly 12 + N bytes, advances the sender's lifesign and
    touches nothing outside these bytes; [decode] of those bytes succeeds on
    any receiver (a fresh one in particular) and yields the same identifier,
    the sender's lifesign at encode time, [data_length = N], the bytes the
    region held before the call, and a stored CRC equal to the CRC
    recomputed over the first 8 + N bytes. *)
Theorem roundtrip_of_view_clear_of_header
  (mem : list Z) (buffer size view n : nat) (tx rx : AppPacket) (id now : Z) :
  is_u32 id ->
  is_u16 tx.(m_lifesign) ->
  Forall is_byte mem ->
  (n <= 256)%nat ->
  (12 + n <= size)%nat ->
  (buffer + size <= length mem)%nat ->
  (view + n <= length mem)%nat ->
  (n = 0 \/ view + n <= buffer \/ buffer + 8 <= view)%nat ->
  let N := Z.of_nat n in
  let payload := read_bytes mem view n in
  let set := Borrowed.setDataPointer (Some view) N (setUniqueId id tx) in
  let enc := Borrowed.encode mem (Some buffer) (Z.of_nat size) set.1 set.2 in
  enc.1.1 = 12 + N /\
  (enc.2).(m_lifesign) = wrap 16 (tx.(m_lifesign) + 1) /\
  (enc.2).(m_error) = NoError /\
  length enc.1.2 = length mem /\
  take buffer enc.1.2 = take buffer mem /\
  drop (buffer + 12 + n) enc.1.2 = drop (buffer + 12 + n) mem /\
  let frame := read_bytes enc.1.2 buffer (Z.to_nat enc.1.1) in
  let dec := decode now (Some frame) rx in
  dec.1 = true /\
  (dec.2).(m_error) = NoError /\
  (dec.2).(m_unique_id) = id /\
  (dec.2).(m_rx_lifesign) = tx.(m_lifesign) /\
  (dec.2).(m_data_length) = N /\
  payload_view dec.2 = payload /\
  (dec.2).(m_crc32) = calculateCrc32 (take (Z.to_nat (8 + N)) frame) /\
  (dec.2).(m_crc32) = (enc.2).(m_crc32).
Proof.
  intros Hid Hls Hmem H256 Hsize Hbuf Hview Hdis N payload set enc.
  assert (Hpl : length payload = n) by (apply read_bytes_length; lia).
  assert (Hpb : Forall is_byte payload) by (now apply read_bytes_is_byte).
  assert (Hset : set = (Some view,
                        set_data_length N (set_error NoError (set_unique_id id tx))))
    by (apply setDataPointer_keeps_view; assumption).
  pose proof (encode_writes_frame_in_memory mem buffer size view n set.2) as Henc.
  cbv zeta in Henc. fold payload N in Henc.
  assert (Henc' : enc = Borrowed.encode mem (Some buffer) (Z.of_nat size) (Some view) set.2)
    by (unfold enc; rewrite Hset; reflexivity).
  rewrite Henc in Henc' by (try assumption; rewrite Hset; reflexivity).
  clear Henc. rewrite Hset in Henc'. cbn [fst snd] in Henc'.
  change (m_unique_id (set_data_length N (set_error NoError (set_unique_id id tx))))
    with id in Henc'.
  change (m_lifesign (set_data_length N (set_error NoError (set_unique_id id tx))))
    with (m_lifesign tx) in Henc'.
  set (frame := wire_frame id (m_lifesign tx) payload) in Henc'.
  assert (Hfl : length frame = (12 + n)%nat)
    by (unfold frame; rewrite wire_frame_length, Hpl; reflexivity).
  clearbody enc. subst enc. cbn [fst snd].
  split; [reflexivity|]. split; [reflexivity|]. split; [reflexivity|].
  split; [apply write_bytes_length; lia|].
  split; [apply write_bytes_before; lia|].
  split.
  { replace (buffer + 12 + n)%nat with (buffer + length frame)%nat by lia.
    apply write_bytes_behind. lia. }
  replace (Z.to_nat (12 + N)) with (length frame) by lia.
  rewrite read_bytes_write_same by lia.
  pose proof (decode_wire_frame now rx id (m_lifesign tx) payload
                Hid Hls Hpb ltac:(lia)) as Hdec.
  cbv zeta in Hdec. rewrite Hpl in Hdec. fold frame N in Hdec.
  cbv zeta. rewrite Hdec. cbn [fst snd].
  set (body := header_bytes id (m_lifesign tx) N ++ payload).
  assert (Hbody : take (Z.to_nat (8 + N)) frame = body).
  { unfold frame, wire_frame. cbv zeta. rewrite Hpl. fold N. fold body.
    replace (Z.to_nat (8 + N)) with (length body); [apply take_app_length|].
    unfold body. rewrite length_app, header_bytes_length. lia. }
  repeat split.
  - unfold payload_view.
    cbn [m_data_ptr m_data_length set_error set_crc32 set_data_ptr set_data
         updateReceivedLifesign set_data_length set_unique_id].
    destruct (Z.gtb_spec N 0) as [Hpos|Hz].
    + unfold frame, wire_frame. cbv zeta. rewrite Hpl. fold N.
      rewrite <- !app_assoc.
      replace 8%nat with (length (header_bytes id (m_lifesign tx) N))
        by apply header_bytes_length.
      rewrite drop_app_length.
      replace (Z.to_nat N) with (length payload) by lia.
      apply take_app_length.
    + symmetry. apply length_zero_iff_nil. lia.
  - rewrite Hbody. reflexivity.
Qed.

(** The first end-to-end scenario of the specification in one memory of
    512 bytes: the transmit buffer is its first 256 bytes, the payload
    "Agent Team Test" lies at address 300; identifier 0x12345678, fresh
    sender and receiver. *)
Lemma roundtrip_of_view_clear_of_header_witness :
  let payload := [65; 103; 101; 110; 116; 32; 84; 101; 97; 109; 32; 84; 101; 115; 116] in
  let mem := replicate 300 0 ++ payload ++ replicate 197 0 in
  let set := Borrowed.setDataPointer (Some 300%nat) 15
               (setUniqueId 0x12345678 (AppPacket_new 0 0)) in
  let enc := Borrowed.encode mem (Some 0%nat) 256 set.1 set.2 in
  enc.1.1 = 27 /\
  (enc.2).(m_lifesign) = 1 /\
  (enc.2).(m_error) = NoError /\
  length enc.1.2 = 512%nat /\
  take 0 enc.1.2 = [] /\
  drop 27 enc.1.2 = drop 27 mem /\
  let frame := read_bytes enc.1.2 0 (Z.to_nat enc.1.1) in
  let dec := decode 100000000 (Some frame) (AppPacket_new 0 0) in
  dec.1 = true /\
  (dec.2).(m_error) = NoError /\
  (dec.2).(m_unique_id) = 0x12345678 /\
  (dec.2).(m_rx_lifesign) = 0 /\
  (dec.2).(m_data_length) = 15 /\
  payload_view dec.2 = payload /\
  (dec.2).(m_crc32) = calculateCrc32 (take 23 frame) /\
  (dec.2).(m_crc32) = (enc.2).(m_crc32).
Proof.
  apply (roundtrip_of_view_clear_of_header
           (replicate 300 0
              ++ [65; 103; 101; 110; 116; 32; 84; 101; 97; 109; 32; 84; 101; 115; 116]
              ++ replicate 197 0)
           0 256 300 15 (AppPacket_new 0 0) (AppPacket_new 0 0) 0x12345678 100000000).
  - unfold is_u32. lia.
  - unfold is_u16. simpl. lia.
  - rewrite !Forall_app. repeat split.
    + apply Forall_replicate. unfold is_byte. lia.
    + repeat constructor; unfold is_byte; lia.
    + apply Forall_replicate. unfold is_byte. lia.
  - lia.
  - lia.
  - vm_compute. lia.
  - vm_compute. lia.
  - right. right. lia.
Defined.

(** The round trip without the condition on the payload region:
    [setDataPointer(buf, 4); encode(buf, 16)] on a 16-byte buffer that holds
    the payload 01 02 03 04 in its first four bytes, identifier 0x12345678.
    The header is written over the payload before the payload is copied, so
    the frame carries the identifier's bytes 78 56 34 12 as its payload; the
    call returns 16 and [decode] accepts the frame. *)
Lemma encode_reads_view_after_header_write :
  let mem := [1; 2; 3; 4; 0; 0; 0; 0; 0; 0; 0; 0; 0; 0; 0; 0] in
  let set := Borrowed.setDataPointer (Some 0%nat) 4
               (setUniqueId 0x12345678 (AppPacket_new 0 0)) in
  let enc := Borrowed.encode mem (Some 0%nat) 16 set.1 set.2 in
  let frame := read_bytes enc.1.2 0 (Z.to_nat enc.1.1) in
  let dec := decode 100000000 (Some frame) (AppPacket_new 0 0) in
  enc.1.1 = 16 /\
  (enc.2).(m_error) = NoError /\
  dec.1 = true /\
  (dec.2).(m_unique_id) = 0x12345678 /\
  (dec.2).(m_data_length) = 4 /\
  payload_view dec.2 = [0x78; 0x56; 0x34; 0x12] /\
  payload_view dec.2 <> read_bytes mem 0 4 /\
  ~ Borrowed.spec_roundtrip_payload mem 0 16 0 4 0x12345678
      (AppPacket_new 0 0) (AppPacket_new 0 0) 100000000.
Proof.
  vm_compute. repeat split; try reflexivity; intros H; discriminate H.
Qed.

End BorrowedFacts.

(** ** Theorems about the link-health monitor *)

Module MonitorFacts.
Import Packet.

Lemma AppPacket_new_well_typed t1 t2 : well_typed (AppPacket_new t1 t2).
Proof. constructor; cbv; (split; [discriminate|reflexivity]). Qed.

Lemma setExpectedInterval_well_typed ms us p :
  is_u32 ms -> is_u32 us -> well_typed p -> well_typed (setExpectedInterval ms us p).
Proof. intros Hms Hus [ ]. constructor; cbn; assumption. Qed.

Lemma error_eqb_eq a b : error_eqb a b = true <-> a = b.
Proof. destruct a, b; cbn; split; intros H; congruence. Qed.

(** The lower bound of the code is the [max(0, E - T)] of the
    specification, for the 32-bit value of [E]. *)
Lemma lower_bound_max p :
  lower_bound p = Z.max 0 (expected_us p - p.(m_tolerance_us)).
Proof.
  unfold lower_bound.
  destruct (Z.gtb_spec (expected_us p) (m_tolerance_us p)); lia.
Qed.

Lemma out_of_tolerance_false p x :
  out_of_tolerance p x = false <->
  Z.max 0 (expected_us p - p.(m_tolerance_us)) <= x <= upper_bound p.
Proof.
  unfold out_of_tolerance. rewrite orb_false_iff, lower_bound_max.
  rewrite Z.ltb_ge, Z.gtb_ltb, Z.ltb_ge. tauto.
Qed.

(** No member function stores [LossOfCommunication]: a packet that does not
    hold it never will, so no packet object ever does. *)
Lemma updateReceivedLifesign_no_loss now ls p :
  p.(m_error) <> LossOfCommunication ->
  (updateReceivedLifesign now ls p).(m_error) <> LossOfCommunication.
Proof.
  intros H. cbn.
  destruct (out_of_tolerance _ _), (negb _), (m_error p); cbn; congruence.
Qed.

Lemma encode_no_loss buffer p :
  ((encode buffer p).2).(m_error) <> LossOfCommunication.
Proof.
  unfold encode. destruct buffer as [buf|]; [|discriminate].
  destruct (_ <? _); [discriminate|].
  destruct (m_data_ptr p) as [mem|]; [destruct (_ >? _)|]; discriminate.
Qed.

Lemma decode_no_loss now buffer p :
  ((decode now buffer p).2).(m_error) <> LossOfCommunication.
Proof.
  unfold decode. destruct buffer as [buf|]; [|discriminate].
  cbv zeta.
  repeat match goal with
         | |- context [if ?c then (false, _) else _] => destruct c
         | |- context [if ?c then (true, _) else _] => destruct c
         end; discriminate.
Qed.

Lemma call_no_loss c p :
  p.(m_error) <> LossOfCommunication ->
  (call c p).(m_error) <> LossOfCommunication.
Proof.
  intros H. destruct c; cbn [call].
  - exact H.
  - unfold setDataPointer. destruct data as [bytes|]; [destruct (_ >? _)|]; discriminate.
  - apply encode_no_loss.
  - apply decode_no_loss.
  - now apply updateReceivedLifesign_no_loss.
  - exact H.
  - exact H.
  - cbn. destruct (m_error p); cbn; congruence.
Qed.

Lemma run_no_loss cs t1 t2 :
  (run cs (AppPacket_new t1 t2)).(m_error) <> LossOfCommunication.
Proof.
  unfold run.
  assert (H : (AppPacket_new t1 t2).(m_error) <> LossOfCommunication) by discriminate.
  revert H. generalize (AppPacket_new t1 t2).
  induction cs as [|c cs IH]; intros p H; [exact H|].
  cbn [fold_left]. apply IH, call_no_loss, H.
Qed.

(** C5, counterexample: with [setExpectedInterval(4294968, 5000)] the
    product [expected_interval_ms * 1000] exceeds 32 bits and is stored as
    704.  A frame arriving 704 us after the previous one is far below the
    band of the specification, yet the code classifies it in tolerance. *)
Lemma interval_band_wraps_at_32_bits :
  let p := setExpectedInterval 4294968 5000 (AppPacket_new 0 0) in
  let p' := updateReceivedLifesign 704000 1 p in
  well_typed p /\
  p'.(m_last_interval_us) = 704 /\
  ~ spec_in_tolerance p 704 /\
  p'.(m_comm_unstable) = false /\
  p'.(m_unstable_counter) = 0 /\
  p'.(m_error) = NoError.
Proof.
  cbv zeta. split.
  - apply setExpectedInterval_well_typed; [unfold is_u32; lia ..|].
    apply AppPacket_new_well_typed.
  - repeat split; try (vm_compute; reflexivity).
    unfold spec_in_tolerance. cbn. lia.
Qed.

(** C5, amended: the code computes the band in 32-bit unsigned arithmetic,
    [E = (expected_interval_ms * 1000) mod 2^32], lower bound
    [max(0, E - T)], upper bound [(E + T) mod 2^32]; whenever
    [expected_interval_ms * 1000 + tolerance_us < 2^32] this is the band of
    the specification.  An interval outside the band increments
    [unstable_streak], saturating at 65535, sets the unstable flag and turns
    an error [None] into [UnstableCommunication]; an interval inside resets
    the streak to 0, clears the flag and clears the error exactly when it
    reads [UnstableCommunication]. *)
Theorem interval_classification (now ls : Z) (p : AppPacket) :
  well_typed p ->
  p.(m_error) <> LossOfCommunication ->
  let p' := updateReceivedLifesign now ls p in
  let interval_us := p'.(m_last_interval_us) in
  let E := wrap 32 (p.(m_expected_interval_ms) * 1000) in
  let T := p.(m_tolerance_us) in
  let in_tolerance := Z.max 0 (E - T) <= interval_us <= wrap 32 (E + T) in
  interval_us = elapsed_us_u32 p.(m_last_recv_time) now /\
  p'.(m_last_recv_time) = now /\
  (p.(m_expected_interval_ms) * 1000 + T < 2 ^ 32 ->
     (in_tolerance <-> spec_in_tolerance p interval_us)) /\
  (in_tolerance ->
     p'.(m_unstable_counter) = 0 /\
     p'.(m_comm_unstable) = false /\
     p'.(m_error) =
       if error_eqb p.(m_error) UnstableCommunication then NoError else p.(m_error)) /\
  (~ in_tolerance ->
     p'.(m_unstable_counter) = Z.min 65535 (p.(m_unstable_counter) + 1) /\
     p'.(m_comm_unstable) = true /\
     p'.(m_error) =
       if error_eqb p.(m_error) NoError then UnstableCommunication else p.(m_error)).
Proof.
  intros Hwt Hloss p' interval_us E T in_tolerance.
  destruct Hwt as [_ _ _ _ _ _ _ Hms HT _ Hc].
  unfold is_u32 in Hms, HT. unfold is_u16 in Hc.
  assert (Hin : out_of_tolerance p interval_us = false <-> in_tolerance)
    by apply out_of_tolerance_false.
  split; [reflexivity|]. split; [reflexivity|]. split; [|split].
  - intros Hfit. unfold in_tolerance, spec_in_tolerance, E, T, wrap.
    cbv zeta.
    rewrite (Z.mod_small (m_expected_interval_ms p * 1000)) by (fold T in Hfit |- *; lia).
    rewrite (Z.mod_small (m_expected_interval_ms p * 1000 + m_tolerance_us p))
      by (fold T in Hfit |- *; lia).
    tauto.
  - intros Hi. apply Hin in Hi. unfold p'. cbn. fold interval_us in Hi |- *.
    change (elapsed_us_u32 (m_last_recv_time p) now) with interval_us.
    rewrite Hi. repeat split.
    destruct (negb (ls =? m_rx_lifesign p)), (m_error p); cbn; congruence.
  - intros Hi.
    assert (Ho : out_of_tolerance p interval_us = true)
      by (destruct (out_of_tolerance p interval_us); [reflexivity|exfalso; apply Hi, Hin; reflexivity]).
    unfold p'. cbn.
    change (elapsed_us_u32 (m_last_recv_time p) now) with interval_us.
    rewrite Ho. repeat split.
    + unfold UINT16_MAX. destruct (Z.ltb_spec (m_unstable_counter p) 65535); lia.
    + destruct (negb (ls =? m_rx_lifesign p)), (m_error p); cbn; congruence.
Qed.

(** The third end-to-end scenario: frames at 0, 100, 200 and 350 ms; the
    last interval, 150 000 us, is out of tolerance. *)
Lemma interval_classification_witness :
  let p := updateReceivedLifesign 200000000 2
             (updateReceivedLifesign 100000000 1
                (updateReceivedLifesign 0 0 (AppPacket_new 0 0))) in
  let p' := updateReceivedLifesign 350000000 3 p in
  p.(m_last_interval_us) = 100000 /\
  p.(m_comm_unstable) = false /\
  p'.(m_last_interval_us) = 150000 /\
  p'.(m_unstable_counter) = 1 /\
  p'.(m_comm_unstable) = true /\
  p'.(m_error) = UnstableCommunication.
Proof.
  intros p p'.
  assert (Hwt : well_typed p) by (constructor; cbv; (split; [discriminate|reflexivity])).
  assert (Hloss : p.(m_error) <> LossOfCommunication) by (cbv; discriminate).
  destruct (interval_classification 350000000 3 p Hwt Hloss)
    as (Hint & _ & _ & _ & Hout).
  fold p' in Hint, Hout.
  assert (Hi : p'.(m_last_interval_us) = 150000) by (rewrite Hint; reflexivity).
  rewrite Hi in Hout.
  destruct Hout as (Hc & Hu & He).
  { change (~ (95000 <= 150000 <= 105000)). lia. }
  split; [reflexivity|]. split; [reflexivity|]. split; [exact Hi|].
  split; [exact Hc|]. split; [exact Hu|exact He].
Defined.





End MonitorFacts.

(** ** Theorems about the SPSC ring *)

Module RingFacts.
Import Wire Ring WireFacts.

Section Template.

Variables MaxPacketSize Capacity : Z.
Hypothesis Capacity_range : 0 < Capacity < 2 ^ 64.

Local Abbreviation push := (push MaxPacketSize Capacity).
Local Abbreviation pop := (pop Capacity).
Local Abbreviation push_all := (push_all MaxPacketSize Capacity).
Local Abbreviation ring_ok := (ring_ok MaxPacketSize Capacity).
Local Abbreviation held := (size Capacity).

(** The successor of an index, as [push] and [pop] compute it. *)
Lemma next_index i :
  0 <= i < Capacity ->
  wrap 64 (i + 1) mod Capacity = if i + 1 =? Capacity then 0 else i + 1.
Proof.
  intros Hi. unfold wrap. rewrite (Z.mod_small (i + 1)) by lia.
  destruct (Z.eqb_spec (i + 1) Capacity) as [->|Hne].
  - apply Z_mod_same_full.
  - apply Z.mod_small. lia.
Qed.

Lemma next_index_plain i :
  0 <= i < Capacity -> wrap 64 (i + 1) mod Capacity = (i + 1) mod Capacity.
Proof. intros Hi. unfold wrap. now rewrite (Z.mod_small (i + 1)) by lia. Qed.

(** [size()], the number of packets held, for indices in range. *)
Lemma size_cases rb :
  ring_ok rb ->
  held rb =
  if rb.(m_writeIdx) <? rb.(m_readIdx)
  then rb.(m_writeIdx) - rb.(m_readIdx) + Capacity
  else rb.(m_writeIdx) - rb.(m_readIdx).
Proof.
  intros [_ _ Hw Hr]. unfold size, wrap.
  destruct (Z.geb_spec (m_writeIdx rb) (m_readIdx rb)),
           (Z.ltb_spec (m_writeIdx rb) (m_readIdx rb)); try lia.
  rewrite (Z.mod_small (Capacity - m_readIdx rb)) by lia.
  rewrite Z.mod_small by lia. lia.
Qed.

Lemma held_range rb : ring_ok rb -> 0 <= held rb < Capacity.
Proof.
  intros Hok. rewrite size_cases by assumption. destruct Hok as [_ _ Hw Hr].
  destruct (Z.ltb_spec (m_writeIdx rb) (m_readIdx rb)); lia.
Qed.

(** Full means: all slots but one are held. *)
Lemma full_iff_held rb :
  ring_ok rb ->
  (wrap 64 (rb.(m_writeIdx) + 1) mod Capacity = rb.(m_readIdx)
   <-> held rb = Capacity - 1).
Proof.
  intros Hok. rewrite size_cases by assumption. destruct Hok as [_ _ Hw Hr].
  rewrite next_index by assumption.
  destruct (Z.eqb_spec (m_writeIdx rb + 1) Capacity),
           (Z.ltb_spec (m_writeIdx rb) (m_readIdx rb)); lia.
Qed.

Lemma push_unfold data rb :
  push data rb =
  if Z.of_nat (length data) >? MaxPacketSize then (false, rb)
  else if wrap 64 (rb.(m_writeIdx) + 1) mod Capacity =? rb.(m_readIdx) then (false, rb)
  else
    (true,
     {| m_buffer :=
          <[Z.to_nat rb.(m_writeIdx) :=
              {| pkt_length := wrap 16 (Z.of_nat (length data));
                 pkt_data :=
                   write_bytes (rb.(m_buffer) !!! Z.to_nat rb.(m_writeIdx)).(pkt_data)
                     0 data |}]> rb.(m_buffer);
        m_writeIdx := wrap 64 (rb.(m_writeIdx) + 1) mod Capacity;
        m_readIdx := rb.(m_readIdx) |}).
Proof. reflexivity. Qed.

(** [push] returns false exactly when the packet is too long or the ring
    is full, and then leaves the ring as it was. *)
Lemma push_false_iff data rb :
  ring_ok rb ->
  ((push data rb).1 = false <->
   Z.of_nat (length data) > MaxPacketSize \/
   (rb.(m_writeIdx) + 1) mod Capacity = rb.(m_readIdx)).
Proof.
  intros Hok. rewrite push_unfold.
  rewrite <- (next_index_plain (m_writeIdx rb)) by apply Hok.
  destruct (Z.gtb_spec (Z.of_nat (length data)) MaxPacketSize) as [Hbig|Hfit].
  - cbn. split; [intros _; left; lia|reflexivity].
  - destruct (Z.eqb_spec (wrap 64 (m_writeIdx rb + 1) mod Capacity) (m_readIdx rb))
      as [Hfull|Hroom]; cbn.
    + split; [intros _; right; assumption|reflexivity].
    + split; [discriminate|intros [?|?]; [lia|contradiction]].
Qed.

Lemma push_false_unchanged data rb :
  (push data rb).1 = false -> (push data rb).2 = rb.
Proof.
  rewrite push_unfold.
  destruct (_ >? _); [reflexivity|]. destruct (_ =? _); [reflexivity|discriminate].
Qed.

(** A successful [push] keeps the ring well formed and holds one more. *)
Lemma push_true_ok data rb :
  ring_ok rb ->
  (push data rb).1 = true ->
  ring_ok (push data rb).2 /\ held (push data rb).2 = held rb + 1 /\
  ((push data rb).2).(m_readIdx) = rb.(m_readIdx).
Proof.
  intros Hok. pose proof (full_iff_held rb Hok) as Hfull.
  pose proof (held_range rb Hok) as Hheld.
  pose proof (size_cases rb Hok) as Hsize.
  destruct Hok as [Hs Hd Hw Hr].
  rewrite push_unfold.
  destruct (Z.gtb_spec (Z.of_nat (length data)) MaxPacketSize) as [Hbig|Hfit];
    [discriminate|].
  destruct (Z.eqb_spec (wrap 64 (m_writeIdx rb + 1) mod Capacity) (m_readIdx rb))
    as [E|Hroom]; [discriminate|]. intros _. cbn [fst snd].
  assert (Hnext := next_index (m_writeIdx rb) Hw).
  match goal with |- ring_ok ?r /\ _ => assert (Hok1 : ring_ok r) end.
  { constructor; cbn [m_buffer m_writeIdx m_readIdx].
    - now rewrite length_insert.
    - assert (Hlt : (Z.to_nat (m_writeIdx rb) < length (m_buffer rb))%nat) by lia.
      destruct (lookup_lt_is_Some_2 _ _ Hlt) as [slot Hslot].
      apply Forall_insert; [assumption|]. cbn [pkt_data].
      rewrite (list_lookup_total_correct _ _ _ Hslot).
      rewrite Forall_lookup in Hd. specialize (Hd _ _ Hslot). cbn beta in Hd.
      rewrite write_bytes_length by lia. assumption.
    - rewrite Hnext. destruct (Z.eqb_spec (m_writeIdx rb + 1) Capacity); lia.
    - assumption. }
  split; [exact Hok1|split; [|reflexivity]].
  rewrite (size_cases _ Hok1), Hsize. cbn [m_buffer m_writeIdx m_readIdx].
  rewrite Hnext in Hroom |- *.
  destruct (Z.eqb_spec (m_writeIdx rb + 1) Capacity),
           (Z.ltb_spec (m_writeIdx rb) (m_readIdx rb)),
           (Z.ltb_spec 0 (m_readIdx rb)),
           (Z.ltb_spec (m_writeIdx rb + 1) (m_readIdx rb)); lia.
Qed.

(** A producer alone: of the packets [ds], all of valid length, the first
    [Capacity - 1 - held] are accepted and all later ones refused. *)
Lemma push_all_results ds rb :
  ring_ok rb ->
  Forall (fun d => Z.of_nat (length d) <= MaxPacketSize) ds ->
  let room := Z.to_nat (Capacity - 1 - held rb) in
  (push_all ds rb).1 =
  replicate (Nat.min (length ds) room) true ++ replicate (length ds - room) false.
Proof.
  intros Hok Hds. revert rb Hok.
  induction Hds as [|d ds Hd _ IH]; intros rb Hok room; [reflexivity|].
  cbn [Ring.push_all].
  pose proof (held_range rb Hok) as Hheld.
  pose proof (full_iff_held rb Hok) as Hfull.
  pose proof (push_false_iff d rb Hok) as Hpf.
  rewrite <- (next_index_plain (m_writeIdx rb)) in Hpf by apply Hok.
  pose proof (push_false_unchanged d rb) as Hunch.
  pose proof (push_true_ok d rb Hok) as Htrue.
  destruct (push d rb) as [ok rb1] eqn:Ep. cbn [fst snd] in *.
  specialize (IH rb1).
  destruct (Ring.push_all MaxPacketSize Capacity ds rb1) as [oks rb2] eqn:Ea.
  cbn [fst snd] in *.
  destruct ok.
  - destruct (Htrue eq_refl) as (Hok1 & Hheld1 & _).
    assert (Hnf : held rb <> Capacity - 1).
    { intros E. apply Hfull in E.
      assert (true = false) by (apply Hpf; right; exact E). discriminate. }
    rewrite (IH Hok1). rewrite Hheld1. subst room.
    replace (Z.to_nat (Capacity - 1 - held rb))
      with (S (Z.to_nat (Capacity - 1 - (held rb + 1)))) by lia.
    reflexivity.
  - rewrite (Hunch eq_refl) in IH. rewrite (IH Hok).
    assert (Hf : held rb = Capacity - 1).
    { apply Hfull. destruct (proj1 Hpf eq_refl) as [Hbig|Hf]; [lia|exact Hf]. }
    subst room. rewrite Hf.
    replace (Z.to_nat (Capacity - 1 - (Capacity - 1))) with 0%nat by lia.
    rewrite !Nat.min_0_r, !Nat.sub_0_r. reflexivity.
Qed.

End Template.

(** A ring as the program instantiates it, with every slot zeroed. *)
Lemma zeroed_ring_ok :
  ring_ok 2048 1024
    (LockFreeRingBuffer_new (replicate 1024 (mkPacket 0 (replicate 2048 0)))).
Proof.
  constructor; cbn [m_buffer m_writeIdx m_readIdx LockFreeRingBuffer_new]; try lia.
  - now rewrite length_replicate.
  - apply Forall_replicate. cbn [pkt_data]. now rewrite length_replicate.
Qed.

(** C7 (fullness): on a well-formed ring, [push] returns false iff the
    packet is longer than [MaxPacketSize] or
    [(write_idx + 1) mod Capacity = read_idx]; for a packet of valid length,
    iff the ring is full; a refused [push] changes nothing.  With
    [Capacity = 1024] and no pop in between, 1024 pushes of valid-length
    packets into an empty ring succeed 1023 times and the 1024th fails. *)
Theorem push_false_iff_full (MaxPacketSize Capacity : Z) (rb : LockFreeRingBuffer) :
  0 < Capacity < 2 ^ 64 ->
  ring_ok MaxPacketSize Capacity rb ->
  (forall data,
     (push MaxPacketSize Capacity data rb).1 = false <->
     Z.of_nat (length data) > MaxPacketSize \/
     (rb.(m_writeIdx) + 1) mod Capacity = rb.(m_readIdx)) /\
  (forall data,
     Z.of_nat (length data) <= MaxPacketSize ->
     ((push MaxPacketSize Capacity data rb).1 = false <->
      (rb.(m_writeIdx) + 1) mod Capacity = rb.(m_readIdx))) /\
  (forall data,
     (push MaxPacketSize Capacity data rb).1 = false ->
     (push MaxPacketSize Capacity data rb).2 = rb) /\
  (Capacity = 1024 ->
   rb.(m_writeIdx) = rb.(m_readIdx) ->
   forall ds,
     Forall (fun d => Z.of_nat (length d) <= MaxPacketSize) ds ->
     length ds = 1024%nat ->
     (push_all MaxPacketSize Capacity ds rb).1 = replicate 1023 true ++ [false]).
Proof.
  intros HC Hok. split; [|split; [|split]].
  - intros data. now apply push_false_iff.
  - intros data Hfit. rewrite push_false_iff by assumption.
    split; [intros [?|?]; [lia|assumption]|now right].
  - intros data. apply push_false_unchanged.
  - intros -> Heq ds Hds Hlen.
    rewrite push_all_results by assumption. cbv zeta.
    rewrite (size_cases MaxPacketSize 1024 HC rb Hok).
    rewrite Heq, Z.ltb_irrefl, Z.sub_diag, Hlen.
    reflexivity.
Qed.

(** The fifth end-to-end scenario, on a zeroed ring: ring size 1024, slot
    size 2048, 1024 three-byte packets. *)
Lemma push_false_iff_full_witness :
  (push_all 2048 1024 (replicate 1024 [1; 2; 3])
     (LockFreeRingBuffer_new (replicate 1024 (mkPacket 0 (replicate 2048 0))))).1
  = replicate 1023 true ++ [false].
Proof.
  assert (HC : 0 < 1024 < 2 ^ 64) by lia.
  destruct (push_false_iff_full 2048 1024 _ HC zeroed_ring_ok) as (_ & _ & _ & H).
  apply H.
  - reflexivity.
  - reflexivity.
  - apply Forall_replicate. simpl. lia.
  - apply length_replicate.
Defined.

(** C10: on a non-empty ring, [pop] with an output region shorter than the
    length stored in the head slot returns false and leaves the ring as it
    was (read index and slots), but stores the head's length in
    [actualLength]; a later [pop] with a large enough region succeeds and
    delivers the bytes of that same head packet. *)
Theorem pop_short_region_keeps_head
  (Capacity : Z) (rb : LockFreeRingBuffer) (out : list Z) (actualLength : Z) :
  rb.(m_readIdx) <> rb.(m_writeIdx) ->
  let head := rb.(m_buffer) !!! Z.to_nat rb.(m_readIdx) in
  Z.of_nat (length out) < head.(pkt_length) ->
  let failed := pop Capacity out actualLength rb in
  failed = (false, out, head.(pkt_length), rb) /\
  forall out' : list Z,
    head.(pkt_length) <= Z.of_nat (length out') ->
    pop Capacity out' failed.1.2 failed.2 =
      (true,
       write_bytes out' 0 (take (Z.to_nat head.(pkt_length)) head.(pkt_data)),
       head.(pkt_length),
       {| m_buffer := rb.(m_buffer);
          m_writeIdx := rb.(m_writeIdx);
          m_readIdx := wrap 64 (rb.(m_readIdx) + 1) mod Capacity |}).
Proof.
  intros Hne head Hshort failed.
  assert (Hf : failed = (false, out, pkt_length head, rb)).
  { unfold failed, pop.
    destruct (Z.eqb_spec (m_readIdx rb) (m_writeIdx rb)) as [?|_]; [contradiction|].
    cbv zeta. fold head.
    destruct (Z.gtb_spec (pkt_length head) (Z.of_nat (length out))); [reflexivity|lia]. }
  split; [exact Hf|].
  intros out' Hfit. rewrite Hf. cbn [fst snd]. unfold pop.
  destruct (Z.eqb_spec (m_readIdx rb) (m_writeIdx rb)) as [?|_]; [contradiction|].
  cbv zeta. fold head.
  destruct (Z.gtb_spec (pkt_length head) (Z.of_nat (length out'))); [lia|reflexivity].
Qed.

(** A five-byte packet pushed on a zeroed ring, popped first into a
    three-byte region, then into an eight-byte one. *)
Lemma pop_short_region_keeps_head_witness :
  let rb := (push 2048 1024 [1; 2; 3; 4; 5]
               (LockFreeRingBuffer_new
                  (replicate 1024 (mkPacket 0 (replicate 2048 0))))).2 in
  let failed := pop 1024 [0; 0; 0] 0 rb in
  failed = (false, [0; 0; 0], 5, rb) /\
  (pop 1024 (replicate 8 0) failed.1.2 failed.2).1 = (true, [1; 2; 3; 4; 5; 0; 0; 0], 5).
Proof.
  intros rb failed.
  assert (Hne : rb.(m_readIdx) <> rb.(m_writeIdx)) by (vm_compute; discriminate).
  assert (Hshort : Z.of_nat (length [0; 0; 0])
                   < (rb.(m_buffer) !!! Z.to_nat rb.(m_readIdx)).(pkt_length))
    by (vm_compute; reflexivity).
  destruct (pop_short_region_keeps_head 1024 rb [0; 0; 0] 0 Hne Hshort) as [Hf Hlater].
  split; [exact Hf|].
  fold failed in Hlater. rewrite (Hlater (replicate 8 0)) by (vm_compute; discriminate).
  vm_compute. reflexivity.
Defined.

End RingFacts.

(** ** Theorems about the latency sampler *)

Module LatencyFacts.
Import Fp Latency.

Section Template.

Variable Capacity : Z.
Hypothesis Capacity_range : 0 < Capacity < 2 ^ 64.

Local Abbreviation recordSample := (recordSample Capacity).
Local Abbreviation record_all := (record_all Capacity).
Local Abbreviation snapshot := (snapshot Capacity).
Local Abbreviation fresh := (LatencyStats_new Capacity).
Local Abbreviation unrolled := Latency.unrolled.
Local Abbreviation recorded := (Latency.recorded Capacity).

Lemma recorded_fresh : recorded [] fresh.
Proof.
  constructor; cbn.
  - rewrite length_replicate. lia.
  - now rewrite Z.mod_0_l by lia.
  - reflexivity.
  - unfold Latency.unrolled. cbn. now rewrite !app_nil_r.
Qed.

Lemma recorded_step xs x s :
  Z.of_nat (length xs) + 1 < 2 ^ 64 ->
  recorded xs s -> recorded (xs ++ [x]) (recordSample x s).
Proof.
  intros Hfit [Hlen Hidx Hcnt Hring].
  assert (Hw : 0 <= m_writeIdx s < Capacity)
    by (rewrite Hidx; apply Z.mod_pos_bound; lia).
  set (w := Z.to_nat (m_writeIdx s)) in *.
  assert (Hwl : (w < length (m_samples s))%nat) by lia.
  assert (Hnext : wrap 64 (m_writeIdx s + 1) mod Capacity
                  = if m_writeIdx s + 1 =? Capacity then 0 else m_writeIdx s + 1).
  { unfold wrap. rewrite (Z.mod_small (m_writeIdx s + 1)) by lia.
    destruct (Z.eqb_spec (m_writeIdx s + 1) Capacity) as [->|Hne];
      [apply Z_mod_same_full|apply Z.mod_small; lia]. }
  constructor; cbn [Latency.recordSample m_samples m_writeIdx m_count].
  - now rewrite length_insert.
  - rewrite length_app, Nat2Z.inj_add. cbn [length].
    change (Z.of_nat 1) with 1.
    rewrite <- Z.add_mod_idemp_l, <- Hidx by lia.
    unfold wrap. now rewrite (Z.mod_small (m_writeIdx s + 1)) by lia.
  - rewrite Hcnt, length_app, Nat2Z.inj_add. cbn [length].
    unfold wrap. apply Z.mod_small. lia.
  - unfold Latency.unrolled in *.
    cbn [Latency.recordSample m_samples m_writeIdx]. fold w in Hring |- *.
    rewrite insert_take_drop by assumption.
    assert (Hnew : drop (Z.to_nat (wrap 64 (m_writeIdx s + 1) mod Capacity))
                     (take w (m_samples s) ++ x :: drop (S w) (m_samples s))
                   ++ take (Z.to_nat (wrap 64 (m_writeIdx s + 1) mod Capacity))
                        (take w (m_samples s) ++ x :: drop (S w) (m_samples s))
                   = drop (S w) (m_samples s) ++ take w (m_samples s) ++ [x]).
    { rewrite Hnext.
      destruct (Z.eqb_spec (m_writeIdx s + 1) Capacity) as [Hlast|Hmid].
      - change (Z.to_nat 0) with 0%nat. rewrite drop_0, take_0, app_nil_r.
        rewrite (drop_ge (m_samples s) (S w)) by lia. reflexivity.
      - replace (Z.to_nat (m_writeIdx s + 1)) with (S w) by lia.
        change (take w (m_samples s) ++ x :: drop (S w) (m_samples s))
          with (take w (m_samples s) ++ [x] ++ drop (S w) (m_samples s)).
        rewrite app_assoc.
        assert (Hl : S w = length (take w (m_samples s) ++ [x]))
          by (rewrite length_app, length_take; cbn; lia).
        rewrite (drop_app_length' _ _ _ Hl), (take_app_length' _ _ _ Hl).
        reflexivity. }
    rewrite Hnew.
    assert (Hold : drop 1 (drop w (m_samples s) ++ take w (m_samples s))
                   = drop (S w) (m_samples s) ++ take w (m_samples s)).
    { rewrite drop_app_le by (rewrite length_drop; lia).
      now rewrite drop_drop, Nat.add_1_r. }
    rewrite app_assoc, <- Hold, Hring.
    rewrite length_app. cbn [length]. rewrite Nat.add_1_r.
    rewrite drop_drop, app_assoc.
    rewrite (drop_app_le (_ ++ xs)); [now rewrite Nat.add_1_r|].
    rewrite length_app, length_replicate. lia.
Qed.

Lemma record_all_snoc xs x s :
  record_all (xs ++ [x]) s = recordSample x (record_all xs s).
Proof. unfold Latency.record_all. now rewrite fold_left_app. Qed.

Lemma record_all_recorded xs :
  Z.of_nat (length xs) < 2 ^ 64 -> recorded xs (record_all xs fresh).
Proof.
  induction xs as [|x xs IH] using rev_ind; intros Hfit.
  - apply recorded_fresh.
  - rewrite record_all_snoc. rewrite length_app in Hfit. cbn [length] in Hfit.
    apply recorded_step; [lia|]. apply IH. lia.
Qed.

(** The snapshot of a recorded state. *)
Lemma snapshot_recorded xs s :
  recorded xs s ->
  snapshot s = drop (length xs - Z.to_nat Capacity) xs.
Proof.
  intros [Hlen Hidx Hcnt Hring]. unfold Latency.snapshot, numSamples.
  rewrite Hcnt. unfold Latency.unrolled in Hring.
  destruct (Z.leb_spec (Z.of_nat (length xs)) Capacity) as [Hle|Hgt].
  - replace (length xs - Z.to_nat Capacity)%nat with 0%nat by lia. cbn [drop].
    destruct (Z.ltb_spec (Z.of_nat (length xs)) Capacity) as [Hlt|Hge].
    + rewrite Z.mod_small in Hidx by lia. rewrite Hidx in Hring.
      rewrite Nat2Z.id in *.
      rewrite drop_app_le in Hring by (rewrite length_replicate; lia).
      apply app_inj_2 in Hring; [apply Hring|].
      rewrite length_take. lia.
    + assert (E : Z.of_nat (length xs) = Capacity) by lia.
      rewrite E, Z_mod_same_full in Hidx. rewrite Hidx in Hring.
      change (Z.to_nat 0) with 0%nat in Hring.
      rewrite drop_0, take_0, app_nil_r in Hring.
      rewrite take_ge by lia. rewrite Hring.
      rewrite drop_app_length'; [reflexivity|]. rewrite length_replicate. lia.
  - rewrite Hring.
    rewrite drop_app_ge by (rewrite length_replicate; lia).
    now rewrite length_replicate.
Qed.

(** Filling the ring exactly once leaves the samples in place, in order. *)
Lemma record_all_fill xs :
  Z.of_nat (length xs) = Capacity ->
  record_all xs fresh = mkStats xs 0 Capacity.
Proof.
  intros Hlen.
  destruct (record_all_recorded xs ltac:(lia)) as [Hl Hidx Hcnt Hring].
  rewrite Hlen, Z_mod_same_full in Hidx. rewrite Hlen in Hcnt.
  unfold Latency.unrolled in Hring. rewrite Hidx in Hring.
  change (Z.to_nat 0) with 0%nat in Hring.
  rewrite drop_0, take_0, app_nil_r in Hring.
  rewrite drop_app_length' in Hring by (rewrite length_replicate; lia).
  destruct (record_all xs fresh) as [samples w c]. cbn in *. congruence.
Qed.

End Template.

(** C9 (wrap correctness): after recording the samples [xs] one after the
    other into a fresh sampler, the snapshot of [computeStats] is, in
    insertion order, [xs] itself when at most [Capacity] samples were
    recorded (they sit at positions [0, total)), and otherwise the last
    [Capacity] samples: the segment [write_idx..Capacity) followed by
    [0..write_idx). *)
Theorem snapshot_holds_last_samples (Capacity : Z) (xs : list Z) :
  0 < Capacity < 2 ^ 64 ->
  Z.of_nat (length xs) < 2 ^ 64 ->
  let total := Z.of_nat (length xs) in
  let s := record_all Capacity xs (LatencyStats_new Capacity) in
  s.(m_count) = total /\
  s.(m_writeIdx) = total mod Capacity /\
  Z.of_nat (length (snapshot Capacity s)) = Z.min total Capacity /\
  (total <= Capacity ->
     snapshot Capacity s = xs /\ take (length xs) s.(m_samples) = xs) /\
  (Capacity <= total ->
     snapshot Capacity s = drop (length xs - Z.to_nat Capacity) xs) /\
  (Capacity <= total ->
     snapshot Capacity s =
       drop (Z.to_nat s.(m_writeIdx)) s.(m_samples)
       ++ take (Z.to_nat s.(m_writeIdx)) s.(m_samples)).
Proof.
  intros HC Hfit total s.
  pose proof (record_all_recorded Capacity HC xs Hfit) as Hrec. fold s in Hrec.
  pose proof (snapshot_recorded Capacity HC xs s Hrec) as Hsnap.
  destruct Hrec as [Hlen Hidx Hcnt Hring].
  split; [exact Hcnt|]. split; [exact Hidx|]. split; [|split; [|split]].
  - rewrite Hsnap, length_drop. lia.
  - intros Hle.
    assert (E : snapshot Capacity s = xs).
    { rewrite Hsnap. replace (length xs - Z.to_nat Capacity)%nat with 0%nat by lia.
      reflexivity. }
    split; [exact E|]. rewrite <- E at 2.
    unfold snapshot, numSamples. rewrite Hcnt. fold total.
    destruct (Z.leb_spec total Capacity) as [_|?]; [|lia].
    destruct (Z.ltb_spec total Capacity) as [Hlt|Hge].
    + unfold total. now rewrite Nat2Z.id.
    + assert (Ht : total = Capacity) by lia. unfold total in Ht.
      rewrite !take_ge by lia. reflexivity.
  - intros _. exact Hsnap.
  - intros Hge. rewrite Hsnap. unfold unrolled in Hring. rewrite Hring.
    rewrite drop_app_ge by (rewrite length_replicate; lia).
    now rewrite length_replicate.
Qed.

(** A ring of four slots after six samples. *)
Lemma snapshot_holds_last_samples_witness :
  let s := record_all 4 [1; 2; 3; 4; 5; 6] (LatencyStats_new 4) in
  s.(m_samples) = [5; 6; 3; 4] /\
  s.(m_writeIdx) = 2 /\
  s.(m_count) = 6 /\
  snapshot 4 s = [3; 4; 5; 6].
Proof.
  intros s.
  assert (HC : 0 < 4 < 2 ^ 64) by lia.
  assert (Hfit : Z.of_nat (length [1; 2; 3; 4; 5; 6]) < 2 ^ 64) by (simpl; lia).
  destruct (snapshot_holds_last_samples 4 [1; 2; 3; 4; 5; 6] HC Hfit)
    as (Hcnt & Hidx & _ & _ & Hlast & _).
  fold s in Hcnt, Hidx, Hlast.
  split; [reflexivity|]. split; [exact Hidx|]. split; [exact Hcnt|].
  apply Hlast. simpl. lia.
Defined.

(** C8, at the failing input: a sampler of capacity 100 000 fed the samples
    1 us, 2 us, ..., 100 000 us.  The snapshot statistics are count 100 000,
    min 1, max 100 000, mean 50 000.5, p50 50 000, p95 95 000, p99 99 000
    and p99.99 99 990 us; but the p99.9 reported is 99 901 us: the rank
    [(99.9 / 100.0) * 100000.0] is 99900.00000000001 in binary64 and its
    ceiling 99 901, where the nearest-rank index of the specification is
    99 900 and selects 99 900 us. *)
Theorem percentile_999_reports_next_rank :
  let s := record_all 100000 known_distribution (LatencyStats_new 100000) in
  let r := computeStats 100000 s in
  (r.(count) = 100000 /\
   r.(min_us) = 1%float /\
   r.(max_us) = 100000%float /\
   r.(mean_us) = 50000.5%float /\
   r.(p50_us) = 50000%float /\
   r.(p95_us) = 95000%float /\
   r.(p99_us) = 99000%float /\
   r.(p9999_us) = 99990%float) /\
  r.(p999_us) = 99901%float /\
  ceil_to_size ((P999 / 100) * u64_to_double 100000)%float = 99901 /\
  spec_nearest_rank_index 999 10 100000 = 99900 /\
  ns_to_us (ZSort.sort known_distribution !!! Z.to_nat (99900 - 1)) = 99900%float.
Proof.
  intros s r.
  assert (Hs : s = mkStats known_distribution 0 100000).
  { apply record_all_fill; [lia|]. vm_compute. reflexivity. }
  assert (Hr : (r.(count), r.(min_us), r.(max_us), r.(mean_us), r.(p50_us),
                r.(p95_us), r.(p99_us), r.(p9999_us), r.(p999_us))
               = (100000, 1%float, 100000%float, 50000.5%float, 50000%float,
                  95000%float, 99000%float, 99990%float, 99901%float)).
  { unfold r. rewrite Hs. vm_compute. reflexivity. }
  apply pair_equal_spec in Hr. destruct Hr as [Hr H999].
  apply pair_equal_spec in Hr. destruct Hr as [Hr H9999].
  apply pair_equal_spec in Hr. destruct Hr as [Hr H99].
  apply pair_equal_spec in Hr. destruct Hr as [Hr H95].
  apply pair_equal_spec in Hr. destruct Hr as [Hr H50].
  apply pair_equal_spec in Hr. destruct Hr as [Hr Hmean].
  apply pair_equal_spec in Hr. destruct Hr as [Hr Hmax].
  apply pair_equal_spec in Hr. destruct Hr as [Hcount Hmin].
  split.
  { split; [exact Hcount|]. split; [exact Hmin|]. split; [exact Hmax|].
    split; [exact Hmean|]. split; [exact H50|]. split; [exact H95|].
    split; [exact H99|exact H9999]. }
  split; [exact H999|].
  split; [vm_compute; reflexivity|].
  split; [vm_compute; reflexivity|].
  vm_compute. reflexivity.
Qed.

End LatencyFacts.

(** ** The checksum as a linear map *)

Module CrcAlgebra.
Import Crc CrcFacts.

Lemma lxor_range n a b :
  0 <= n -> 0 <= a < 2 ^ n -> 0 <= b < 2 ^ n -> 0 <= Z.lxor a b < 2 ^ n.
Proof.
  intros Hn [Ha Ha'] [Hb Hb']. split.
  - apply Z.lxor_nonneg. tauto.
  - destruct (Z.eq_dec (Z.lxor a b) 0) as [->|Hne]; [apply Z.pow_pos_nonneg; lia|].
    assert (0 < Z.lxor a b) by (pose proof (proj2 (Z.lxor_nonneg a b)); lia).
    apply Z.log2_lt_pow2; [assumption|].
    pose proof (Z.log2_lxor a b Ha Hb) as Hl.
    assert (a = 0 \/ Z.log2 a < n)
      by (destruct (Z.eq_dec a 0); [now left|right; apply Z.log2_lt_pow2; lia]).
    assert (b = 0 \/ Z.log2 b < n)
      by (destruct (Z.eq_dec b 0); [now left|right; apply Z.log2_lt_pow2; lia]).
    assert (Z.log2 0 = 0) by reflexivity.
    destruct (Z.eq_dec n 0) as [->|Hn0].
    + change (2 ^ 0) with 1 in *. assert (a = 0) by lia. assert (b = 0) by lia.
      subst. simpl in Hne. contradiction.
    + intuition (subst; try rewrite ?Z.lxor_0_l, ?Z.lxor_0_r in *; lia).
Qed.

Lemma lxor_cancel_l a b c : Z.lxor a b = Z.lxor a c -> b = c.
Proof.
  intros H. apply (f_equal (Z.lxor a)) in H.
  now rewrite <- !Z.lxor_assoc, Z.lxor_nilpotent, !Z.lxor_0_l in H.
Qed.

Lemma lxor_changes a d : d <> 0 -> Z.lxor a d <> a.
Proof.
  intros Hd H. apply Hd. apply (lxor_cancel_l a). now rewrite Z.lxor_0_r.
Qed.

(** One shift step is linear over XOR. *)
Lemma crc_bit_lxor a b :
  crc_bit (Z.lxor a b) = Z.lxor (crc_bit a) (crc_bit b).
Proof.
  unfold crc_bit.
  replace (Z.land (Z.lxor a b) 1) with (Z.lxor a b mod 2)
    by (symmetry; apply (Z.land_ones _ 1); lia).
  replace (Z.land a 1) with (a mod 2) by (symmetry; apply (Z.land_ones _ 1); lia).
  replace (Z.land b 1) with (b mod 2) by (symmetry; apply (Z.land_ones _ 1); lia).
  rewrite Z.shiftr_lxor, <- !Z.bit0_mod, Z.lxor_spec.
  destruct (Z.testbit a 0), (Z.testbit b 0); cbn [xorb Z.b2z Z.eqb negb].
  - rewrite Z.lxor_assoc, (Z.lxor_comm CRC32_POLYNOMIAL), <- !Z.lxor_assoc.
    rewrite (Z.lxor_assoc _ CRC32_POLYNOMIAL), Z.lxor_nilpotent, Z.lxor_0_r.
    reflexivity.
  - rewrite !Z.lxor_assoc. f_equal. apply Z.lxor_comm.
  - now rewrite Z.lxor_assoc.
  - reflexivity.
Qed.

Lemma crc_bits_lxor n a b :
  crc_bits n (Z.lxor a b) = Z.lxor (crc_bits n a) (crc_bits n b).
Proof.
  revert a b. induction n as [|n IH]; intros a b; [reflexivity|].
  cbn [crc_bits]. now rewrite crc_bit_lxor, IH.
Qed.

Lemma crc_bits_add n m c : crc_bits (n + m) c = crc_bits m (crc_bits n c).
Proof. revert c. induction n as [|n IH]; intros c; [reflexivity|]. cbn. apply IH. Qed.

(** A difference in the register survives a byte, and so does a difference
    in the byte. *)
Lemma crc_byte_lxor_reg s d b :
  crc_byte (Z.lxor s d) b = Z.lxor (crc_byte s b) (crc_bits 8 d).
Proof.
  unfold crc_byte. rewrite <- crc_bits_lxor. f_equal.
  rewrite !Z.lxor_assoc. f_equal. apply Z.lxor_comm.
Qed.

Lemma crc_byte_lxor_data s b e :
  crc_byte s (Z.lxor b e) = Z.lxor (crc_byte s b) (crc_bits 8 e).
Proof.
  unfold crc_byte. rewrite <- crc_bits_lxor. f_equal. now rewrite Z.lxor_assoc.
Qed.

Lemma fold_crc_byte_lxor data s d :
  fold_left crc_byte data (Z.lxor s d) =
  Z.lxor (fold_left crc_byte data s) (crc_bits (8 * length data) d).
Proof.
  revert s d. induction data as [|b data IH]; intros s d.
  - cbn. reflexivity.
  - cbn [fold_left length]. rewrite crc_byte_lxor_reg, IH.
    f_equal. replace (8 * S (length data))%nat with (8 + 8 * length data)%nat by lia.
    now rewrite crc_bits_add.
Qed.

(** A shift step maps no non-zero register to zero: the polynomial has its
    top bit set. *)
Lemma crc_bit_nonzero c : is_u32 c -> c <> 0 -> crc_bit c <> 0.
Proof.
  intros [Hc Hc'] Hne. unfold crc_bit.
  assert (Hs : 0 <= Z.shiftr c 1 < 2 ^ 31).
  { rewrite Z.shiftr_div_pow2 by lia. change (2 ^ 1) with 2. split.
    - apply Z.div_pos; lia.
    - apply Z.div_lt_upper_bound; lia. }
  replace (Z.land c 1) with (c mod 2) by (symmetry; apply (Z.land_ones _ 1); lia).
  destruct (Z.eqb_spec (c mod 2) 0) as [E|E]; cbn [negb].
  - intros H0. rewrite Z.shiftr_div_pow2 in H0 by lia. change (2 ^ 1) with 2 in H0.
    pose proof (Z.div_mod c 2 ltac:(lia)). lia.
  - intros H0. apply Z.lxor_eq in H0. unfold CRC32_POLYNOMIAL in H0. lia.
Qed.

Lemma crc_bits_nonzero n c : is_u32 c -> c <> 0 -> crc_bits n c <> 0.
Proof.
  revert c. induction n as [|n IH]; intros c Hc Hne; [exact Hne|].
  cbn [crc_bits]. apply IH; [now apply crc_bit_u32|now apply crc_bit_nonzero].
Qed.

(** Changing one byte of the message by a non-zero 32-bit pattern changes
    the checksum. *)
Lemma calculateCrc32_byte_change pre b e post :
  is_u32 e -> e <> 0 ->
  calculateCrc32 (pre ++ Z.lxor b e :: post) <> calculateCrc32 (pre ++ b :: post).
Proof.
  intros He Hne. unfold calculateCrc32.
  rewrite !fold_left_app. cbn [fold_left].
  rewrite crc_byte_lxor_data, fold_crc_byte_lxor.
  intros H. apply (f_equal (fun x => Z.lxor x 0xFFFFFFFF)) in H.
  rewrite !Z.lxor_assoc, Z.lxor_nilpotent, !Z.lxor_0_r in H.
  revert H. apply lxor_changes.
  rewrite <- crc_bits_add. now apply crc_bits_nonzero.
Qed.

End CrcAlgebra.

(** ** More theorems about the packet codec *)

Module CodecMore.
Import Crc Wire Packet Corruption CrcFacts WireFacts CodecFacts CrcAlgebra.

Lemma lxor_byte a b : is_byte a -> is_byte b -> is_byte (Z.lxor a b).
Proof. unfold is_byte. intros. apply (lxor_range 8); lia. Qed.

Lemma bit_is_byte k : 0 <= k < 8 -> is_byte (Z.shiftl 1 k) /\ Z.shiftl 1 k <> 0.
Proof.
  intros Hk. rewrite Z.shiftl_1_l. unfold is_byte.
  assert (0 < 2 ^ k) by (apply Z.pow_pos_nonneg; lia).
  assert (2 ^ k < 2 ^ 8) by (apply Z.pow_lt_mono_r; lia).
  change (2 ^ 8) with 256 in *. lia.
Qed.

(** Writing the bytes of a value read from bytes gives the bytes back. *)
Lemma le_bytes_le_value bs :
  Forall is_byte bs -> le_bytes (length bs) (le_value bs) = bs.
Proof.
  induction 1 as [|b bs Hb Hbs IH]; [reflexivity|].
  cbn [length le_bytes le_value].
  pose proof (le_value_nonneg bs Hbs) as Hv.
  rewrite lor_shiftl_8 by assumption.
  unfold is_byte in Hb.
  change 0xFF with (Z.ones 8). rewrite Z.land_ones by lia.
  rewrite Z.shiftr_div_pow2 by lia. change (2 ^ 8) with 256.
  replace (b + 256 * le_value bs) with (b + le_value bs * 256) by lia.
  rewrite Z_mod_plus_full, Z.div_add by lia.
  rewrite (Z.mod_small b 256), (Z.div_small b 256) by lia.
  rewrite Z.add_0_l.
  now rewrite IH.
Qed.

Lemma le_value_inj a b :
  Forall is_byte a -> Forall is_byte b -> length a = length b ->
  le_value a = le_value b -> a = b.
Proof.
  intros Ha Hb Hl Hv.
  rewrite <- (le_bytes_le_value a Ha), <- (le_bytes_le_value b Hb).
  now rewrite Hl, Hv.
Qed.

Lemma read_bytes_app_l buf rest off n :
  (off + n <= length buf)%nat ->
  read_bytes (buf ++ rest) off n = read_bytes buf off n.
Proof.
  intros H. unfold read_bytes.
  rewrite drop_app_le by lia. apply take_app_le. rewrite length_drop. lia.
Qed.

Lemma le_bytes_read (buf : list Z) (off n : nat) :
  Forall is_byte buf -> (off + n <= length buf)%nat ->
  le_bytes n (le_value (read_bytes buf off n)) = read_bytes buf off n.
Proof.
  intros Hb Hl.
  assert (L : length (read_bytes buf off n) = n)
    by (unfold read_bytes; rewrite length_take, length_drop; lia).
  rewrite <- L at 1. apply le_bytes_le_value.
  unfold read_bytes. now apply Forall_take, Forall_drop.
Qed.

(** What [decode] does with a buffer that is long enough for the length
    its header declares: everything but the verdict on the checksum. *)
Lemma decode_envelope now rx hdr payload footer rest :
  length hdr = 8%nat -> length footer = 4%nat ->
  le_value (read_bytes hdr 6 2) = Z.of_nat (length payload) ->
  (length payload <= 256)%nat ->
  let N := Z.of_nat (length payload) in
  let p :=
    set_crc32 (le_value footer)
      (set_data_ptr (if N >? 0 then Some (payload ++ footer ++ rest) else None)
         (updateReceivedLifesign now (le_value (read_bytes hdr 4 2))
            (set_data_length N (set_unique_id (le_value (read_bytes hdr 0 4)) rx)))) in
  decode now (Some (hdr ++ payload ++ footer ++ rest)) rx =
  if negb (calculateCrc32 (hdr ++ payload) =? le_value footer)
  then (false, set_error CrcMismatch p)
  else (true, set_error NoError p).
Proof.
  intros Hh Hf Hdl H256 N p. unfold decode.
  set (buf := hdr ++ payload ++ footer ++ rest).
  assert (Hlen : Z.of_nat (length buf) = 12 + N + Z.of_nat (length rest)).
  { unfold buf. rewrite !length_app, Hh, Hf. lia. }
  rewrite Hlen. unfold HEADER_SIZE, FOOTER_SIZE, APP_PACKET_MAX_DATA_SIZE.
  destruct (Z.ltb_spec (12 + N + Z.of_nat (length rest)) (8 + 4)) as [?|_]; [lia|].
  assert (R0 : read_bytes buf 0 4 = read_bytes hdr 0 4)
    by (apply read_bytes_app_l; lia).
  assert (R4 : read_bytes buf 4 2 = read_bytes hdr 4 2)
    by (apply read_bytes_app_l; lia).
  assert (R6 : read_bytes buf 6 2 = read_bytes hdr 6 2)
    by (apply read_bytes_app_l; lia).
  rewrite R0, R4, R6, Hdl. fold N.
  destruct (Z.ltb_spec (12 + N + Z.of_nat (length rest)) (8 + N + 4)) as [?|_]; [lia|].
  destruct (Z.gtb_spec N 256) as [?|_]; [lia|].
  rewrite updateReceivedLifesign_data_length.
  cbn [m_data_length set_data_length set_data set_unique_id set_data_ptr set_crc32].
  assert (Hp3 : forall q : AppPacket,
    m_data_length (if N >? 0 then set_data_ptr (Some (drop (Z.to_nat 8) buf)) q
                   else set_data_ptr None q) = m_data_length q)
    by (intros q; destruct (N >? 0); reflexivity).
  rewrite !Hp3, updateReceivedLifesign_data_length.
  cbn [m_data_length set_data_length set_data set_unique_id set_data_ptr set_crc32 m_crc32].
  assert (Hbody : length (hdr ++ payload) = Z.to_nat (8 + N))
    by (rewrite length_app, Hh; lia).
  assert (Htake : take (Z.to_nat (8 + N)) buf = hdr ++ payload).
  { unfold buf. rewrite app_assoc. now apply take_app_length'. }
  assert (Hread : read_bytes buf (Z.to_nat (8 + N)) 4 = footer).
  { unfold buf. rewrite app_assoc, <- Hbody.
    apply read_bytes_at. now rewrite Hf. }
  assert (Hdrop : drop (Z.to_nat 8) buf = payload ++ footer ++ rest).
  { unfold buf. apply drop_app_length'. now rewrite Hh. }
  rewrite Htake, !Hread, Hdrop.
  unfold p. destruct (negb _), (N >? 0); reflexivity.
Qed.

Lemma wire_frame_is_byte id ls payload :
  Forall is_byte payload -> Forall is_byte (wire_frame id ls payload).
Proof.
  intros Hp. unfold wire_frame. cbv zeta. rewrite !Forall_app.
  auto using header_bytes_is_byte, le_bytes_is_byte.
Qed.

Lemma header_length_field (id ls : Z) (payload : list Z) :
  is_u32 id -> is_u16 ls -> (length payload <= 256)%nat ->
  let hdr := header_bytes id ls (Z.of_nat (length payload)) in
  le_value (read_bytes hdr 0 4) = id /\
  le_value (read_bytes hdr 4 2) = ls /\
  le_value (read_bytes hdr 6 2) = Z.of_nat (length payload).
Proof.
  intros Hid Hls H256 hdr.
  assert (HN : is_u16 (Z.of_nat (length payload))) by (unfold is_u16; simpl; lia).
  pose proof (read_header id ls _ [] Hid Hls HN) as H. cbv zeta in H.
  now rewrite app_nil_r in H.
Qed.

(** [decode] on a well-formed frame followed by further bytes. *)
Lemma decode_frame_with_rest
  (now : Z) (rx : AppPacket) (id ls : Z) (payload rest : list Z) :
  is_u32 id -> is_u16 ls -> Forall is_byte payload ->
  (length payload <= 256)%nat ->
  let N := Z.of_nat (length payload) in
  let crc := calculateCrc32 (header_bytes id ls N ++ payload) in
  decode now (Some (wire_frame id ls payload ++ rest)) rx =
  (true,
   set_error NoError
     (set_crc32 crc
        (set_data_ptr (if N >? 0 then Some (payload ++ le_bytes 4 crc ++ rest) else None)
           (updateReceivedLifesign now ls
              (set_data_length N (set_unique_id id rx)))))).
Proof.
  intros Hid Hls Hpl H256 N crc.
  set (hdr := header_bytes id ls N).
  assert (Hcrc : is_u32 crc).
  { apply calculateCrc32_u32. rewrite Forall_app.
    split; [apply header_bytes_is_byte|assumption]. }
  destruct (header_length_field id ls payload Hid Hls H256) as (E0 & E4 & E6).
  fold N hdr in E0, E4, E6.
  replace (wire_frame id ls payload ++ rest)
    with (hdr ++ payload ++ le_bytes 4 crc ++ rest)
    by (unfold wire_frame; cbv zeta; fold N hdr crc; now rewrite <- !app_assoc).
  rewrite decode_envelope;
    [|apply header_bytes_length|apply le_bytes_length|exact E6|exact H256].
  rewrite E0, E4. fold N hdr crc.
  rewrite le_value_le_bytes_u32 by assumption.
  now rewrite Z.eqb_refl.
Qed.

(** X1 (trailing bytes): [decode] looks only at the first 12 + N bytes of the
    buffer, N being the declared length: a well-formed frame followed by
    arbitrary further bytes is accepted exactly like the frame alone. *)
Theorem decode_ignores_trailing_bytes
  (now : Z) (rx : AppPacket) (id ls : Z) (payload rest : list Z) :
  is_u32 id -> is_u16 ls -> Forall is_byte payload ->
  (length payload <= 256)%nat ->
  let dec := decode now (Some (wire_frame id ls payload ++ rest)) rx in
  dec.1 = true /\
  (dec.2).(m_error) = NoError /\
  (dec.2).(m_unique_id) = id /\
  (dec.2).(m_rx_lifesign) = ls /\
  (dec.2).(m_data_length) = Z.of_nat (length payload) /\
  payload_view dec.2 = payload /\
  link_health dec.2 = link_health (decode now (Some (wire_frame id ls payload)) rx).2.
Proof.
  intros Hid Hls Hpl H256.
  set (N := Z.of_nat (length payload)).
  pose proof (decode_frame_with_rest now rx id ls payload rest Hid Hls Hpl H256) as Hshape.
  pose proof (decode_frame_with_rest now rx id ls payload [] Hid Hls Hpl H256) as Hshape0.
  cbv zeta in Hshape, Hshape0. fold N in Hshape, Hshape0.
  rewrite app_nil_r in Hshape0.
  cbv zeta. rewrite Hshape, Hshape0. cbn [fst snd]. repeat split.
  unfold payload_view.
  cbn [m_data_ptr m_data_length set_error set_crc32 set_data_ptr set_data
       updateReceivedLifesign set_data_length set_unique_id].
  destruct (Z.gtb_spec N 0) as [Hpos|Hz].
  - replace (Z.to_nat N) with (length payload) by lia. apply take_app_length.
  - destruct payload; [reflexivity|]. simpl in N. lia.
Qed.

Lemma decode_ignores_trailing_bytes_witness :
  let dec := decode 100000000
               (Some (wire_frame 0x12345678 7 tx_payload ++ [1; 2; 3]))
               (AppPacket_new 0 0) in
  dec.1 = true /\
  (dec.2).(m_error) = NoError /\
  (dec.2).(m_unique_id) = 0x12345678 /\
  (dec.2).(m_rx_lifesign) = 7 /\
  (dec.2).(m_data_length) = 15 /\
  payload_view dec.2 = tx_payload /\
  link_health dec.2 =
    link_health (decode 100000000 (Some (wire_frame 0x12345678 7 tx_payload))
                   (AppPacket_new 0 0)).2.
Proof.
  apply (decode_ignores_trailing_bytes 100000000 (AppPacket_new 0 0) 0x12345678 7
           tx_payload [1; 2; 3]).
  - unfold is_u32. lia.
  - unfold is_u16. lia.
  - repeat constructor; unfold is_byte; lia.
  - simpl. lia.
Defined.

(** X2 (only frames are accepted): when [decode] returns true, the buffer
    starts with the wire frame of the identifier, lifesign and payload the
    packet then exposes, and the payload has at most 256 bytes. *)
Theorem decode_accepts_only_frames (now : Z) (rx : AppPacket) (buf : list Z) :
  Forall is_byte buf ->
  (decode now (Some buf) rx).1 = true ->
  let p := (decode now (Some buf) rx).2 in
  (length (payload_view p) <= 256)%nat /\
  p.(m_data_length) = Z.of_nat (length (payload_view p)) /\
  p.(m_error) = NoError /\
  buf = wire_frame p.(m_unique_id) p.(m_rx_lifesign) (payload_view p)
        ++ drop (12 + length (payload_view p)) buf.
Proof.
  intros Hbytes Hok.
  set (dl := le_value (read_bytes buf 6 2)).
  assert (Hdl0 : 0 <= dl).
  { apply le_value_nonneg. unfold read_bytes. now apply Forall_take, Forall_drop. }
  assert (Hcond : 12 <= Z.of_nat (length buf) /\ 12 + dl <= Z.of_nat (length buf) /\ dl <= 256).
  { revert Hok. unfold decode, HEADER_SIZE, FOOTER_SIZE, APP_PACKET_MAX_DATA_SIZE.
    cbv zeta. fold dl.
    destruct (Z.ltb_spec (Z.of_nat (length buf)) (8 + 4)); [discriminate|].
    destruct (Z.ltb_spec (Z.of_nat (length buf)) (8 + dl + 4)); [discriminate|].
    destruct (Z.gtb_spec dl 256); [discriminate|]. lia. }
  destruct Hcond as (H12 & Hfit & H256).
  set (hdr := take 8 buf).
  set (payload := take (Z.to_nat dl) (drop 8 buf)).
  set (footer := take 4 (drop (8 + Z.to_nat dl) buf)).
  set (rest := drop (12 + Z.to_nat dl) buf).
  assert (Hh : length hdr = 8%nat) by (unfold hdr; rewrite length_take; lia).
  assert (Hp : length payload = Z.to_nat dl)
    by (unfold payload; rewrite length_take, length_drop; lia).
  assert (Hf : length footer = 4%nat)
    by (unfold footer; rewrite length_take, length_drop; lia).
  assert (Hbuf : buf = hdr ++ payload ++ footer ++ rest).
  { unfold hdr, payload, footer, rest.
    rewrite <- (take_drop 8 buf) at 1. f_equal.
    rewrite <- (take_drop (Z.to_nat dl) (drop 8 buf)) at 1. f_equal.
    rewrite !drop_drop.
    rewrite <- (take_drop 4 (drop (8 + Z.to_nat dl) buf)) at 1. f_equal.
    rewrite drop_drop. f_equal. lia. }
  assert (Hdlr : le_value (read_bytes hdr 6 2) = Z.of_nat (length payload)).
  { rewrite Hp, Z2Nat.id by assumption. unfold dl. f_equal.
    unfold read_bytes, hdr.
    change 8%nat with (6 + 2)%nat. rewrite <- take_drop_commute.
    now rewrite take_take. }
  assert (Hp256 : (length payload <= 256)%nat) by lia.
  pose proof (decode_envelope now rx hdr payload footer rest Hh Hf Hdlr Hp256) as Hd.
  cbv zeta in Hd. rewrite <- Hbuf in Hd.
  rewrite Hd in Hok |- *. cbv zeta.
  destruct (Z.eqb_spec (calculateCrc32 (hdr ++ payload)) (le_value footer)) as [Hcrc|?];
    [|discriminate]. cbn [negb fst snd].
  set (N := Z.of_nat (length payload)) in *.
  assert (Hview : payload_view
            (set_error NoError
               (set_crc32 (le_value footer)
                  (set_data_ptr (if N >? 0 then Some (payload ++ footer ++ rest) else None)
                     (updateReceivedLifesign now (le_value (read_bytes hdr 4 2))
                        (set_data_length N
                           (set_unique_id (le_value (read_bytes hdr 0 4)) rx))))))
          = payload).
  { unfold payload_view.
    cbn [m_data_ptr m_data_length set_error set_crc32 set_data_ptr set_data
         updateReceivedLifesign set_data_length set_unique_id].
    destruct (Z.gtb_spec N 0) as [Hpos|Hz].
    - replace (Z.to_nat N) with (length payload) by lia. apply take_app_length.
    - destruct payload; [reflexivity|]. simpl in N. lia. }
  rewrite Hview.
  split; [exact Hp256|]. split; [reflexivity|]. split; [reflexivity|].
  cbn [m_unique_id m_rx_lifesign set_error set_crc32 set_data_ptr set_data
       updateReceivedLifesign set_data_length set_unique_id].
  assert (Hhb : Forall is_byte hdr) by (unfold hdr; now apply Forall_take).
  assert (Hhdr : header_bytes (le_value (read_bytes hdr 0 4))
                   (le_value (read_bytes hdr 4 2)) N = hdr).
  { unfold header_bytes. rewrite <- Hdlr.
    rewrite !le_bytes_read by (assumption || lia).
    unfold read_bytes. rewrite drop_0.
    transitivity (take 4 hdr ++ drop 4 hdr); [f_equal|apply take_drop].
    transitivity (take 2 (drop 4 hdr) ++ drop 2 (drop 4 hdr));
      [f_equal|apply take_drop].
    rewrite drop_drop. apply take_ge. rewrite length_drop. lia. }
  unfold wire_frame. cbv zeta. fold N. rewrite Hhdr, Hcrc.
  assert (Hfb : Forall is_byte footer)
    by (unfold footer; now apply Forall_take, Forall_drop).
  rewrite <- Hf at 1. rewrite le_bytes_le_value by assumption.
  rewrite <- !app_assoc.
  replace (drop (12 + length payload) buf) with rest
    by (unfold rest; f_equal; lia).
  exact Hbuf.
Qed.

Lemma decode_accepts_only_frames_witness :
  let buf := wire_frame 0x12345678 7 tx_payload ++ [1; 2; 3] in
  let p := (decode 100000000 (Some buf) (AppPacket_new 0 0)).2 in
  (length (payload_view p) <= 256)%nat /\
  p.(m_data_length) = Z.of_nat (length (payload_view p)) /\
  p.(m_error) = NoError /\
  buf = wire_frame p.(m_unique_id) p.(m_rx_lifesign) (payload_view p)
        ++ drop (12 + length (payload_view p)) buf.
Proof.
  apply (decode_accepts_only_frames 100000000 (AppPacket_new 0 0)
           (wire_frame 0x12345678 7 tx_payload ++ [1; 2; 3])).
  - vm_compute. repeat constructor; discriminate.
  - vm_compute. reflexivity.
Defined.

(** *** Single-bit errors *)

Lemma flip_bit_length (buf : list Z) i k : length (flip_bit buf i k) = length buf.
Proof. apply length_insert. Qed.

Lemma flip_bit_middle (buf : list Z) (i : nat) (k : Z) :
  (i < length buf)%nat ->
  exists pre b post,
    buf = pre ++ b :: post /\
    flip_bit buf i k = pre ++ Z.lxor b (Z.shiftl 1 k) :: post /\
    length pre = i.
Proof.
  intros Hi. destruct (lookup_lt_is_Some_2 _ _ Hi) as [b Hb].
  exists (take i buf), b, (drop (S i) buf). split; [|split].
  - symmetry. now apply take_drop_middle.
  - unfold flip_bit. rewrite (list_lookup_total_correct _ _ _ Hb).
    now apply insert_take_drop.
  - rewrite length_take. lia.
Qed.

Lemma flip_bit_is_byte (buf : list Z) i k :
  Forall is_byte buf -> 0 <= k < 8 -> Forall is_byte (flip_bit buf i k).
Proof.
  intros Hb Hk. unfold flip_bit.
  destruct (le_lt_dec (length buf) i) as [Hge|Hlt].
  - now rewrite list_insert_ge.
  - apply Forall_insert; [assumption|].
    destruct (lookup_lt_is_Some_2 _ _ Hlt) as [b Hbi].
    rewrite (list_lookup_total_correct _ _ _ Hbi).
    apply lxor_byte; [|now apply bit_is_byte].
    rewrite Forall_lookup in Hb. now apply (Hb i).
Qed.

Lemma flip_bit_changes (buf : list Z) i k :
  (i < length buf)%nat -> 0 <= k < 8 -> flip_bit buf i k <> buf.
Proof.
  intros Hi Hk. destruct (flip_bit_middle buf i k Hi) as (pre & b & post & E & E' & _).
  rewrite E', E. intros H. apply app_inv_head in H. injection H as H.
  revert H. apply lxor_changes. now apply bit_is_byte.
Qed.

Lemma flip_bit_app_l (buf rest : list Z) i k :
  (i < length buf)%nat -> flip_bit (buf ++ rest) i k = flip_bit buf i k ++ rest.
Proof.
  intros Hi. unfold flip_bit. rewrite lookup_total_app_l by assumption.
  now apply insert_app_l.
Qed.

Lemma flip_bit_app_r (pre buf : list Z) i k :
  (length pre <= i)%nat ->
  flip_bit (pre ++ buf) i k = pre ++ flip_bit buf (i - length pre) k.
Proof.
  intros Hi. unfold flip_bit. rewrite lookup_total_app_r by assumption.
  now apply insert_app_r_alt.
Qed.

Lemma read_bytes_flip_other (buf : list Z) i k off n :
  (i < off \/ off + n <= i)%nat ->
  read_bytes (flip_bit buf i k) off n = read_bytes buf off n.
Proof.
  intros H. unfold read_bytes, flip_bit. destruct H as [H|H].
  - now rewrite drop_insert_lt by lia.
  - rewrite drop_insert_ge by lia. apply take_insert_ge. lia.
Qed.

(** A flipped bit in the header or payload changes the checksum. *)
Lemma calculateCrc32_flip_bit (body : list Z) i k :
  (i < length body)%nat -> 0 <= k < 8 ->
  calculateCrc32 (flip_bit body i k) <> calculateCrc32 body.
Proof.
  intros Hi Hk. destruct (flip_bit_middle body i k Hi) as (pre & b & post & E & E' & _).
  rewrite E', E. destruct (bit_is_byte k Hk) as [Hb Hne].
  apply calculateCrc32_byte_change; [|assumption].
  unfold is_byte in Hb. unfold is_u32. lia.
Qed.

(** X3 (single-bit errors): inverting any one bit of a well-formed frame,
    outside the two bytes of the length field, makes [decode] return false
    with [CrcMismatch]. *)
Theorem decode_detects_single_bit_flip
  (now : Z) (rx : AppPacket) (id ls : Z) (payload : list Z) (i : nat) (k : Z) :
  is_u32 id -> is_u16 ls -> Forall is_byte payload ->
  (length payload <= 256)%nat ->
  0 <= k < 8 ->
  (i < 12 + length payload)%nat ->
  ~ (6 <= i < 8)%nat ->
  let dec := decode now (Some (flip_bit (wire_frame id ls payload) i k)) rx in
  dec.1 = false /\ (dec.2).(m_error) = CrcMismatch.
Proof.
  intros Hid Hls Hpl H256 Hk Hi Hnot.
  set (N := Z.of_nat (length payload)).
  set (hdr := header_bytes id ls N).
  set (body := hdr ++ payload).
  set (crc := calculateCrc32 body).
  set (footer := le_bytes 4 crc).
  assert (Hh : length hdr = 8%nat) by apply header_bytes_length.
  assert (Hbl : length body = (8 + length payload)%nat)
    by (unfold body; rewrite length_app, Hh; reflexivity).
  assert (Hfl : length footer = 4%nat) by apply le_bytes_length.
  assert (Hbb : Forall is_byte body)
    by (unfold body; rewrite Forall_app; split;
        [apply header_bytes_is_byte|assumption]).
  assert (Hcrc : is_u32 crc) by now apply calculateCrc32_u32.
  assert (Hfv : le_value footer = crc) by now apply le_value_le_bytes_u32.
  assert (Hframe : wire_frame id ls payload = body ++ footer) by reflexivity.
  destruct (header_length_field id ls payload Hid Hls H256) as (_ & _ & E6).
  fold N hdr in E6.
  cbv zeta. rewrite Hframe.
  destruct (le_lt_dec (length body) i) as [Hfoot|Hbody].
  - (* the flipped bit is in the checksum *)
    rewrite flip_bit_app_r by assumption.
    set (footer' := flip_bit footer (i - length body) k).
    assert (Hne : le_value footer' <> crc).
    { rewrite <- Hfv. intros H. apply le_value_inj in H.
      - revert H. apply flip_bit_changes; [lia|assumption].
      - apply flip_bit_is_byte; [apply le_bytes_is_byte|assumption].
      - apply le_bytes_is_byte.
      - apply flip_bit_length. }
    replace (body ++ footer') with (hdr ++ payload ++ footer' ++ [])
      by (unfold body; now rewrite app_nil_r, <- app_assoc).
    rewrite decode_envelope;
      [|exact Hh|unfold footer'; now rewrite flip_bit_length|exact E6|exact H256].
    fold body crc.
    destruct (Z.eqb_spec crc (le_value footer')) as [E|_]; [congruence|].
    split; reflexivity.
  - (* the flipped bit is in the header or the payload *)
    rewrite flip_bit_app_l by assumption.
    set (body' := flip_bit body i k).
    assert (Hbl' : length body' = (8 + length payload)%nat)
      by (unfold body'; now rewrite flip_bit_length).
    assert (Hne : calculateCrc32 body' <> crc)
      by (apply calculateCrc32_flip_bit; assumption).
    assert (Hsplit : body' = take 8 body' ++ drop 8 body')
      by (symmetry; apply take_drop).
    assert (Hh' : length (take 8 body') = 8%nat) by (rewrite length_take; lia).
    assert (Hp' : length (drop 8 body') = length payload)
      by (rewrite length_drop; lia).
    assert (E6' : le_value (read_bytes (take 8 body') 6 2)
                  = Z.of_nat (length (drop 8 body'))).
    { rewrite Hp'. fold N. rewrite <- E6. f_equal.
      transitivity (read_bytes body' 6 2).
      - rewrite Hsplit at 2. symmetry. apply read_bytes_app_l. lia.
      - unfold body'. rewrite read_bytes_flip_other by lia.
        unfold body. apply read_bytes_app_l. lia. }
    replace (body' ++ footer)
      with (take 8 body' ++ drop 8 body' ++ footer ++ [])
      by (rewrite app_nil_r, app_assoc; now rewrite <- Hsplit).
    rewrite decode_envelope; [|exact Hh'|exact Hfl|exact E6'|lia].
    rewrite <- Hsplit, Hfv.
    destruct (Z.eqb_spec (calculateCrc32 body') crc) as [E|_]; [congruence|].
    split; reflexivity.
Qed.

Lemma decode_detects_single_bit_flip_witness :
  let dec := decode 100000000
               (Some (flip_bit (wire_frame 0x12345678 1 tx_payload) 10 0))
               (AppPacket_new 0 0) in
  dec.1 = false /\ (dec.2).(m_error) = CrcMismatch.
Proof.
  apply (decode_detects_single_bit_flip 100000000 (AppPacket_new 0 0) 0x12345678 1
           tx_payload 10 0).
  - unfold is_u32. lia.
  - unfold is_u16. lia.
  - repeat constructor; unfold is_byte; lia.
  - simpl. lia.
  - lia.
  - simpl. lia.
  - lia.
Defined.

(** X4 (the length field is not protected the same way): for every
    identifier and lifesign there is a well-formed four-byte-payload frame
    of which one flipped bit in the length field yields a buffer that
    [decode] accepts, as a frame with an empty payload. *)
Theorem length_field_flip_can_be_accepted (now : Z) (rx : AppPacket) (id ls : Z) :
  is_u32 id -> is_u16 ls ->
  let payload := le_bytes 4 (calculateCrc32 (header_bytes id ls 0)) in
  let sent := wire_frame id ls payload in
  let damaged := flip_bit sent 6 2 in
  let dec := decode now (Some damaged) rx in
  damaged <> sent /\
  dec.1 = true /\
  (dec.2).(m_error) = NoError /\
  (dec.2).(m_unique_id) = id /\
  (dec.2).(m_rx_lifesign) = ls /\
  (dec.2).(m_data_length) = 0 /\
  payload_view dec.2 = [].
Proof.
  intros Hid Hls payload sent damaged dec.
  assert (Hpl : length payload = 4%nat) by apply le_bytes_length.
  assert (Hsl : length sent = 16%nat)
    by (unfold sent; rewrite wire_frame_length, Hpl; reflexivity).
  split.
  { apply flip_bit_changes; [lia|lia]. }
  assert (Hdam : damaged = wire_frame id ls []
                           ++ le_bytes 4 (calculateCrc32
                                (header_bytes id ls 4 ++ payload))).
  { unfold damaged, sent, wire_frame. cbv zeta. rewrite Hpl.
    change (Z.of_nat 4) with 4. change (Z.of_nat (length [])) with 0.
    rewrite app_nil_r. fold payload.
    rewrite <- !app_assoc.
    unfold header_bytes at 1 3.
    rewrite <- !app_assoc.
    rewrite (flip_bit_app_r (le_bytes 4 id)) by (rewrite le_bytes_length; lia).
    rewrite (flip_bit_app_r (le_bytes 2 ls)) by (rewrite !le_bytes_length; lia).
    rewrite !le_bytes_length. reflexivity. }
  unfold dec. rewrite Hdam.
  rewrite (decode_frame_with_rest now rx id ls []);
    [|assumption|assumption|constructor|simpl; lia].
  cbn [fst snd]. repeat split.
Qed.

Lemma length_field_flip_can_be_accepted_witness :
  let payload := le_bytes 4 (calculateCrc32 (header_bytes 0x12345678 0 0)) in
  let sent := wire_frame 0x12345678 0 payload in
  let dec := decode 100000000 (Some (flip_bit sent 6 2)) (AppPacket_new 0 0) in
  payload = [152; 8; 89; 223] /\
  dec.1 = true /\
  (dec.2).(m_data_length) = 0.
Proof.
  intros payload sent dec.
  assert (Hid : is_u32 0x12345678) by (unfold is_u32; lia).
  assert (Hls : is_u16 0) by (unfold is_u16; lia).
  destruct (length_field_flip_can_be_accepted 100000000 (AppPacket_new 0 0)
              0x12345678 0 Hid Hls) as (_ & Hok & _ & _ & _ & Hlen & _).
  split; [vm_compute; reflexivity|]. split; [exact Hok|exact Hlen].
Defined.

(** X5 (failed encode): [encode] returns 0 exactly when the buffer is null
    or shorter than header + payload view + footer; it then leaves the
    buffer, the lifesign, the stored CRC and the payload view as they were
    and only sets the error.  A successful [encode] returns at least 12,
    clears the error and advances the lifesign by one modulo 2^16. *)
Theorem encode_failure_keeps_lifesign (buffer : option (list Z)) (p : AppPacket) :
  let enc := encode buffer p in
  let failure :=
    match buffer with
    | None => True
    | Some buf =>
        Z.of_nat (length buf) < wrap 64 (HEADER_SIZE + p.(m_data_length) + FOOTER_SIZE)
    end in
  (enc.1.1 = 0 <-> failure) /\
  (failure ->
     enc.1.2 = buffer /\
     enc.2 = set_error (match buffer with
                        | None => InvalidDataPointer
                        | Some _ => BufferTooSmall
                        end) p) /\
  (~ failure ->
     12 <= enc.1.1 /\
     (enc.2).(m_error) = NoError /\
     (enc.2).(m_lifesign) = wrap 16 (p.(m_lifesign) + 1) /\
     payload_view enc.2 = payload_view p /\
     link_health enc.2 = link_health p).
Proof.
  cbv zeta. unfold encode.
  destruct buffer as [buf|]; [|cbn; intuition].
  set (total := wrap 64 (HEADER_SIZE + m_data_length p + FOOTER_SIZE)).
  destruct (Z.ltb_spec (Z.of_nat (length buf)) total) as [Hlt|Hge].
  - cbn. intuition.
  - destruct (m_data_ptr p) as [mem|] eqn:Eptr;
      [destruct (Z.gtb_spec (m_data_length p) 0) as [Hpos|Hz]|];
      cbn [fst snd]; unfold HEADER_SIZE, FOOTER_SIZE;
      (split; [split; intros; lia|]);
      (split; [intros; lia|]); intros _;
      (split; [lia|]); repeat split;
      unfold payload_view; cbn; now rewrite ?Eptr.
Qed.

End CodecMore.

(** ** The checksum of a whole frame *)

Module CrcMore.
Import Crc Wire Packet CrcFacts WireFacts CodecFacts CrcAlgebra.

(** A shift step on a register with a zero low bit only shifts. *)
Lemma crc_bit_double y : crc_bit (2 * y) = y.
Proof.
  unfold crc_bit.
  replace (Z.land (2 * y) 1) with ((2 * y) mod 2)
    by (symmetry; apply (Z.land_ones _ 1); lia).
  rewrite Z.mul_comm, Z_mod_mult. cbn [Z.eqb negb].
  rewrite Z.shiftr_div_pow2 by lia. change (2 ^ 1) with 2.
  rewrite Z.div_mul by lia. reflexivity.
Qed.

Lemma crc_bits_shiftl n b : crc_bits n (Z.shiftl b (Z.of_nat n)) = b.
Proof.
  induction n as [|n IH]; [now rewrite Z.shiftl_0_r|].
  cbn [crc_bits].
  replace (Z.shiftl b (Z.of_nat (S n))) with (2 * Z.shiftl b (Z.of_nat n)).
  - now rewrite crc_bit_double.
  - rewrite !Z.shiftl_mul_pow2 by lia.
    rewrite Nat2Z.inj_succ, Z.pow_succ_r by lia. lia.
Qed.

(** The low byte and the shifted rest of a word. *)
Lemma split_low_byte (m k : Z) :
  0 <= k ->
  Z.lxor (Z.land m 0xFF) (Z.shiftl (Z.shiftr m 8 mod 2 ^ k) 8) = m mod 2 ^ (8 + k).
Proof.
  intros Hk. apply Z.bits_inj'. intros i Hi.
  rewrite Z.lxor_spec.
  replace (Z.land m 255) with (m mod 2 ^ 8) by (symmetry; apply (Z.land_ones _ 8); lia).
  destruct (Z.lt_ge_cases i 8) as [Hlo|Hhi].
  - rewrite Z.mod_pow2_bits_low by lia.
    rewrite Z.shiftl_spec_low by lia.
    rewrite Z.mod_pow2_bits_low by lia. apply xorb_false_r.
  - rewrite Z.mod_pow2_bits_high by lia.
    rewrite Z.shiftl_spec by lia. cbn [xorb].
    destruct (Z.lt_ge_cases (i - 8) k) as [Hin|Hout].
    + rewrite Z.mod_pow2_bits_low by lia.
      rewrite Z.shiftr_spec by lia.
      rewrite Z.mod_pow2_bits_low by lia. f_equal. lia.
    + rewrite Z.mod_pow2_bits_high by lia.
      rewrite Z.mod_pow2_bits_high by lia. reflexivity.
Qed.

(** Feeding the [n] low bytes of a word, least significant first, is the
    same as XORing them into the register at once and shifting [8 n]
    times. *)
Lemma fold_crc_byte_word (n : nat) (m r : Z) :
  fold_left crc_byte (le_bytes n m) r
  = crc_bits (8 * n) (Z.lxor r (m mod 2 ^ (8 * Z.of_nat n))).
Proof.
  revert m r. induction n as [|n IH]; intros m r.
  - cbn [le_bytes fold_left]. change (8 * Z.of_nat 0) with 0.
    change (2 ^ 0) with 1. rewrite Z.mod_1_r, Z.lxor_0_r. reflexivity.
  - cbn [le_bytes fold_left]. rewrite IH. unfold crc_byte.
    rewrite <- (crc_bits_shiftl 8 (Z.shiftr m 8 mod 2 ^ (8 * Z.of_nat n))) at 1.
    rewrite <- crc_bits_lxor, <- crc_bits_add.
    replace (8 + 8 * n)%nat with (8 * S n)%nat by lia.
    f_equal. rewrite Z.lxor_assoc. f_equal.
    change (Z.of_nat 8) with 8.
    rewrite split_low_byte by lia. f_equal. f_equal. lia.
Qed.

(** X6 (the checksum of a checked message is a constant): for every message
    of bytes, the checksum of the message followed by its own checksum,
    least significant byte first, is 0x2144DF1C; so the checksum over all
    [12 + N] bytes of any wire frame is that constant. *)
Theorem checksum_of_frame_is_constant (data : list Z) (id ls : Z) (payload : list Z) :
  Forall is_byte data ->
  Forall is_byte payload ->
  calculateCrc32 (data ++ le_bytes 4 (calculateCrc32 data)) = 0x2144DF1C /\
  calculateCrc32 (wire_frame id ls payload) = 0x2144DF1C.
Proof.
  assert (Hgen : forall data, Forall is_byte data ->
            calculateCrc32 (data ++ le_bytes 4 (calculateCrc32 data)) = 0x2144DF1C).
  { clear. intros data Hdata. unfold calculateCrc32 at 1.
    rewrite fold_left_app, fold_crc_byte_word.
    pose proof (calculateCrc32_u32 data Hdata) as Hc.
    change (8 * Z.of_nat 4) with 32.
    rewrite (Z.mod_small (calculateCrc32 data)) by exact Hc.
    unfold calculateCrc32.
    rewrite <- Z.lxor_assoc, Z.lxor_nilpotent, Z.lxor_0_l.
    vm_compute. reflexivity. }
  intros Hdata Hpl. split; [now apply Hgen|].
  unfold wire_frame. cbv zeta. apply Hgen.
  apply Forall_app. split; [apply header_bytes_is_byte|exact Hpl].
Qed.

Lemma checksum_of_frame_is_constant_witness :
  calculateCrc32 (wire_frame 0x12345678 7 tx_payload) = 0x2144DF1C.
Proof.
  assert (Hp : Forall is_byte tx_payload)
    by (unfold tx_payload; repeat constructor; unfold is_byte; lia).
  exact (proj2 (checksum_of_frame_is_constant tx_payload 0x12345678 7 tx_payload Hp Hp)).
Defined.

End CrcMore.

(** ** More theorems about the link-health monitor *)

Module MonitorMore.
Import Packet Traffic MonitorFacts.

Lemma streak_ok_update now ls p :
  streak_ok p -> streak_ok (updateReceivedLifesign now ls p).
Proof.
  intros [Hr Hf]. unfold streak_ok. cbn. unfold UINT16_MAX.
  destruct (out_of_tolerance p _).
  - destruct (Z.ltb_spec (m_unstable_counter p) 65535); split; try lia;
      split; (reflexivity || lia).
  - split; [lia|]. split; [discriminate|lia].
Qed.

Lemma streak_ok_decode now buffer p :
  streak_ok p -> streak_ok (decode now buffer p).2.
Proof.
  intros H. unfold decode. destruct buffer as [buf|]; [|exact H]. cbv zeta.
  repeat match goal with
         | |- context [if ?c then (false, set_error _ p) else _] =>
             destruct c; [exact H|]
         end.
  pose proof (streak_ok_update now (Wire.le_value (Wire.read_bytes buf 4 2))
                (set_data_length (Wire.le_value (Wire.read_bytes buf 6 2))
                   (set_unique_id (Wire.le_value (Wire.read_bytes buf 0 4)) p)) H) as Hu.
  match goal with |- context [negb ?c] => destruct (negb c) end;
  match goal with |- context [if ?c then set_data_ptr _ _ else _] => destruct c end;
  exact Hu.
Qed.

Lemma streak_ok_encode buffer p :
  streak_ok p -> streak_ok (encode buffer p).2.
Proof.
  intros H. unfold encode. destruct buffer as [buf|]; [|exact H].
  destruct (_ <? _); [exact H|].
  destruct (m_data_ptr p) as [mem|]; [destruct (_ >? _)|]; exact H.
Qed.

Lemma streak_ok_call c p : streak_ok p -> streak_ok (call c p).
Proof.
  intros H. destruct c; cbn [call].
  - exact H.
  - unfold setDataPointer. destruct data as [bytes|]; [destruct (_ >? _)|]; exact H.
  - now apply streak_ok_encode.
  - now apply streak_ok_decode.
  - now apply streak_ok_update.
  - exact H.
  - exact H.
  - unfold streak_ok. cbn. split; [lia|]. split; [discriminate|lia].
Qed.

(** X7 (streak and flag): whatever calls are made on a packet object, the
    unstable streak stays within 0..65535 (it saturates, it never wraps)
    and the unstable flag is set exactly when the streak is non-zero. *)
Theorem unstable_flag_tracks_streak (cs : list Call) (t1 t2 : Z) :
  let p := run cs (AppPacket_new t1 t2) in
  0 <= p.(m_unstable_counter) <= 65535 /\
  (isCommUnstable p = true <-> 0 < p.(m_unstable_counter)).
Proof.
  cbv zeta. change (streak_ok (run cs (AppPacket_new t1 t2))).
  unfold run.
  assert (H : streak_ok (AppPacket_new t1 t2))
    by (unfold streak_ok; cbn; split; [lia|]; split; [discriminate|lia]).
  revert H. generalize (AppPacket_new t1 t2).
  induction cs as [|c cs IH]; intros p H; [exact H|].
  cbn [fold_left]. apply IH, streak_ok_call, H.
Qed.

Lemma instants_ok_later t t' p : t <= t' -> instants_ok t p -> instants_ok t' p.
Proof. unfold instants_ok. lia. Qed.

Lemma instants_ok_update t now ls p :
  t <= now -> instants_ok t p -> instants_ok now (updateReceivedLifesign now ls p).
Proof.
  intros Ht [Hc Hr]. unfold instants_ok. cbn.
  destruct (negb (ls =? m_rx_lifesign p)); lia.
Qed.

Lemma instants_ok_decode t now buffer p :
  t <= now -> instants_ok t p -> instants_ok now (decode now buffer p).2.
Proof.
  intros Ht H. pose proof (instants_ok_later t now p Ht H) as H'.
  unfold decode. destruct buffer as [buf|]; [|exact H']. cbv zeta.
  repeat match goal with
         | |- context [if ?c then (false, set_error _ p) else _] =>
             destruct c; [exact H'|]
         end.
  pose proof (instants_ok_update t now (Wire.le_value (Wire.read_bytes buf 4 2))
                (set_data_length (Wire.le_value (Wire.read_bytes buf 6 2))
                   (set_unique_id (Wire.le_value (Wire.read_bytes buf 0 4)) p)) Ht H) as Hu.
  match goal with |- context [negb ?c] => destruct (negb c) end;
  match goal with |- context [if ?c then set_data_ptr _ _ else _] => destruct c end;
  exact Hu.
Qed.

Lemma instants_ok_encode t buffer p :
  instants_ok t p -> instants_ok t (encode buffer p).2.
Proof.
  intros H. unfold encode. destruct buffer as [buf|]; [|exact H].
  destruct (_ <? _); [exact H|].
  destruct (m_data_ptr p) as [mem|]; [destruct (_ >? _)|]; exact H.
Qed.

Lemma instants_ok_run cs t p :
  clock_monotone t cs -> instants_ok t p ->
  instants_ok (last_reading t cs) (run cs p).
Proof.
  unfold run. revert t p.
  induction cs as [|c cs IH]; intros t p Hm H; [exact H|].
  cbn [fold_left clock_monotone last_reading] in *.
  destruct c; cbn [call_time call] in *.
  - apply IH; assumption.
  - apply IH; [assumption|].
    unfold setDataPointer. destruct data as [bytes|]; [destruct (_ >? _)|]; exact H.
  - apply IH; [assumption|]. now apply instants_ok_encode.
  - destruct Hm as [Ht Hm]. apply IH; [assumption|].
    now apply (instants_ok_decode t).
  - destruct Hm as [Ht Hm]. apply IH; [assumption|].
    now apply (instants_ok_update t).
  - apply IH; assumption.
  - apply IH; assumption.
  - destruct Hm as [Ht Hm]. apply IH; [assumption|].
    unfold instants_ok. cbn. lia.
Qed.

(** X8 (ordered instants): with a clock that never runs backwards, after
    any sequence of calls on a packet object the instant of the last
    lifesign change is not after the instant of the last receive, which is
    not after the last clock reading; the durations the monitor measures
    are never negative. *)
Theorem instants_stay_ordered (cs : list Call) (t1 t2 : Z) :
  t1 <= t2 ->
  clock_monotone t2 cs ->
  let p := run cs (AppPacket_new t1 t2) in
  p.(m_last_change_time) <= p.(m_last_recv_time) /\
  p.(m_last_recv_time) <= last_reading t2 cs.
Proof.
  intros H12 Hm. cbv zeta.
  apply (instants_ok_run cs t2 (AppPacket_new t1 t2) Hm).
  unfold instants_ok. cbn. lia.
Qed.

Lemma instants_stay_ordered_witness :
  let cs := [CallDecode 100 (Some corrupted_frame);
             CallSetCommTimeout 500;
             CallUpdateReceivedLifesign 250 3;
             CallResetCommMonitor 300;
             CallUpdateReceivedLifesign 300 0] in
  let p := run cs (AppPacket_new 5 7) in
  p.(m_last_change_time) <= p.(m_last_recv_time) /\
  p.(m_last_recv_time) <= 300.
Proof.
  apply (instants_stay_ordered
           [CallDecode 100 (Some corrupted_frame);
            CallSetCommTimeout 500;
            CallUpdateReceivedLifesign 250 3;
            CallResetCommMonitor 300;
            CallUpdateReceivedLifesign 300 0] 5 7).
  - lia.
  - cbn. lia.
Defined.

Lemma all_out_of_tolerance_config p q recv evs :
  p.(m_expected_interval_ms) = q.(m_expected_interval_ms) ->
  p.(m_tolerance_us) = q.(m_tolerance_us) ->
  all_out_of_tolerance p recv evs -> all_out_of_tolerance q recv evs.
Proof.
  intros He Ht. revert recv.
  induction evs as [|ev evs IH]; intros recv; [trivial|].
  cbn [all_out_of_tolerance]. intros [H1 H2]. split; [|now apply IH].
  rewrite <- H1. unfold out_of_tolerance, lower_bound, upper_bound, expected_us.
  now rewrite He, Ht.
Qed.

(** X9 (consecutive late frames): a run of frames that each arrive out of
    tolerance raises the streak by one per frame, saturating at 65535, and
    leaves the unstable flag set. *)
Theorem streak_counts_late_frames (p : AppPacket) (evs : list (Z * Z)) :
  0 <= p.(m_unstable_counter) <= 65535 ->
  all_out_of_tolerance p p.(m_last_recv_time) evs ->
  let p' := receive_all evs p in
  p'.(m_unstable_counter) =
    Z.min 65535 (p.(m_unstable_counter) + Z.of_nat (length evs)) /\
  (evs <> [] -> isCommUnstable p' = true).
Proof.
  revert p. induction evs as [|ev evs IH]; intros p Hc Hlate; cbv zeta.
  - cbn. split; [lia|congruence].
  - destruct Hlate as [Hout Hlate]. unfold receive_all. cbn [fold_left].
    set (p1 := updateReceivedLifesign ev.1 ev.2 p).
    assert (Hc1 : p1.(m_unstable_counter)
                  = Z.min 65535 (p.(m_unstable_counter) + 1)).
    { unfold p1. cbn. rewrite Hout. unfold UINT16_MAX.
      destruct (Z.ltb_spec (m_unstable_counter p) 65535); lia. }
    assert (Hf1 : p1.(m_comm_unstable) = true) by (unfold p1; cbn; exact Hout).
    assert (Hlate1 : all_out_of_tolerance p1 p1.(m_last_recv_time) evs)
      by (apply (all_out_of_tolerance_config p); [reflexivity|reflexivity|exact Hlate]).
    destruct (IH p1 ltac:(lia) Hlate1) as [IHc IHf].
    fold (receive_all evs p1). split.
    + rewrite IHc, Hc1. cbn [length]. lia.
    + intros _. destruct evs as [|ev' evs']; [exact Hf1|].
      apply IHf. discriminate.
Qed.

Lemma streak_counts_late_frames_witness :
  let p := AppPacket_new 0 0 in
  let p' := receive_all [(150000000, 1); (300000000, 2); (500000000, 2)] p in
  p'.(m_unstable_counter) = 3 /\ isCommUnstable p' = true.
Proof.
  intros p p'.
  assert (Hc : 0 <= p.(m_unstable_counter) <= 65535) by (cbn; lia).
  assert (Hl : all_out_of_tolerance p p.(m_last_recv_time)
                 [(150000000, 1); (300000000, 2); (500000000, 2)])
    by (cbn; repeat split; vm_compute; reflexivity).
  destruct (streak_counts_late_frames p _ Hc Hl) as [H1 H2].
  split; [exact H1|]. apply H2. discriminate.
Defined.

(** X10 (frozen lifesign): frames that keep carrying the lifesign already
    recorded never restamp the instant of the last change, whenever and
    however many they are, so the loss verdict is that of the state before
    them.  On a fresh or a just-reset monitor the recorded lifesign is 0: a
    peer that sends lifesign 0 is not seen as alive. *)
Theorem frozen_lifesign_keeps_change_instant (p : AppPacket) (evs : list (Z * Z)) :
  Forall (fun ev => ev.2 = p.(m_rx_lifesign)) evs ->
  let p' := receive_all evs p in
  p'.(m_last_change_time) = p.(m_last_change_time) /\
  p'.(m_rx_lifesign) = p.(m_rx_lifesign) /\
  (forall now, isCommLost now p' = isCommLost now p) /\
  (forall t1 t2, (AppPacket_new t1 t2).(m_rx_lifesign) = 0) /\
  (forall t, (resetCommMonitor t p).(m_rx_lifesign) = 0).
Proof.
  intros Hevs. cbv zeta.
  assert (H : (receive_all evs p).(m_last_change_time) = p.(m_last_change_time) /\
              (receive_all evs p).(m_rx_lifesign) = p.(m_rx_lifesign) /\
              (receive_all evs p).(m_comm_timeout_ms) = p.(m_comm_timeout_ms)).
  { revert p Hevs. induction evs as [|ev evs IH]; intros p Hevs; [now cbn|].
    apply Forall_cons in Hevs. destruct Hevs as [Hev Hevs].
    unfold receive_all. cbn [fold_left].
    set (p1 := updateReceivedLifesign ev.1 ev.2 p).
    assert (E1 : p1.(m_rx_lifesign) = p.(m_rx_lifesign)) by (unfold p1; cbn; exact Hev).
    assert (E2 : p1.(m_last_change_time) = p.(m_last_change_time))
      by (unfold p1; cbn; rewrite Hev, Z.eqb_refl; reflexivity).
    assert (E3 : p1.(m_comm_timeout_ms) = p.(m_comm_timeout_ms)) by reflexivity.
    destruct (IH p1) as (I1 & I2 & I3).
    { rewrite E1. exact Hevs. }
    fold (receive_all evs p1). rewrite I1, I2, I3. auto. }
  destruct H as (H1 & H2 & H3).
  split; [exact H1|]. split; [exact H2|]. split; [|split; reflexivity].
  intros now. unfold isCommLost. now rewrite H1, H3.
Qed.

Lemma frozen_lifesign_keeps_change_instant_witness :
  let p := AppPacket_new 0 0 in
  let p' := receive_all [(100000000, 0); (200000000, 0); (990000000, 0)] p in
  p'.(m_last_change_time) = 0 /\
  p'.(m_last_recv_time) = 990000000 /\
  isCommLost 1000000000 p' = true.
Proof.
  intros p p'.
  assert (Hf : Forall (fun ev : Z * Z => ev.2 = p.(m_rx_lifesign))
                 [(100000000, 0); (200000000, 0); (990000000, 0)])
    by (repeat constructor).
  destruct (frozen_lifesign_keeps_change_instant p _ Hf) as (H1 & _ & H3 & _).
  fold p' in H1, H3.
  split; [exact H1|]. split; [reflexivity|]. rewrite H3. reflexivity.
Defined.

(** X11 (the monitor's verdicts stay out of the error code): no sequence of
    calls on a packet object ever leaves [LossOfCommunication] in the error
    code.  Whatever the state before, [decode] returns with one of
    [NoError], [InvalidDataPointer], [InvalidPacket], [DataTooLarge] and
    [CrcMismatch], and with [NoError] exactly when it returns true, also
    for a frame the monitor has just found out of tolerance; [encode]
    returns with [NoError], [InvalidDataPointer] or [BufferTooSmall], and
    with [NoError] exactly when it wrote a frame. *)
Theorem link_verdicts_stay_out_of_error
  (cs : list Call) (t1 t2 now : Z) (buffer : option (list Z)) (p : AppPacket) :
  (run cs (AppPacket_new t1 t2)).(m_error) <> LossOfCommunication /\
  In ((decode now buffer p).2).(m_error)
     [NoError; InvalidDataPointer; InvalidPacket; DataTooLarge; CrcMismatch] /\
  ((decode now buffer p).1 = true <-> ((decode now buffer p).2).(m_error) = NoError) /\
  In ((encode buffer p).2).(m_error) [NoError; InvalidDataPointer; BufferTooSmall] /\
  ((encode buffer p).1.1 > 0 <-> ((encode buffer p).2).(m_error) = NoError).
Proof.
  split; [apply run_no_loss|].
  assert (Hdec :
    In ((decode now buffer p).2).(m_error)
       [NoError; InvalidDataPointer; InvalidPacket; DataTooLarge; CrcMismatch] /\
    ((decode now buffer p).1 = true <-> ((decode now buffer p).2).(m_error) = NoError)).
  { unfold decode. destruct buffer as [buf|]; [|cbn; split; [tauto|split; discriminate]].
    cbv zeta.
    repeat match goal with
           | |- context [if ?c then (false, _) else _] => destruct c
           | |- context [if ?c then (true, _) else _] => destruct c
           end; cbn [fst snd set_error m_error In];
      (split; [tauto|split; (discriminate || reflexivity)]). }
  destruct Hdec as [D1 D2]. split; [exact D1|]. split; [exact D2|].
  unfold encode. destruct buffer as [buf|]; [|cbn; split; [tauto|split; [lia|discriminate]]].
  destruct (_ <? _); [cbn; split; [tauto|split; [lia|discriminate]]|].
  unfold HEADER_SIZE, FOOTER_SIZE.
  destruct (m_data_ptr p) as [mem|]; [destruct (_ >? _) eqn:E|];
    cbn [fst snd set_error set_lifesign set_crc32 m_error In];
    (split; [tauto|split; [reflexivity|intros _]]).
  - apply Z.gtb_lt in E. lia.
  - lia.
  - lia.
Qed.

End MonitorMore.

(** ** More theorems about the SPSC ring *)

Module RingMore.
Import Wire Ring RingQueue WireFacts RingFacts.

Section Template.

Variables MaxPacketSize Capacity : Z.
Hypothesis Capacity_range : 0 < Capacity < 2 ^ 64.

Local Abbreviation push := (push MaxPacketSize Capacity).
Local Abbreviation pop := (pop Capacity).
Local Abbreviation push_all := (push_all MaxPacketSize Capacity).
Local Abbreviation ring_ok := (ring_ok MaxPacketSize Capacity).
Local Abbreviation held := (size Capacity).
Local Abbreviation queued := (queued Capacity).
Local Abbreviation slot_at := (slot_at Capacity).
Local Abbreviation drain := (drain Capacity).

Lemma index_after r k :
  0 <= r < Capacity -> 0 <= k < Capacity ->
  (r + k) mod Capacity = if r + k <? Capacity then r + k else r + k - Capacity.
Proof.
  intros Hr Hk. destruct (Z.ltb_spec (r + k) Capacity).
  - apply Z.mod_small. lia.
  - transitivity ((r + k - Capacity + 1 * Capacity) mod Capacity); [f_equal; lia|].
    rewrite Z_mod_plus_full. apply Z.mod_small. lia.
Qed.

Lemma queued_length rb : length (queued rb) = Z.to_nat (held rb).
Proof. unfold RingQueue.queued. now rewrite length_map, length_seq. Qed.

(** The slot behind the last queued one is the write slot, and no queued
    slot is. *)
Lemma write_slot_index rb :
  ring_ok rb ->
  (rb.(m_readIdx) + held rb) mod Capacity = rb.(m_writeIdx).
Proof.
  intros Hok. pose proof (held_range _ _ Capacity_range rb Hok) as Hh.
  rewrite index_after by (destruct Hok; lia).
  rewrite (size_cases _ _ Capacity_range rb Hok) in *.
  destruct Hok as [_ _ Hw Hr].
  destruct (Z.ltb_spec (m_writeIdx rb) (m_readIdx rb)),
           (Z.ltb_spec (m_readIdx rb + (m_writeIdx rb - m_readIdx rb + Capacity)) Capacity),
           (Z.ltb_spec (m_readIdx rb + (m_writeIdx rb - m_readIdx rb)) Capacity); lia.
Qed.

Lemma queued_slot_not_write rb k :
  ring_ok rb -> (Z.of_nat k < held rb) ->
  Z.to_nat ((rb.(m_readIdx) + Z.of_nat k) mod Capacity) <> Z.to_nat rb.(m_writeIdx).
Proof.
  intros Hok Hk. pose proof (held_range _ _ Capacity_range rb Hok) as Hh.
  rewrite index_after by (destruct Hok; lia).
  rewrite (size_cases _ _ Capacity_range rb Hok) in *.
  destruct Hok as [_ _ Hw Hr].
  destruct (Z.ltb_spec (m_writeIdx rb) (m_readIdx rb)),
           (Z.ltb_spec (m_readIdx rb + Z.of_nat k) Capacity); lia.
Qed.

(** A successful [push] appends the packet to the queue. *)
Lemma push_appends (data : list Z) rb :
  ring_ok rb ->
  MaxPacketSize < 2 ^ 16 ->
  (push data rb).1 = true ->
  queued (push data rb).2 = queued rb ++ [stored data].
Proof.
  intros Hok Hmax Hpush.
  destruct (push_true_ok _ _ Capacity_range data rb Hok Hpush) as (Hok1 & Hheld & Hread).
  pose proof (held_range _ _ Capacity_range rb Hok) as Hh.
  pose proof (write_slot_index rb Hok) as Hwidx.
  assert (Hfit : Z.of_nat (length data) <= MaxPacketSize).
  { revert Hpush. rewrite push_unfold.
    destruct (Z.gtb_spec (Z.of_nat (length data)) MaxPacketSize); [discriminate|lia]. }
  assert (Hbuf : ((push data rb).2).(m_buffer) =
                 <[Z.to_nat rb.(m_writeIdx) :=
                     {| pkt_length := wrap 16 (Z.of_nat (length data));
                        pkt_data :=
                          write_bytes (rb.(m_buffer) !!! Z.to_nat rb.(m_writeIdx)).(pkt_data)
                            0 data |}]> rb.(m_buffer)).
  { revert Hpush. rewrite push_unfold.
    destruct (_ >? _); [discriminate|]. destruct (_ =? _); [discriminate|reflexivity]. }
  unfold RingQueue.queued. rewrite Hheld.
  replace (Z.to_nat (held rb + 1)) with (S (Z.to_nat (held rb))) by lia.
  rewrite seq_S, map_app. cbn [map Nat.add]. f_equal.
  - apply map_ext_in. intros k Hk. apply in_seq in Hk.
    unfold RingQueue.slot_at. rewrite Hread, Hbuf.
    rewrite list_lookup_total_insert_ne; [reflexivity|].
    apply not_eq_sym. apply queued_slot_not_write; [assumption|lia].
  - f_equal. unfold RingQueue.slot_at. rewrite Hread, Hbuf.
    rewrite Z2Nat.id by lia. rewrite Hwidx.
    rewrite list_lookup_total_insert_eq by (destruct Hok; lia).
    unfold slot_view, stored. cbn [pkt_length pkt_data].
    unfold wrap. rewrite Z.mod_small by lia.
    rewrite Nat2Z.id, write_bytes_0. now rewrite take_app_length.
Qed.

(** A [pop] with a large enough region delivers the oldest packet and
    removes it from the queue. *)
Lemma pop_removes_head (out : list Z) (al : Z) rb l (v : list Z) rest :
  ring_ok rb ->
  queued rb = (l, v) :: rest ->
  l <= Z.of_nat (length out) ->
  exists rb',
    pop out al rb = (true, v ++ drop (length v) out, l, rb') /\
    ring_ok rb' /\ queued rb' = rest /\
    rb'.(m_buffer) = rb.(m_buffer) /\ rb'.(m_writeIdx) = rb.(m_writeIdx).
Proof.
  intros Hok Hq Hfit.
  pose proof (held_range _ _ Capacity_range rb Hok) as Hh.
  pose proof (size_cases _ _ Capacity_range rb Hok) as Hsize.
  pose proof (queued_length rb) as Hql. rewrite Hq in Hql. cbn [length] in Hql.
  assert (Hpos : 0 < held rb) by lia.
  assert (Hne : rb.(m_readIdx) <> rb.(m_writeIdx)).
  { intros E. rewrite Hsize, E, Z.ltb_irrefl in Hpos. lia. }
  assert (Hhead : slot_view (rb.(m_buffer) !!! Z.to_nat rb.(m_readIdx)) = (l, v)).
  { pose proof (f_equal (hd (0, [])) Hq) as H0. cbn [hd] in H0. rewrite <- H0.
    unfold RingQueue.queued.
    replace (Z.to_nat (held rb)) with (S (Z.to_nat (held rb) - 1)) by lia.
    cbn [seq map hd].
    unfold RingQueue.slot_at. change (Z.of_nat 0) with 0.
    rewrite Z.add_0_r, Z.mod_small by (destruct Hok; lia). reflexivity. }
  unfold slot_view in Hhead. injection Hhead as Hl Hv.
  set (rb' := {| m_buffer := rb.(m_buffer);
                 m_writeIdx := rb.(m_writeIdx);
                 m_readIdx := wrap 64 (rb.(m_readIdx) + 1) mod Capacity |}).
  assert (Hnext := next_index _ Capacity_range (m_readIdx rb) ltac:(destruct Hok; assumption)).
  assert (Hok' : ring_ok rb').
  { destruct Hok as [Hs Hd Hw Hr]. constructor; cbn [rb' m_buffer m_writeIdx m_readIdx];
      try assumption.
    rewrite Hnext. destruct (Z.eqb_spec (m_readIdx rb + 1) Capacity); lia. }
  assert (Hheld' : held rb' = held rb - 1).
  { rewrite (size_cases _ _ Capacity_range rb' Hok'), Hsize.
    cbn [rb' m_buffer m_writeIdx m_readIdx]. rewrite Hnext.
    destruct Hok as [_ _ Hw Hr].
    destruct (Z.eqb_spec (m_readIdx rb + 1) Capacity),
             (Z.ltb_spec (m_writeIdx rb) (m_readIdx rb)),
             (Z.ltb_spec (m_writeIdx rb) 0),
             (Z.ltb_spec (m_writeIdx rb) (m_readIdx rb + 1)); lia. }
  exists rb'. split; [|split; [exact Hok'|split; [|split; reflexivity]]].
  - unfold Ring.pop.
    destruct (Z.eqb_spec (m_readIdx rb) (m_writeIdx rb)) as [?|_]; [contradiction|].
    cbv zeta. rewrite Hv, Hl.
    destruct (Z.gtb_spec l (Z.of_nat (length out))) as [?|_]; [lia|].
    rewrite write_bytes_0. reflexivity.
  - pose proof (f_equal (@tl _) Hq) as Ht. cbn [tl] in Ht. rewrite <- Ht.
    unfold RingQueue.queued. rewrite Hheld'.
    replace (Z.to_nat (held rb)) with (S (Z.to_nat (held rb - 1))) by lia.
    rewrite <- cons_seq. cbn [map tl]. rewrite <- seq_shift, map_map.
    apply map_ext. intros k. unfold RingQueue.slot_at.
    cbn [rb' m_buffer m_readIdx]. do 3 f_equal.
    unfold wrap. rewrite (Z.mod_small (m_readIdx rb + 1)) by (destruct Hok; lia).
    rewrite Z.add_mod_idemp_l by lia. f_equal. lia.
Qed.

Lemma held_zero_iff rb :
  ring_ok rb -> (held rb = 0 <-> rb.(m_readIdx) = rb.(m_writeIdx)).
Proof.
  intros Hok. rewrite (size_cases _ _ Capacity_range rb Hok).
  destruct Hok as [_ _ Hw Hr].
  destruct (Z.ltb_spec (m_writeIdx rb) (m_readIdx rb)); lia.
Qed.

Lemma queued_nil_iff rb :
  ring_ok rb -> (queued rb = [] <-> rb.(m_readIdx) = rb.(m_writeIdx)).
Proof.
  intros Hok. rewrite <- held_zero_iff by assumption.
  pose proof (held_range _ _ Capacity_range rb Hok) as Hh.
  pose proof (queued_length rb) as Hl.
  split; intros H.
  - rewrite H in Hl. cbn in Hl. lia.
  - apply length_zero_iff_nil. lia.
Qed.

(** A producer alone, with room for all its packets. *)
Lemma push_all_appends (ds : list (list Z)) rb :
  ring_ok rb ->
  MaxPacketSize < 2 ^ 16 ->
  Forall (fun d => Z.of_nat (length d) <= MaxPacketSize) ds ->
  held rb + Z.of_nat (length ds) <= Capacity - 1 ->
  (push_all ds rb).1 = replicate (length ds) true /\
  ring_ok (push_all ds rb).2 /\
  queued (push_all ds rb).2 = queued rb ++ map stored ds.
Proof.
  intros Hok Hmax Hds. revert rb Hok.
  induction Hds as [|d ds Hd _ IH]; intros rb Hok Hroom.
  - cbn. now rewrite app_nil_r.
  - cbn [Ring.push_all length] in *.
    assert (Hpush : (push d rb).1 = true).
    { destruct ((push d rb).1) eqn:E; [reflexivity|exfalso].
      apply (push_false_iff _ _ Capacity_range d rb Hok) in E.
      destruct E as [E|E]; [lia|].
      rewrite <- (next_index_plain _ Capacity_range) in E by apply Hok.
      apply (full_iff_held _ _ Capacity_range rb Hok) in E. lia. }
    destruct (push_true_ok _ _ Capacity_range d rb Hok Hpush) as (Hok1 & Hheld1 & _).
    pose proof (push_appends d rb Hok Hmax Hpush) as Hq1.
    destruct (push d rb) as [ok rb1]. cbn [fst snd] in *. subst ok.
    destruct (IH rb1 Hok1 ltac:(lia)) as (I1 & I2 & I3).
    destruct (Ring.push_all MaxPacketSize Capacity ds rb1) as [oks rb2].
    cbn [fst snd] in *. split; [|split].
    + now rewrite I1.
    + exact I2.
    + rewrite I3, Hq1, <- app_assoc. reflexivity.
Qed.

(** A consumer alone, with a region large enough for every waiting packet. *)
Lemma drain_delivers (ds : list (list Z)) (more : list (Z * list Z)) (out : list Z) rb :
  ring_ok rb ->
  queued rb = map stored ds ++ more ->
  Forall (fun d => length d <= length out)%nat ds ->
  ring_ok (drain (length ds) out rb).2 /\
  (drain (length ds) out rb).1 = ds /\
  queued (drain (length ds) out rb).2 = more.
Proof.
  revert out rb. induction ds as [|d ds IH]; intros out rb Hok Hq Hfit.
  - cbn. auto.
  - apply Forall_cons in Hfit. destruct Hfit as [Hd Hfit].
    cbn [map app] in Hq. unfold stored at 1 in Hq.
    destruct (pop_removes_head out 0 rb _ d _ Hok Hq ltac:(lia))
      as (rb1 & Hpop & Hok1 & Hq1 & _).
    cbn [length RingQueue.drain]. rewrite Hpop.
    assert (Hlen : length (d ++ drop (length d) out) = length out)
      by (rewrite length_app, length_drop; lia).
    destruct (IH (d ++ drop (length d) out) rb1 Hok1 Hq1) as (I0 & I1 & I2).
    { now rewrite Hlen. }
    destruct (RingQueue.drain Capacity (length ds) (d ++ drop (length d) out) rb1)
      as [ps rb2]. cbn [fst snd] in *.
    split; [exact I0|]. split; [|exact I2].
    rewrite I1, Nat2Z.id, take_app_length. reflexivity.
Qed.

End Template.

(** X12 (push is an append): on a well-formed ring with slots of less than
    2^16 bytes, a successful [push] puts the packet, with its length,
    behind the packets already waiting and leaves those untouched; a
    refused [push] leaves the ring as it was. *)
Theorem push_appends_to_queue
  (MaxPacketSize Capacity : Z) (rb : LockFreeRingBuffer) (data : list Z) :
  0 < Capacity < 2 ^ 64 ->
  MaxPacketSize < 2 ^ 16 ->
  ring_ok MaxPacketSize Capacity rb ->
  let r := push MaxPacketSize Capacity data rb in
  (r.1 = true ->
     queued Capacity r.2 = queued Capacity rb ++ [(Z.of_nat (length data), data)] /\
     ring_ok MaxPacketSize Capacity r.2 /\
     size Capacity r.2 = size Capacity rb + 1) /\
  (r.1 = false -> r.2 = rb).
Proof.
  intros HC Hmax Hok r. split.
  - intros Hpush.
    destruct (push_true_ok _ _ HC data rb Hok Hpush) as (Hok1 & Hheld & _).
    split; [|split; assumption].
    exact (push_appends MaxPacketSize Capacity HC data rb Hok Hmax Hpush).
  - apply push_false_unchanged.
Qed.

Lemma push_appends_to_queue_witness :
  let rb0 := LockFreeRingBuffer_new (replicate 1024 (mkPacket 0 (replicate 2048 0))) in
  let rb1 := (push 2048 1024 [7; 8; 9] rb0).2 in
  let rb2 := (push 2048 1024 [1; 2] rb1).2 in
  queued 1024 rb2 = [(3, [7; 8; 9]); (2, [1; 2])].
Proof.
  intros rb0 rb1 rb2.
  assert (HC : 0 < 1024 < 2 ^ 64) by lia.
  assert (Hmax : 2048 < 2 ^ 16) by lia.
  destruct (push_appends_to_queue 2048 1024 rb0 [7; 8; 9] HC Hmax zeroed_ring_ok)
    as [H1 _].
  destruct (H1 ltac:(reflexivity)) as (Hq1 & Hok1 & _). fold rb1 in Hq1, Hok1.
  destruct (push_appends_to_queue 2048 1024 rb1 [1; 2] HC Hmax Hok1) as [H2 _].
  destruct (H2 ltac:(vm_compute; reflexivity)) as (Hq2 & _). fold rb2 in Hq2.
  rewrite Hq2, Hq1. reflexivity.
Defined.

(** X13 (pop takes the oldest): on a well-formed ring, [pop] on an empty
    queue returns false and changes nothing, not even [actualLength]; with
    packets waiting and a region at least as long as the oldest one, it
    returns true, copies that packet to the start of the region, reports
    its length, removes it from the queue and leaves the other waiting
    packets and all slots as they were. *)
Theorem pop_takes_oldest
  (MaxPacketSize Capacity : Z) (rb : LockFreeRingBuffer) (out : list Z) (al : Z) :
  0 < Capacity < 2 ^ 64 ->
  ring_ok MaxPacketSize Capacity rb ->
  (queued Capacity rb = [] -> pop Capacity out al rb = (false, out, al, rb)) /\
  (forall l v rest,
     queued Capacity rb = (l, v) :: rest ->
     l <= Z.of_nat (length out) ->
     exists rb',
       pop Capacity out al rb = (true, v ++ drop (length v) out, l, rb') /\
       ring_ok MaxPacketSize Capacity rb' /\
       queued Capacity rb' = rest /\
       rb'.(m_buffer) = rb.(m_buffer) /\
       size Capacity rb' = size Capacity rb - 1).
Proof.
  intros HC Hok. split.
  - intros Hq. apply (queued_nil_iff _ _ HC rb Hok) in Hq.
    unfold pop. now rewrite Hq, Z.eqb_refl.
  - intros l v rest Hq Hfit.
    destruct (pop_removes_head MaxPacketSize Capacity HC out al rb l v rest Hok Hq Hfit)
      as (rb' & Hpop & Hok' & Hq' & Hb & _).
    exists rb'. split; [exact Hpop|]. split; [exact Hok'|].
    split; [exact Hq'|]. split; [exact Hb|].
    pose proof (queued_length Capacity rb) as L.
    pose proof (queued_length Capacity rb') as L'.
    pose proof (held_range _ _ HC rb Hok). pose proof (held_range _ _ HC rb' Hok').
    rewrite Hq in L. rewrite Hq' in L'. cbn [length] in L. lia.
Qed.

Lemma pop_takes_oldest_witness :
  let rb0 := LockFreeRingBuffer_new (replicate 1024 (mkPacket 0 (replicate 2048 0))) in
  let rb2 := (push 2048 1024 [1; 2] (push 2048 1024 [7; 8; 9] rb0).2).2 in
  exists rb',
    pop 1024 [0; 0; 0; 0] 0 rb2 = (true, [7; 8; 9; 0], 3, rb') /\
    queued 1024 rb' = [(2, [1; 2])].
Proof.
  intros rb0 rb2.
  assert (HC : 0 < 1024 < 2 ^ 64) by lia.
  assert (Hok : ring_ok 2048 1024 rb2).
  { apply push_true_ok; [lia| |vm_compute; reflexivity].
    apply push_true_ok; [lia|apply zeroed_ring_ok|vm_compute; reflexivity]. }
  destruct (pop_takes_oldest 2048 1024 rb2 [0; 0; 0; 0] 0 HC Hok) as [_ H].
  destruct (H 3 [7; 8; 9] [(2, [1; 2])]) as (rb' & Hpop & _ & Hq & _).
  - vm_compute. reflexivity.
  - simpl. lia.
  - exists rb'. split; [exact Hpop|exact Hq].
Defined.

(** X14 (what goes in comes out): on a ring with slots of less than 2^16
    bytes ([MaxPacketSize < 2^16], the length of a slot being kept in a
    [uint16_t]), packets of valid length pushed into the empty well-formed
    ring, no more than [Capacity - 1] of them, are all accepted, and as
    many [pop]s into a region of at least [MaxPacketSize] bytes deliver
    exactly these packets, in the order pushed, and leave the ring empty. *)
Theorem push_then_drain_round_trip
  (MaxPacketSize Capacity : Z) (rb : LockFreeRingBuffer)
  (ds : list (list Z)) (out : list Z) :
  0 < Capacity < 2 ^ 64 ->
  MaxPacketSize < 2 ^ 16 ->
  ring_ok MaxPacketSize Capacity rb ->
  isEmpty rb = true ->
  Forall (fun d => Z.of_nat (length d) <= MaxPacketSize) ds ->
  Z.of_nat (length ds) <= Capacity - 1 ->
  MaxPacketSize <= Z.of_nat (length out) ->
  let pushed := push_all MaxPacketSize Capacity ds rb in
  let drained := drain Capacity (length ds) out pushed.2 in
  pushed.1 = replicate (length ds) true /\
  drained.1 = ds /\
  isEmpty drained.2 = true.
Proof.
  intros HC Hmax Hok Hempty Hds Hn Hout pushed drained.
  assert (Hrw : rb.(m_readIdx) = rb.(m_writeIdx))
    by (unfold isEmpty in Hempty; now apply Z.eqb_eq).
  assert (Hheld : size Capacity rb = 0) by now apply (held_zero_iff _ _ HC rb Hok).
  assert (Hq0 : queued Capacity rb = []) by now apply (queued_nil_iff _ _ HC rb Hok).
  destruct (push_all_appends MaxPacketSize Capacity HC ds rb Hok Hmax Hds ltac:(lia))
    as (Hall & Hok1 & Hq1).
  fold pushed in Hall, Hok1, Hq1. rewrite Hq0 in Hq1. cbn [app] in Hq1.
  rewrite <- (app_nil_r (map stored ds)) in Hq1.
  destruct (drain_delivers MaxPacketSize Capacity HC ds [] out pushed.2 Hok1 Hq1)
    as (Hok2 & Hdel & Hq2).
  { eapply Forall_impl; [exact Hds|]. intros d Hd. simpl in Hd |- *. lia. }
  fold drained in Hok2, Hdel, Hq2.
  split; [exact Hall|]. split; [exact Hdel|].
  unfold isEmpty. apply Z.eqb_eq. now apply (queued_nil_iff _ _ HC _ Hok2).
Qed.

Lemma push_then_drain_round_trip_witness :
  let rb0 := LockFreeRingBuffer_new (replicate 1024 (mkPacket 0 (replicate 2048 0))) in
  let ds := [[7; 8; 9]; []; [1; 2]] in
  let pushed := push_all 2048 1024 ds rb0 in
  let drained := drain 1024 3 (replicate 2048 0) pushed.2 in
  pushed.1 = [true; true; true] /\ drained.1 = ds /\ isEmpty drained.2 = true.
Proof.
  apply (push_then_drain_round_trip 2048 1024
           (LockFreeRingBuffer_new (replicate 1024 (mkPacket 0 (replicate 2048 0))))
           [[7; 8; 9]; []; [1; 2]] (replicate 2048 0)).
  - lia.
  - lia.
  - apply zeroed_ring_ok.
  - reflexivity.
  - repeat constructor; simpl; lia.
  - simpl. lia.
  - rewrite length_replicate. lia.
Defined.

(** X15 (occupancy): on a well-formed ring, [size] is the number of waiting
    packets and never exceeds [Capacity - 1]; [isEmpty] holds exactly when
    no packet waits and [isFull] exactly when [Capacity - 1] do. *)
Theorem size_counts_queued
  (MaxPacketSize Capacity : Z) (rb : LockFreeRingBuffer) :
  0 < Capacity < 2 ^ 64 ->
  ring_ok MaxPacketSize Capacity rb ->
  size Capacity rb = Z.of_nat (length (queued Capacity rb)) /\
  0 <= size Capacity rb <= Capacity - 1 /\
  (isEmpty rb = true <-> queued Capacity rb = []) /\
  (isFull Capacity rb = true <-> size Capacity rb = Capacity - 1) /\
  (1 < Capacity -> ~ (isEmpty rb = true /\ isFull Capacity rb = true)).
Proof.
  intros HC Hok.
  pose proof (held_range _ _ HC rb Hok) as Hh.
  pose proof (queued_length Capacity rb) as Hl.
  pose proof (full_iff_held _ _ HC rb Hok) as Hfull.
  pose proof (queued_nil_iff _ _ HC rb Hok) as Hnil.
  pose proof (held_zero_iff _ _ HC rb Hok) as Hz.
  assert (He : isEmpty rb = true <-> m_readIdx rb = m_writeIdx rb)
    by (unfold isEmpty; apply Z.eqb_eq).
  assert (Hf : isFull Capacity rb = true <-> size Capacity rb = Capacity - 1)
    by (unfold isFull; rewrite Z.eqb_eq; exact Hfull).
  split; [lia|]. split; [lia|]. split; [tauto|]. split; [exact Hf|].
  intros HC1 [H1 H2]. apply He, Hz in H1. apply Hf in H2. lia.
Qed.

Lemma size_counts_queued_witness :
  let rb0 := LockFreeRingBuffer_new (replicate 1024 (mkPacket 0 (replicate 2048 0))) in
  size 1024 rb0 = 0 /\ isEmpty rb0 = true /\ isFull 1024 rb0 = false.
Proof.
  intros rb0.
  assert (HC : 0 < 1024 < 2 ^ 64) by lia.
  destruct (size_counts_queued 2048 1024 rb0 HC zeroed_ring_ok) as (Hs & _ & _ & _ & Hx).
  split; [exact Hs|]. split; [reflexivity|].
  destruct (isFull 1024 rb0) eqn:E; [|reflexivity].
  exfalso. apply Hx; [lia|]. split; reflexivity.
Defined.

End RingMore.

(** ** More theorems about the latency sampler *)

Module LatencyMore.
Import Fp Latency LatencyRank LatencyFacts.

Lemma percentile_uses_index (sorted : list Z) (p : float) :
  sorted <> [] ->
  percentile sorted p =
  ns_to_us (sorted !!! Z.to_nat (percentile_index (Z.of_nat (length sorted)) p - 1)).
Proof. destruct sorted as [|x sorted]; [congruence|reflexivity]. Qed.

Lemma u64_to_double_prim (z : Z) :
  0 <= z < 2 ^ 63 -> u64_to_double z = PrimFloat.of_uint63 (Uint63.of_Z z).
Proof.
  intros Hz. unfold u64_to_double.
  rewrite <- (SF2Prim_Prim2SF (of_uint63 (Uint63.of_Z z))).
  rewrite of_uint63_spec, Uint63.of_Z_spec.
  rewrite Z.mod_small; [reflexivity|].
  unfold Uint63.wB. change (Z.of_nat Uint63.size) with 63. lia.
Qed.

Lemma ceil_div_shift (num k : Z) :
  0 < k -> - ((- num) / 2 ^ k) = Z.shiftr (num + Z.ones k) k.
Proof.
  intros Hk. rewrite Z.shiftr_div_pow2 by lia.
  rewrite Z.ones_equiv.
  assert (Hd : 0 < 2 ^ k) by (apply Z.pow_pos_nonneg; lia).
  apply Z.div_unique with (r := 2 ^ k - 1 - (- num) mod 2 ^ k).
  - left. pose proof (Z.mod_pos_bound (- num) (2 ^ k) Hd). lia.
  - pose proof (Z.div_mod (- num) (2 ^ k) ltac:(lia)). lia.
Qed.

Lemma ceil_to_size_shift (x : float) : ceil_to_size x = ceil_shift x.
Proof.
  unfold ceil_to_size, ceil_shift.
  destruct (Prim2SF x) as [s| | |s m e]; try reflexivity.
  destruct (Z.leb_spec 0 e) as [He|He].
  - now rewrite Z.shiftl_mul_pow2 by lia.
  - apply ceil_div_shift. lia.
Qed.

Lemma percentile_index_prim_eq (size : Z) (p : float) :
  0 <= size < 2 ^ 63 -> percentile_index size p = percentile_index_prim size p.
Proof.
  intros Hs. unfold percentile_index, percentile_index_prim.
  now rewrite u64_to_double_prim, ceil_to_size_shift by assumption.
Qed.

Lemma In_ramp (k : nat) (a n : Z) :
  a <= n < a + Z.of_nat k -> In n (ramp k a 1).
Proof.
  revert a. induction k as [|k IH]; intros a H; [lia|].
  cbn [ramp]. destruct (Z.eq_dec a n) as [->|Hne]; [now left|right].
  apply IH. lia.
Qed.

(** X16 (where the rank is exact): for every sample count from 1 to the
    default capacity of 100 000, the index [percentile] computes for 50, 95,
    99 and 99.99 is the nearest-rank index
    [min(n, max(1, ceil(p * n / 100)))]; for 99.9 it is that index too,
    except when the count is a multiple of 1000 other than 33 000 and
    66 000, where it is one higher. *)
Theorem percentile_rank_up_to_default_capacity (n : Z) :
  1 <= n <= LATENCY_STATS_DEFAULT_CAPACITY ->
  percentile_index n 50 = spec_nearest_rank_index 50 1 n /\
  percentile_index n 95 = spec_nearest_rank_index 95 1 n /\
  percentile_index n 99 = spec_nearest_rank_index 99 1 n /\
  percentile_index n P9999 = spec_nearest_rank_index 9999 100 n /\
  percentile_index n P999 =
    spec_nearest_rank_index 999 10 n + (if p999_off_by_one n then 1 else 0) /\
  (forall sorted p,
     Z.of_nat (length sorted) = n ->
     percentile sorted p =
     ns_to_us (sorted !!! Z.to_nat (percentile_index n p - 1))).
Proof.
  intros Hn.
  assert (Hall : forallb ranks_as_expected (ramp (Z.to_nat 100000) 1 1) = true)
    by (vm_compute; reflexivity).
  rewrite forallb_forall in Hall.
  assert (Hin : In n (ramp (Z.to_nat 100000) 1 1)).
  { apply In_ramp. rewrite Z2Nat.id by lia.
    unfold LATENCY_STATS_DEFAULT_CAPACITY in Hn. lia. }
  specialize (Hall n Hin).
  unfold ranks_as_expected in Hall.
  unfold LATENCY_STATS_DEFAULT_CAPACITY in Hn.
  rewrite <- !percentile_index_prim_eq in Hall by lia.
  rewrite !andb_true_iff, !Z.eqb_eq in Hall.
  destruct Hall as ((((H50 & H95) & H99) & H9999) & H999).
  repeat (split; [assumption|]).
  intros sorted p Hlen. rewrite <- Hlen. apply percentile_uses_index.
  intros ->. cbn in Hlen. lia.
Qed.

Lemma percentile_rank_up_to_default_capacity_witness :
  percentile_index 66000 P999 = spec_nearest_rank_index 999 10 66000 /\
  percentile_index 67000 P999 = spec_nearest_rank_index 999 10 67000 + 1 /\
  percentile_index 67000 P9999 = spec_nearest_rank_index 9999 100 67000.
Proof.
  assert (H1 : 1 <= 66000 <= LATENCY_STATS_DEFAULT_CAPACITY) by (vm_compute; split; discriminate).
  assert (H2 : 1 <= 67000 <= LATENCY_STATS_DEFAULT_CAPACITY) by (vm_compute; split; discriminate).
  destruct (percentile_rank_up_to_default_capacity 66000 H1) as (_ & _ & _ & _ & A & _).
  destruct (percentile_rank_up_to_default_capacity 67000 H2) as (_ & _ & _ & B & C & _).
  split; [|split].
  - rewrite A. reflexivity.
  - rewrite C. reflexivity.
  - exact B.
Defined.

(** *** The retained window *)

Lemma leb_transitive : Transitive (fun x y : Z => is_true (x <=? y)).
Proof. intros x y z Hxy Hyz. unfold is_true in *. rewrite Z.leb_le in *. lia. Qed.

Lemma sorted_hd_least (l : list Z) :
  StronglySorted (fun x y : Z => is_true (x <=? y)) l ->
  forall x, In x l -> hd 0 l <= x.
Proof.
  intros Hs x Hx. destruct l as [|a l]; [contradiction|].
  apply StronglySorted_inv in Hs. destruct Hs as [_ Hall].
  cbn [hd]. destruct Hx as [->|Hx]; [lia|].
  rewrite List.Forall_forall in Hall. specialize (Hall x Hx).
  unfold is_true in Hall. now apply Z.leb_le.
Qed.

Lemma sorted_last_greatest (l : list Z) :
  StronglySorted (fun x y : Z => is_true (x <=? y)) l ->
  forall x, In x l -> x <= List.last l 0.
Proof.
  induction l as [|a l IH]; intros Hs x Hx; [contradiction|].
  apply StronglySorted_inv in Hs. destruct Hs as [Hs Hall].
  destruct l as [|b l].
  - destruct Hx as [->|[]]. cbn. lia.
  - change (List.last (a :: b :: l) 0) with (List.last (b :: l) 0).
    destruct Hx as [->|Hx]; [|now apply IH].
    apply Z.le_trans with b; [|apply IH; [assumption|now left]].
    apply Forall_inv in Hall. unfold is_true in Hall. now apply Z.leb_le.
Qed.

Lemma hd_In (l : list Z) : l <> [] -> In (hd 0 l) l.
Proof. destruct l; [congruence|now left]. Qed.

Lemma last_In (l : list Z) : l <> [] -> In (List.last l 0) l.
Proof.
  induction l as [|a l IH]; [congruence|]. intros _.
  destruct l as [|b l]; [now left|].
  change (List.last (a :: b :: l) 0) with (List.last (b :: l) 0).
  right. apply IH. discriminate.
Qed.

Lemma percentile_in_list (sorted : list Z) (p : float) :
  sorted <> [] -> exists x, In x sorted /\ percentile sorted p = ns_to_us x.
Proof.
  intros Hne. rewrite percentile_uses_index by assumption.
  set (n := Z.of_nat (length sorted)).
  assert (Hn : 0 < n) by (destruct sorted; [congruence|unfold n; cbn [length]; lia]).
  assert (Hidx : percentile_index n p <= n).
  { unfold percentile_index. cbv zeta.
    destruct (Z.gtb_spec (if ceil_to_size (p / 100 * u64_to_double n) =? 0 then 1
                          else ceil_to_size (p / 100 * u64_to_double n)) n); lia. }
  assert (Hlt : (Z.to_nat (percentile_index n p - 1) < length sorted)%nat) by lia.
  destruct (lookup_lt_is_Some_2 _ _ Hlt) as [x Hx].
  exists x. split.
  - apply list_elem_of_In. apply list_elem_of_lookup. eauto.
  - now rewrite (list_lookup_total_correct _ _ _ Hx).
Qed.

(** X17 (what the statistics are about): after recording a non-empty
    sequence into a fresh sampler, [computeStats] reports as [count] the
    number of samples ever recorded, while minimum, maximum and all five
    percentiles are taken from the retained window, the last
    [min(total, Capacity)] samples: the minimum and maximum are the
    smallest and largest sample of the window and every percentile is one
    of its samples. *)
Theorem stats_cover_retained_window (Capacity : Z) (xs : list Z) :
  0 < Capacity < 2 ^ 64 ->
  Z.of_nat (length xs) < 2 ^ 64 ->
  xs <> [] ->
  let window := drop (length xs - Z.to_nat Capacity) xs in
  let r := computeStats Capacity (record_all Capacity xs (LatencyStats_new Capacity)) in
  r.(count) = Z.of_nat (length xs) /\
  Z.of_nat (length window) = Z.min (Z.of_nat (length xs)) Capacity /\
  (exists lo hi,
     In lo window /\ In hi window /\
     (forall x, In x window -> lo <= x <= hi) /\
     r.(min_us) = ns_to_us lo /\ r.(max_us) = ns_to_us hi) /\
  (forall q,
     In q [r.(p50_us); r.(p95_us); r.(p99_us); r.(p999_us); r.(p9999_us)] ->
     exists x, In x window /\ q = ns_to_us x).
Proof.
  intros HC Hfit Hne window r.
  pose proof (record_all_recorded Capacity HC xs Hfit) as Hrec.
  pose proof (snapshot_recorded Capacity HC xs _ Hrec) as Hsnap.
  fold window in Hsnap.
  assert (Hcnt : (record_all Capacity xs (LatencyStats_new Capacity)).(m_count)
                 = Z.of_nat (length xs)) by apply Hrec.
  assert (Hlen : (0 < length xs)%nat) by (destruct xs; [congruence|cbn; lia]).
  assert (Hwl : Z.of_nat (length window) = Z.min (Z.of_nat (length xs)) Capacity)
    by (unfold window; rewrite length_drop; lia).
  assert (Hwne : window <> []) by (intros E; rewrite E in Hwl; cbn in Hwl; lia).
  set (sorted := ZSort.sort window).
  assert (Hperm : Permutation window sorted) by apply ZSort.Permuted_sort.
  assert (Hss : StronglySorted (fun x y : Z => is_true (x <=? y)) sorted)
    by (apply ZSort.StronglySorted_sort, leb_transitive).
  assert (Hsne : sorted <> []).
  { intros E. apply Permutation_length in Hperm. rewrite E in Hperm.
    destruct window; [congruence|discriminate]. }
  assert (Hr : r.(count) = Z.of_nat (length xs) /\
               r.(min_us) = ns_to_us (hd 0 sorted) /\
               r.(max_us) = ns_to_us (List.last sorted 0) /\
               r.(p50_us) = percentile sorted 50 /\
               r.(p95_us) = percentile sorted 95 /\
               r.(p99_us) = percentile sorted 99 /\
               r.(p999_us) = percentile sorted P999 /\
               r.(p9999_us) = percentile sorted P9999).
  { unfold r, computeStats. rewrite Hcnt, Hsnap. fold sorted.
    destruct (Z.eqb_spec (Z.of_nat (length xs)) 0) as [?|_]; [lia|].
    destruct (fold_left _ _ _) as [sum sumSq]. cbn. repeat split. }
  destruct Hr as (R0 & R1 & R2 & R3 & R4 & R5 & R6 & R7).
  split; [exact R0|]. split; [exact Hwl|]. split.
  - exists (hd 0 sorted), (List.last sorted 0).
    split; [apply (Permutation_in _ (Permutation_sym Hperm)), hd_In, Hsne|].
    split; [apply (Permutation_in _ (Permutation_sym Hperm)), last_In, Hsne|].
    split; [|split; assumption].
    intros x Hx. apply (Permutation_in _ Hperm) in Hx. split.
    + now apply sorted_hd_least.
    + now apply sorted_last_greatest.
  - intros q Hq.
    assert (Hp : exists p, q = percentile sorted p).
    { cbn [In] in Hq. rewrite R3, R4, R5, R6, R7 in Hq.
      destruct Hq as [<-|[<-|[<-|[<-|[<-|[]]]]]]; eauto. }
    destruct Hp as [p ->].
    destruct (percentile_in_list sorted p Hsne) as (x & Hx & E).
    exists x. split; [|exact E].
    now apply (Permutation_in _ (Permutation_sym Hperm)).
Qed.

Lemma stats_cover_retained_window_witness :
  let r := computeStats 4 (record_all 4 [9000; 1000; 5000; 7000; 3000; 8000]
                             (LatencyStats_new 4)) in
  r.(count) = 6 /\
  r.(min_us) = 3%float /\
  r.(max_us) = 8%float.
Proof.
  intros r.
  assert (HC : 0 < 4 < 2 ^ 64) by lia.
  assert (Hfit : Z.of_nat (length [9000; 1000; 5000; 7000; 3000; 8000]) < 2 ^ 64)
    by (simpl; lia).
  destruct (stats_cover_retained_window 4 [9000; 1000; 5000; 7000; 3000; 8000]
              HC Hfit ltac:(discriminate)) as (Hc & _ & _ & _).
  split; [exact Hc|]. split; vm_compute; reflexivity.
Defined.

(** X18 (reset): [reset] after any recording gives back the state of a fresh
    sampler, for which [computeStats] reports the all-zero result;
    recording after a reset therefore behaves as on a fresh sampler. *)
Theorem reset_restores_fresh_sampler (Capacity : Z) (xs ys : list Z) :
  0 < Capacity < 2 ^ 64 ->
  Z.of_nat (length xs) < 2 ^ 64 ->
  let s := reset (record_all Capacity xs (LatencyStats_new Capacity)) in
  s = LatencyStats_new Capacity /\
  computeStats Capacity s = Result_zero /\
  record_all Capacity ys s = record_all Capacity ys (LatencyStats_new Capacity).
Proof.
  intros HC Hfit s.
  assert (Hs : s = LatencyStats_new Capacity).
  { unfold s, reset, LatencyStats_new.
    destruct (record_all_recorded Capacity HC xs Hfit) as [Hlen _ _ _].
    replace (length (m_samples (record_all Capacity xs
               {| m_samples := replicate (Z.to_nat Capacity) 0;
                  m_writeIdx := 0; m_count := 0 |})))
      with (Z.to_nat Capacity) by (unfold LatencyStats_new in Hlen; lia).
    reflexivity. }
  rewrite Hs. split; [reflexivity|]. split; reflexivity.
Qed.

Lemma reset_restores_fresh_sampler_witness :
  let s := reset (record_all 4 [9000; 1000; 5000; 7000; 3000; 8000] (LatencyStats_new 4)) in
  s = LatencyStats_new 4 /\
  computeStats 4 s = Result_zero /\
  record_all 4 [1; 2] s = record_all 4 [1; 2] (LatencyStats_new 4).
Proof.
  apply (reset_restores_fresh_sampler 4 [9000; 1000; 5000; 7000; 3000; 8000] [1; 2]).
  - lia.
  - simpl. lia.
Defined.

End LatencyMore.

(** ** Theorems about the thread manager *)

Module ManagerFacts.
Import Wire Ring RingQueue Manager WireFacts RingFacts RingMore.

Local Abbreviation CAP := Latency.LATENCY_STATS_DEFAULT_CAPACITY.

Lemma capacity_range : 0 < QUEUE_CAPACITY < 2 ^ 64.
Proof. unfold QUEUE_CAPACITY. lia. Qed.

Lemma new_ring_ok (slots : list Packet) :
  slots_ok slots -> ring_ok QUEUE_PACKET_SIZE QUEUE_CAPACITY (LockFreeRingBuffer_new slots).
Proof.
  intros [Hl Hd]. constructor; cbn; try assumption; unfold QUEUE_CAPACITY; lia.
Qed.

Lemma run_snoc es e t : run (es ++ [e]) t = step e (run es t).
Proof. unfold run. now rewrite fold_left_app. Qed.

Lemma rx_datagrams_app es es' :
  rx_datagrams (es ++ es') = rx_datagrams es ++ rx_datagrams es'.
Proof.
  induction es as [|e es IH]; [reflexivity|].
  cbn [app rx_datagrams]. destruct e as [d|s a b|[bytes|] a b]; try exact IH.
  destruct (_ >? _); [|exact IH]. now rewrite IH.
Qed.

Lemma gaps_snoc (ts : list Z) (a b : Z) :
  gaps (ts ++ [a; b]) = gaps (ts ++ [a]) ++ [wrap 64 (b - a)].
Proof.
  induction ts as [|x ts IH]; [reflexivity|].
  destruct ts as [|y ts]; [reflexivity|].
  change ((x :: y :: ts) ++ [a; b]) with (x :: ((y :: ts) ++ [a; b])).
  change ((x :: y :: ts) ++ [a]) with (x :: ((y :: ts) ++ [a])).
  change (gaps (x :: (y :: ts) ++ [a; b]))
    with (wrap 64 (y - x) :: gaps ((y :: ts) ++ [a; b])).
  change (gaps (x :: (y :: ts) ++ [a]))
    with (wrap 64 (y - x) :: gaps ((y :: ts) ++ [a])).
  now rewrite IH.
Qed.

Lemma gaps_length (ts : list Z) : length (gaps ts) = (length ts - 1)%nat.
Proof.
  induction ts as [|a ts IH]; [reflexivity|].
  destruct ts as [|b ts]; [reflexivity|].
  change (gaps (a :: b :: ts)) with (wrap 64 (b - a) :: gaps (b :: ts)).
  cbn [length] in *. lia.
Qed.

Lemma wrap_succ (a : Z) : wrap 64 (wrap 64 a + 1) = wrap 64 (a + 1).
Proof. unfold wrap. now rewrite Z.add_mod_idemp_l by lia. Qed.

Lemma accepted_snoc log d (ok : bool) :
  accepted (log ++ [(d, ok)]) = accepted log ++ (if ok then [d] else []).
Proof.
  unfold accepted. rewrite List.filter_app, map_app. cbn. now destruct ok.
Qed.

Lemma refused_snoc log (d : list Z) (ok : bool) :
  length (refused (log ++ [(d, ok)]))
  = (length (refused log) + (if ok then 0 else 1))%nat.
Proof.
  unfold refused. rewrite List.filter_app, length_app. cbn. now destruct ok.
Qed.

Lemma sends_ok_snoc log (d : list Z) (sentLen : Z) :
  length (sends_ok (log ++ [(d, sentLen)]))
  = (length (sends_ok log) + (if sentLen >? 0 then 1 else 0))%nat.
Proof.
  unfold sends_ok. rewrite List.filter_app, length_app. cbn. now destruct (_ >? _).
Qed.

Lemma sends_failed_snoc log (d : list Z) (sentLen : Z) :
  length (sends_failed (log ++ [(d, sentLen)]))
  = (length (sends_failed log) + (if sentLen >? 0 then 0 else 1))%nat.
Proof.
  unfold sends_failed. rewrite List.filter_app, length_app. cbn. now destruct (_ >? _).
Qed.

Lemma sends_split (log : list (list Z * Z)) :
  length log = (length (sends_ok log) + length (sends_failed log))%nat.
Proof.
  induction log as [|c log IH]; [reflexivity|].
  unfold sends_ok, sends_failed in *. cbn [List.filter length].
  destruct (c.2 >? 0); cbn [negb length]; lia.
Qed.

Lemma calls_split (log : list (list Z * bool)) :
  length log = (length (accepted log) + length (refused log))%nat.
Proof.
  induction log as [|c log IH]; [reflexivity|].
  unfold accepted, refused in *. cbn [List.filter length map].
  destruct (c.2); cbn [negb length map]; lia.
Qed.

Lemma push_fits (data : list Z) rb :
  (push QUEUE_PACKET_SIZE QUEUE_CAPACITY data rb).1 = true ->
  Z.of_nat (length data) <= QUEUE_PACKET_SIZE.
Proof.
  rewrite push_unfold.
  destruct (Z.gtb_spec (Z.of_nat (length data)) QUEUE_PACKET_SIZE); [discriminate|lia].
Qed.

(** The packet at the head of a queue that continues a list of stored
    packets is one of them. *)
Lemma head_is_stored (xs zs : list (list Z)) (y : Z * list Z) (r : list (Z * list Z)) :
  map stored xs ++ y :: r = map stored zs -> exists d, y = stored d /\ In d zs.
Proof.
  intros E.
  assert (Hy : In y (map stored zs)).
  { rewrite <- E. apply List.in_or_app. right. now left. }
  apply List.in_map_iff in Hy. destruct Hy as (d & Hd & Hin). eauto.
Qed.

Lemma tx_inv_queue (data : list Z) (t : Threads) :
  tx_inv t -> tx_inv (step (QueueTx data) t).
Proof.
  intros [Hring Hreg Hfifo Hsizes Hsent Hdrop].
  cbn [step]. unfold queueTxPacket.
  destruct (push QUEUE_PACKET_SIZE QUEUE_CAPACITY data (m_txQueue (manager t)))
    as [ok q] eqn:E.
  assert (E1 : (push QUEUE_PACKET_SIZE QUEUE_CAPACITY data (m_txQueue (manager t))).1 = ok)
    by now rewrite E.
  assert (E2 : (push QUEUE_PACKET_SIZE QUEUE_CAPACITY data (m_txQueue (manager t))).2 = q)
    by now rewrite E.
  destruct ok.
  - destruct (push_true_ok _ _ capacity_range data _ Hring E1) as (Hok1 & _ & _).
    pose proof (push_appends _ _ capacity_range data _ Hring ltac:(reflexivity) E1) as Hq.
    rewrite E2 in Hok1, Hq.
    constructor;
      cbn [manager txBuffer send_log queue_log m_txQueue m_txPacketCount m_txDropCount].
    + exact Hok1.
    + exact Hreg.
    + rewrite accepted_snoc, map_app, Hq, app_assoc, Hfifo. reflexivity.
    + rewrite accepted_snoc. apply Forall_app. split; [exact Hsizes|].
      constructor; [|constructor]. now apply (push_fits data (m_txQueue (manager t))).
    + exact Hsent.
    + rewrite refused_snoc, Hdrop. f_equal. lia.
  - pose proof (push_false_unchanged _ _ data _ E1) as Hsame. rewrite E2 in Hsame.
    clear E E1 E2. subst q.
    constructor;
      cbn [manager txBuffer send_log queue_log m_txQueue m_txPacketCount m_txDropCount].
    + exact Hring.
    + exact Hreg.
    + rewrite accepted_snoc, app_nil_r. exact Hfifo.
    + rewrite accepted_snoc, app_nil_r. exact Hsizes.
    + exact Hsent.
    + rewrite refused_snoc, Hdrop, wrap_succ. f_equal. lia.
Qed.

Lemma tx_inv_pass (sentLen txStart txEnd : Z) (t : Threads) :
  tx_inv t -> tx_inv (step (TxPass sentLen txStart txEnd) t).
Proof.
  intros [Hring Hreg Hfifo Hsizes Hsent Hdrop].
  cbn [step]. unfold txThreadLoop_body.
  destruct (queued QUEUE_CAPACITY (m_txQueue (manager t))) as [|[l v] rest] eqn:Hq.
  - pose proof Hq as Hq0.
    apply (queued_nil_iff _ _ capacity_range _ Hring) in Hq.
    unfold pop. rewrite Hq, Z.eqb_refl.
    constructor;
      cbn [manager txBuffer send_log queue_log m_txQueue m_txPacketCount m_txDropCount];
      try assumption.
    rewrite Hq0. exact Hfifo.
  - destruct (head_is_stored _ _ _ _ Hfifo) as (d & Hd & Hin).
    injection Hd as -> ->.
    rewrite List.Forall_forall in Hsizes. pose proof (Hsizes d Hin) as Hfit.
    unfold QUEUE_PACKET_SIZE in Hfit. unfold THREAD_BUFFER_SIZE in Hreg.
    destruct (pop_removes_head QUEUE_PACKET_SIZE QUEUE_CAPACITY capacity_range
                (txBuffer t) (txLength t) _ _ d rest Hring Hq ltac:(lia))
      as (rb' & Hpop & Hok' & Hq' & _ & _).
    rewrite Hpop.
    assert (Htake : take (Z.to_nat (Z.of_nat (length d))) (d ++ drop (length d) (txBuffer t)) = d).
    { rewrite Nat2Z.id. now rewrite take_app_length. }
    rewrite Htake.
    constructor;
      cbn [manager txBuffer send_log queue_log m_txQueue m_txPacketCount m_txDropCount].
    + exact Hok'.
    + rewrite length_app, length_drop. unfold THREAD_BUFFER_SIZE. lia.
    + rewrite Hq', <- Hfifo, !map_app, <- app_assoc. reflexivity.
    + now apply List.Forall_forall.
    + rewrite sends_ok_snoc. destruct (sentLen >? 0).
      * rewrite Hsent, wrap_succ. f_equal. lia.
      * rewrite Hsent. f_equal. lia.
    + rewrite sends_failed_snoc. destruct (sentLen >? 0).
      * rewrite Hdrop. f_equal. lia.
      * rewrite Hdrop, wrap_succ. f_equal. lia.
Qed.

Lemma tx_inv_rx (recv : option (list Z)) (rxStart rxEnd : Z) (t : Threads) :
  tx_inv t -> tx_inv (step (RxPass recv rxStart rxEnd) t).
Proof.
  intros [Hring Hreg Hfifo Hsizes Hsent Hdrop].
  cbn [step]. unfold rxThreadLoop_body.
  destruct recv as [bytes|]; [destruct (_ >? 0); [destruct (push _ _ _ _) as [ok q]|]|];
    constructor;
    cbn [manager txBuffer send_log queue_log m_txQueue m_txPacketCount m_txDropCount];
    assumption.
Qed.

Lemma tx_inv_step (e : Event) (t : Threads) : tx_inv t -> tx_inv (step e t).
Proof.
  destruct e; [apply tx_inv_queue|apply tx_inv_pass|apply tx_inv_rx].
Qed.

Lemma tx_inv_run (es : list Event) (t : Threads) : tx_inv t -> tx_inv (run es t).
Proof.
  revert t. induction es as [|e es IH]; intros t Ht; [exact Ht|].
  cbn [run fold_left]. apply IH, tx_inv_step, Ht.
Qed.

Lemma tx_inv_started (m : UdpThreadManager) (buf : list Z) (len : Z) :
  ring_ok QUEUE_PACKET_SIZE QUEUE_CAPACITY m.(m_txQueue) ->
  isEmpty m.(m_txQueue) = true ->
  m.(m_txPacketCount) = 0 -> m.(m_txDropCount) = 0 ->
  Z.of_nat (length buf) = THREAD_BUFFER_SIZE ->
  tx_inv (started m buf len).
Proof.
  intros Hok He Hp Hd Hb.
  assert (Hq : queued QUEUE_CAPACITY (m_txQueue m) = []).
  { apply (queued_nil_iff _ _ capacity_range _ Hok). unfold isEmpty in He.
    now apply Z.eqb_eq. }
  constructor; cbn; try assumption.
  constructor.
Qed.

Lemma last_snoc_some {A : Type} (l : list A) (a : A) :
  List.last (map Some (l ++ [a])) None = Some a.
Proof. rewrite map_app. cbn [map]. apply List.last_last. Qed.

Lemma rx_inv_datagram (es : list Event) (bytes : list Z) (rxStart rxEnd : Z) (t : Threads) :
  0 < Z.of_nat (length bytes) <= THREAD_BUFFER_SIZE ->
  rx_inv es t ->
  rx_inv (es ++ [RxPass (Some bytes) rxStart rxEnd])
         (step (RxPass (Some bytes) rxStart rxEnd) t).
Proof.
  intros Hlen [Hring Hqueue Hcount Hdrop Hcb Hfirst Hlast Hint Hlat].
  unfold THREAD_BUFFER_SIZE in Hlen.
  assert (Hds : rx_datagrams (es ++ [RxPass (Some bytes) rxStart rxEnd])
                = rx_datagrams es ++ [(bytes, rxStart, rxEnd)]).
  { rewrite rx_datagrams_app. cbn [rx_datagrams].
    destruct (Z.gtb_spec (Z.of_nat (length bytes)) 0); [reflexivity|lia]. }
  set (ds := rx_datagrams es) in *.
  pose proof (queued_length QUEUE_CAPACITY (m_rxQueue (manager t))) as Hql.
  rewrite Hqueue, length_map, length_take, length_map in Hql.
  pose proof (held_range _ _ capacity_range _ Hring) as Hheld.
  change (Z.to_nat (QUEUE_CAPACITY - 1)) with 1023%nat in *.
  cbn [step]. unfold rxThreadLoop_body.
  destruct (Z.gtb_spec (Z.of_nat (length bytes)) 0) as [_|?]; [|lia].
  destruct (push QUEUE_PACKET_SIZE QUEUE_CAPACITY bytes (m_rxQueue (manager t)))
    as [ok q] eqn:E.
  assert (E1 : (push QUEUE_PACKET_SIZE QUEUE_CAPACITY bytes (m_rxQueue (manager t))).1 = ok)
    by now rewrite E.
  assert (E2 : (push QUEUE_PACKET_SIZE QUEUE_CAPACITY bytes (m_rxQueue (manager t))).2 = q)
    by now rewrite E.
  assert (Hfull : ok = false <-> (1023 <= length ds)%nat).
  { rewrite <- E1, (push_false_iff _ _ capacity_range bytes _ Hring).
    rewrite <- (next_index_plain _ capacity_range) by apply Hring.
    rewrite (full_iff_held _ _ capacity_range _ Hring).
    unfold QUEUE_PACKET_SIZE, QUEUE_CAPACITY in *. lia. }
  assert (Hq' : ring_ok QUEUE_PACKET_SIZE QUEUE_CAPACITY q /\
                queued QUEUE_CAPACITY q
                = map stored (take 1023 (map dg_bytes (ds ++ [(bytes, rxStart, rxEnd)])))).
  { destruct ok.
    - assert (Hroom : (length ds < 1023)%nat).
      { destruct (Nat.lt_ge_cases (length ds) 1023) as [?|Hge]; [assumption|].
        apply Hfull in Hge. discriminate. }
      destruct (push_true_ok _ _ capacity_range bytes _ Hring E1) as (Hok1 & _ & _).
      pose proof (push_appends _ _ capacity_range bytes _ Hring ltac:(reflexivity) E1) as Hq.
      rewrite E2 in Hok1, Hq. split; [exact Hok1|].
      rewrite Hq, Hqueue, map_app.
      rewrite (take_ge (map dg_bytes ds)) by (rewrite length_map; lia).
      rewrite take_ge by (rewrite length_app, length_map; cbn [length map]; lia).
      now rewrite map_app.
    - pose proof (push_false_unchanged _ _ bytes _ E1) as Hsame. rewrite E2 in Hsame.
      rewrite Hsame. split; [exact Hring|].
      rewrite Hqueue, map_app.
      rewrite take_app_le by (rewrite length_map; apply Hfull; reflexivity).
      reflexivity. }
  destruct Hq' as [Hring' Hqueue'].
  constructor;
    cbn [manager callback_log m_rxQueue m_rxPacketCount m_rxDropCount m_rxCallback
         m_firstRxPacket m_lastRxTime m_rxIntervalStats m_rxLatencyStats];
    rewrite ?Hds; change (Z.to_nat (QUEUE_CAPACITY - 1)) with 1023%nat.
  - exact Hring'.
  - exact Hqueue'.
  - rewrite Hcount, wrap_succ, length_app. cbn [length]. f_equal. lia.
  - rewrite length_app. cbn [length]. destruct ok.
    + rewrite Hdrop. apply (f_equal (wrap 64)).
      assert ((length ds < 1023)%nat).
      { destruct (Nat.lt_ge_cases (length ds) 1023) as [?|Hge]; [assumption|].
        apply Hfull in Hge. discriminate. }
      lia.
    + rewrite Hdrop, wrap_succ. apply (f_equal (wrap 64)).
      assert ((1023 <= length ds)%nat) by now apply Hfull.
      lia.
  - rewrite Hcb. destruct (m_rxCallback (manager t)); [|reflexivity].
    now rewrite map_app.
  - destruct ds; reflexivity.
  - intros d Hd. rewrite last_snoc_some in Hd. now injection Hd as <-.
  - rewrite Hfirst, Hint. destruct ds as [|d0 ds0] eqn:Eds; [reflexivity|].
    destruct (@exists_last _ (d0 :: ds0) ltac:(discriminate)) as (ds1 & d1 & Hsplit).
    rewrite Hsplit in Hlast |- *.
    rewrite (Hlast d1 (last_snoc_some ds1 d1)).
    rewrite <- app_assoc, !map_app. cbn [map app].
    replace (map dg_start ds1 ++ [dg_start d1; dg_start (bytes, rxStart, rxEnd)])
      with (map dg_start ds1 ++ [dg_start d1; rxStart]) by reflexivity.
    rewrite gaps_snoc.
    unfold recordSample_between. now rewrite LatencyFacts.record_all_snoc.
  - rewrite Hlat, map_app. cbn [map].
    unfold recordSample_between. now rewrite LatencyFacts.record_all_snoc.
Qed.

Lemma rx_inv_other (es : list Event) (e : Event) (t : Threads) :
  rx_datagrams [e] = [] ->
  rx_inv es t -> rx_inv (es ++ [e]) (step e t).
Proof.
  intros He [Hring Hqueue Hcount Hdrop Hcb Hfirst Hlast Hint Hlat].
  assert (Hds : rx_datagrams (es ++ [e]) = rx_datagrams es)
    by (rewrite rx_datagrams_app, He; apply app_nil_r).
  destruct e as [data|sentLen txStart txEnd|recv rxStart rxEnd]; cbn [step].
  - unfold queueTxPacket. destruct (push _ _ _ _) as [ok q].
    constructor;
      cbn [manager callback_log m_rxQueue m_rxPacketCount m_rxDropCount m_rxCallback
           m_firstRxPacket m_lastRxTime m_rxIntervalStats m_rxLatencyStats];
      rewrite ?Hds; assumption.
  - unfold txThreadLoop_body. destruct (pop _ _ _ _) as [[[popped buf] len] q].
    destruct popped;
      constructor;
      cbn [manager callback_log m_rxQueue m_rxPacketCount m_rxDropCount m_rxCallback
           m_firstRxPacket m_lastRxTime m_rxIntervalStats m_rxLatencyStats];
      rewrite ?Hds; assumption.
  - unfold rxThreadLoop_body. cbn [rx_datagrams] in He.
    destruct recv as [bytes|].
    + destruct (_ >? 0); [discriminate|].
      constructor; rewrite ?Hds; assumption.
    + constructor; rewrite ?Hds; assumption.
Qed.

Lemma rx_inv_run (es : list Event) (t : Threads) :
  Forall receive_fits es -> rx_inv [] t -> rx_inv es (run es t).
Proof.
  induction es as [|e es IH] using rev_ind; intros Hfit Ht; [exact Ht|].
  apply Forall_app in Hfit. destruct Hfit as [Hfit He].
  apply Forall_inv in He.
  rewrite run_snoc.
  destruct (rx_datagrams [e]) as [|d l] eqn:Ed.
  - apply rx_inv_other; [exact Ed|]. now apply IH.
  - destruct e as [data|sentLen txStart txEnd|[bytes|] rxStart rxEnd];
      try discriminate Ed.
    cbn [rx_datagrams] in Ed. cbn [receive_fits] in He.
    destruct (Z.gtb_spec (Z.of_nat (length bytes)) 0); [|discriminate Ed].
    apply rx_inv_datagram; [lia|]. now apply IH.
Qed.

Lemma rx_inv_started (m : UdpThreadManager) (buf : list Z) (len : Z) :
  ring_ok QUEUE_PACKET_SIZE QUEUE_CAPACITY m.(m_rxQueue) ->
  isEmpty m.(m_rxQueue) = true ->
  m.(m_rxPacketCount) = 0 -> m.(m_rxDropCount) = 0 ->
  m.(m_firstRxPacket) = true ->
  m.(m_rxIntervalStats) = Latency.LatencyStats_new CAP ->
  m.(m_rxLatencyStats) = Latency.LatencyStats_new CAP ->
  rx_inv [] (started m buf len).
Proof.
  intros Hok He Hp Hd Hf Hi Hl.
  assert (Hq : queued QUEUE_CAPACITY (m_rxQueue m) = []).
  { apply (queued_nil_iff _ _ capacity_range _ Hok). unfold isEmpty in He.
    now apply Z.eqb_eq. }
  constructor; cbn [manager callback_log started rx_datagrams map length]; try assumption.
  - now destruct (m_rxCallback m).
  - intros d Hd'. discriminate Hd'.
Qed.

Lemma new_manager_tx_inv (rxSlots txSlots : list Packet) (now : Z) (cb : bool)
  (buf : list Z) (len : Z) :
  slots_ok txSlots ->
  Z.of_nat (length buf) = THREAD_BUFFER_SIZE ->
  tx_inv (started (if cb then setRxCallback (UdpThreadManager_new rxSlots txSlots now)
                   else UdpThreadManager_new rxSlots txSlots now) buf len).
Proof.
  intros Hs Hb. apply tx_inv_started; try (now destruct cb).
  destruct cb; cbn; now apply new_ring_ok.
Qed.

Lemma new_manager_rx_inv (rxSlots txSlots : list Packet) (now : Z) (cb : bool)
  (buf : list Z) (len : Z) :
  slots_ok rxSlots ->
  rx_inv [] (started (if cb then setRxCallback (UdpThreadManager_new rxSlots txSlots now)
                      else UdpThreadManager_new rxSlots txSlots now) buf len).
Proof.
  intros Hs. apply rx_inv_started; try (now destruct cb).
  destruct cb; cbn; now apply new_ring_ok.
Qed.

Lemma logs_bounded (es : list Event) (t0 : Threads) :
  (length (queue_log (run es t0)) + length (send_log (run es t0))
   <= length (queue_log t0) + length (send_log t0) + length es)%nat.
Proof.
  induction es as [|e es IH] using rev_ind; [cbn; lia|].
  rewrite run_snoc, length_app. cbn [length].
  destruct e as [d|sl a b|r a b]; cbn [step].
  - unfold queueTxPacket. destruct (push _ _ _ _) as [ok q].
    cbn [queue_log send_log]. rewrite length_app. cbn [length]. lia.
  - unfold txThreadLoop_body. destruct (pop _ _ _ _) as [[[popped bf] ln] q].
    destruct popped; cbn [queue_log send_log]; [rewrite length_app; cbn [length]|]; lia.
  - destruct (rxThreadLoop_body _ _ _ _) as [h m]. cbn [queue_log send_log]. lia.
Qed.

Lemma step_callback_flag (e : Event) (t : Threads) :
  m_rxCallback (manager (step e t)) = m_rxCallback (manager t).
Proof.
  destruct e as [d|sl a b|r a b]; cbn [step].
  - unfold queueTxPacket. destruct (push _ _ _ _) as [ok q]. reflexivity.
  - unfold txThreadLoop_body. destruct (pop _ _ _ _) as [[[popped bf] ln] q].
    destruct popped; reflexivity.
  - unfold rxThreadLoop_body. destruct r as [bytes|]; [|reflexivity].
    destruct (_ >? 0); [|reflexivity]. destruct (push _ _ _ _) as [ok q]. reflexivity.
Qed.

Lemma callback_flag_run (es : list Event) (t0 : Threads) :
  m_rxCallback (manager (run es t0)) = m_rxCallback (manager t0).
Proof.
  induction es as [|e es IH] using rev_ind; [reflexivity|].
  now rewrite run_snoc, step_callback_flag.
Qed.

Lemma rx_datagrams_bounded (es : list Event) :
  (length (rx_datagrams es) <= length es)%nat.
Proof.
  induction es as [|e es IH]; [cbn; lia|].
  cbn [rx_datagrams length]. destruct e as [d|sl a b|[bytes|] a b]; try lia.
  destruct (_ >? 0); cbn [length]; lia.
Qed.

(** The plain form of [tx_fifo]. *)
Lemma tx_fifo_plain (t : Threads) :
  tx_inv t ->
  map fst t.(send_log) ++ map snd (queued QUEUE_CAPACITY t.(manager).(m_txQueue))
  = accepted t.(queue_log).
Proof.
  intros [_ _ Hfifo _ _ _].
  apply (f_equal (map snd)) in Hfifo.
  rewrite map_app, !map_map in Hfifo. cbn [stored snd] in Hfifo.
  now rewrite !map_id in Hfifo.
Qed.

(** X19 (transmit order): after any sequence of [queueTxPacket] calls and
    passes of the two thread loops on a new manager, the regions handed to
    [send], followed by the packets still waiting in the TX queue, are
    exactly the packets [queueTxPacket] accepted, in the order of the
    calls; each is at most 2048 bytes. *)
Theorem tx_path_keeps_order
  (rxSlots txSlots : list Packet) (now : Z) (buf : list Z) (len : Z) (es : list Event) :
  slots_ok txSlots ->
  Z.of_nat (length buf) = THREAD_BUFFER_SIZE ->
  let t := run es (started (UdpThreadManager_new rxSlots txSlots now) buf len) in
  map fst t.(send_log) ++ map snd (queued QUEUE_CAPACITY t.(manager).(m_txQueue))
  = accepted t.(queue_log) /\
  Forall (fun d => Z.of_nat (length d) <= QUEUE_PACKET_SIZE) (accepted t.(queue_log)).
Proof.
  intros Hs Hb t.
  pose proof (tx_inv_run es _ (new_manager_tx_inv rxSlots txSlots now false buf len Hs Hb))
    as Hinv.
  fold t in Hinv. split; [now apply tx_fifo_plain|apply Hinv].
Qed.

Lemma tx_path_keeps_order_witness :
  let slots := replicate 1024 (mkPacket 0 (replicate 2048 0)) in
  let es := [QueueTx [1; 2; 3]; QueueTx [4; 5]; TxPass 3 100 200; QueueTx [6]] in
  let t := run es (started (UdpThreadManager_new slots slots 0) (replicate 2048 0) 0) in
  map fst t.(send_log) ++ map snd (queued QUEUE_CAPACITY t.(manager).(m_txQueue))
  = accepted t.(queue_log).
Proof.
  intros slots es t.
  assert (Hs : slots_ok slots).
  { split; [reflexivity|]. apply Forall_replicate. reflexivity. }
  assert (Hb : Z.of_nat (length (replicate 2048 0)) = THREAD_BUFFER_SIZE) by reflexivity.
  exact (proj1 (tx_path_keeps_order slots slots 0 (replicate 2048 0) 0 es Hs Hb)).
Defined.

(** X20 (transmit accounting): after any sequence of fewer than 2^64 events
    on a new manager, the number of [queueTxPacket] calls equals the TX
    packet counter plus the TX drop counter plus the number of packets
    waiting in the TX queue; the packet counter is the number of positive
    results of [send], the drop counter the number of refused calls plus
    the number of other results of [send]. *)
Theorem tx_packets_accounted_for
  (rxSlots txSlots : list Packet) (now : Z) (buf : list Z) (len : Z) (es : list Event) :
  slots_ok txSlots ->
  Z.of_nat (length buf) = THREAD_BUFFER_SIZE ->
  Z.of_nat (length es) < 2 ^ 64 ->
  let t := run es (started (UdpThreadManager_new rxSlots txSlots now) buf len) in
  Z.of_nat (length t.(queue_log))
  = t.(manager).(m_txPacketCount) + t.(manager).(m_txDropCount)
    + size QUEUE_CAPACITY t.(manager).(m_txQueue) /\
  t.(manager).(m_txPacketCount) = Z.of_nat (length (sends_ok t.(send_log))) /\
  t.(manager).(m_txDropCount)
  = Z.of_nat (length (refused t.(queue_log)) + length (sends_failed t.(send_log))).
Proof.
  intros Hs Hb Hn t.
  pose proof (tx_inv_run es _ (new_manager_tx_inv rxSlots txSlots now false buf len Hs Hb))
    as [Hring _ Hfifo _ Hsent Hdrop].
  fold t in Hring, Hfifo, Hsent, Hdrop.
  pose proof (logs_bounded es (started (UdpThreadManager_new rxSlots txSlots now) buf len))
    as Hlogs.
  fold t in Hlogs. cbn [started queue_log send_log length] in Hlogs.
  pose proof (calls_split t.(queue_log)) as Hcalls.
  pose proof (sends_split t.(send_log)) as Hsends.
  pose proof (queued_length QUEUE_CAPACITY t.(manager).(m_txQueue)) as Hql.
  pose proof (held_range _ _ capacity_range _ Hring) as Hheld.
  apply (f_equal (@length _)) in Hfifo.
  rewrite length_app, !length_map in Hfifo.
  unfold accepted in Hcalls. rewrite length_map in Hcalls.
  unfold wrap in Hsent, Hdrop.
  assert (A1 : 0 <= Z.of_nat (length (sends_ok (send_log t))) < 2 ^ 64) by lia.
  assert (A2 : 0 <= Z.of_nat (length (refused (queue_log t))
                              + length (sends_failed (send_log t))) < 2 ^ 64) by lia.
  rewrite (Z.mod_small _ _ A1) in Hsent. rewrite (Z.mod_small _ _ A2) in Hdrop.
  split; [|split; assumption]. unfold accepted in Hfifo. rewrite length_map in Hfifo. lia.
Qed.

Lemma tx_packets_accounted_for_witness :
  let slots := replicate 1024 (mkPacket 0 (replicate 2048 0)) in
  let es := [QueueTx [1; 2; 3]; QueueTx [4; 5]; TxPass 3 100 200; TxPass 0 300 400] in
  let t := run es (started (UdpThreadManager_new slots slots 0) (replicate 2048 0) 0) in
  Z.of_nat (length t.(queue_log))
  = t.(manager).(m_txPacketCount) + t.(manager).(m_txDropCount)
    + size QUEUE_CAPACITY t.(manager).(m_txQueue).
Proof.
  intros slots es t.
  assert (Hs : slots_ok slots).
  { split; [reflexivity|]. apply Forall_replicate. reflexivity. }
  assert (Hb : Z.of_nat (length (replicate 2048 0)) = THREAD_BUFFER_SIZE) by reflexivity.
  assert (Hn : Z.of_nat (length es) < 2 ^ 64) by (simpl; lia).
  exact (proj1 (tx_packets_accounted_for slots slots 0 (replicate 2048 0) 0 es Hs Hb Hn)).
Defined.

(** X21 (the RX queue is filled and never emptied): after any sequence of
    fewer than 2^64 events on a new manager with a callback set, every
    datagram received has been handed to the callback, in order, and
    counted; the RX queue holds the first 1023 of them, and the RX drop
    counter is the number of datagrams after the first 1023, although
    these too went to the callback. *)
Theorem rx_queue_never_drained
  (rxSlots txSlots : list Packet) (now : Z) (buf : list Z) (len : Z) (es : list Event) :
  slots_ok rxSlots ->
  Forall receive_fits es ->
  Z.of_nat (length es) < 2 ^ 64 ->
  let t := run es (started (setRxCallback (UdpThreadManager_new rxSlots txSlots now))
                     buf len) in
  let received := map dg_bytes (rx_datagrams es) in
  t.(callback_log) = received /\
  t.(manager).(m_rxPacketCount) = Z.of_nat (length received) /\
  map snd (queued QUEUE_CAPACITY t.(manager).(m_rxQueue)) = take 1023 received /\
  t.(manager).(m_rxDropCount) = Z.max 0 (Z.of_nat (length received) - 1023).
Proof.
  intros Hs Hfit Hn t received.
  pose proof (rx_inv_run es _ Hfit (new_manager_rx_inv rxSlots txSlots now true buf len Hs))
    as [_ Hqueue Hcount Hdrop Hcb _ _ _ _].
  fold t in Hqueue, Hcount, Hdrop, Hcb.
  assert (Hflag : m_rxCallback (manager t) = true) by (unfold t; now rewrite callback_flag_run).
  pose proof (rx_datagrams_bounded es) as Hlen.
  rewrite Hflag in Hcb. unfold received. rewrite length_map.
  change (Z.to_nat (QUEUE_CAPACITY - 1)) with 1023%nat in *.
  unfold wrap in Hcount, Hdrop.
  rewrite Z.mod_small in Hcount by lia. rewrite Z.mod_small in Hdrop by lia.
  split; [exact Hcb|]. split; [exact Hcount|]. split.
  - rewrite Hqueue, map_map. cbn [stored snd]. now rewrite map_id.
  - rewrite Hdrop. lia.
Qed.

Lemma rx_queue_never_drained_witness :
  let slots := replicate 1024 (mkPacket 0 (replicate 2048 0)) in
  let es := [RxPass (Some [1; 2; 3]) 100 150; RxPass None 160 160;
             RxPass (Some [4; 5]) 300 320] in
  let t := run es (started (setRxCallback (UdpThreadManager_new slots slots 0))
                     (replicate 2048 0) 0) in
  t.(callback_log) = [[1; 2; 3]; [4; 5]] /\
  t.(manager).(m_rxPacketCount) = 2 /\
  map snd (queued QUEUE_CAPACITY t.(manager).(m_rxQueue)) = [[1; 2; 3]; [4; 5]] /\
  t.(manager).(m_rxDropCount) = 0.
Proof.
  intros slots es t.
  assert (Hs : slots_ok slots).
  { split; [reflexivity|]. apply Forall_replicate. reflexivity. }
  assert (Hfit : Forall receive_fits es).
  { repeat constructor; cbn; unfold THREAD_BUFFER_SIZE; lia. }
  assert (Hn : Z.of_nat (length es) < 2 ^ 64) by (simpl; lia).
  exact (rx_queue_never_drained slots slots 0 (replicate 2048 0) 0 es Hs Hfit Hn).
Defined.

(** X22 (RX samplers): after any sequence of events on a new manager, the
    latency sampler has recorded, for each datagram received, the span
    between its two clock values, and the interval sampler the spans
    between the first clock values of successive datagrams, so one sample
    fewer than datagrams and none for the first. *)
Theorem rx_samplers_record_spans
  (rxSlots txSlots : list Packet) (now : Z) (buf : list Z) (len : Z) (es : list Event) :
  slots_ok rxSlots ->
  Forall receive_fits es ->
  let t := run es (started (UdpThreadManager_new rxSlots txSlots now) buf len) in
  let ds := rx_datagrams es in
  t.(manager).(m_rxLatencyStats)
  = Latency.record_all CAP (map dg_span ds) (Latency.LatencyStats_new CAP) /\
  t.(manager).(m_rxIntervalStats)
  = Latency.record_all CAP (gaps (map dg_start ds)) (Latency.LatencyStats_new CAP) /\
  length (gaps (map dg_start ds)) = (length ds - 1)%nat.
Proof.
  intros Hs Hfit t ds.
  pose proof (rx_inv_run es _ Hfit (new_manager_rx_inv rxSlots txSlots now false buf len Hs))
    as [_ _ _ _ _ _ _ Hint Hlat].
  split; [exact Hlat|]. split; [exact Hint|].
  now rewrite gaps_length, length_map.
Qed.

Lemma rx_samplers_record_spans_witness :
  let slots := replicate 1024 (mkPacket 0 (replicate 2048 0)) in
  let es := [RxPass (Some [1; 2; 3]) 100 150; RxPass None 160 160;
             RxPass (Some [4; 5]) 300 320; RxPass (Some [6]) 450 455] in
  let t := run es (started (UdpThreadManager_new slots slots 0) (replicate 2048 0) 0) in
  t.(manager).(m_rxLatencyStats)
  = Latency.record_all CAP [50; 20; 5] (Latency.LatencyStats_new CAP) /\
  t.(manager).(m_rxIntervalStats)
  = Latency.record_all CAP [200; 150] (Latency.LatencyStats_new CAP).
Proof.
  intros slots es t.
  assert (Hs : slots_ok slots).
  { split; [reflexivity|]. apply Forall_replicate. reflexivity. }
  assert (Hfit : Forall receive_fits es).
  { repeat constructor; cbn; unfold THREAD_BUFFER_SIZE; lia. }
  destruct (rx_samplers_record_spans slots slots 0 (replicate 2048 0) 0 es Hs Hfit)
    as (H1 & H2 & _).
  split; [exact H1|exact H2].
Defined.

End ManagerFacts.

(** ** Theorems about the application *)

Module AppFacts.
Import Wire Packet Ring RingQueue Manager App.
Import WireFacts CodecFacts RingFacts RingMore ManagerFacts.

Lemma app_run_snoc es e a : app_run (es ++ [e]) a = app_step e (app_run es a).
Proof. unfold app_run. now rewrite fold_left_app. Qed.

Lemma ticks_snoc es e :
  ticks (es ++ [e]) = (ticks es + match e with TxTimer => 1 | _ => 0 end)%nat.
Proof.
  unfold ticks. rewrite List.filter_app, length_app. now destruct e.
Qed.

Lemma received_app es es' : received (es ++ es') = received es ++ received es'.
Proof.
  induction es as [|e es IH]; [reflexivity|].
  cbn [app received]. destruct e as [|s a b|[bytes|] a n b]; try exact IH.
  destruct (_ >? _); [|exact IH]. now rewrite IH.
Qed.

Lemma rx_lines_app l l' : rx_lines (l ++ l') = rx_lines l ++ rx_lines l'.
Proof.
  induction l as [|x l IH]; [reflexivity|].
  cbn [app rx_lines]. destruct x; try exact IH. now rewrite IH.
Qed.

Lemma decode_failures_app l l' :
  decode_failures (l ++ l') = decode_failures l ++ decode_failures l'.
Proof.
  induction l as [|x l IH]; [reflexivity|].
  cbn [app decode_failures]. destruct x; try exact IH. now rewrite IH.
Qed.

Lemma tx_payload_is_byte : Forall is_byte tx_payload.
Proof. unfold tx_payload. repeat constructor; unfold is_byte; lia. Qed.

Lemma TX_UNIQUE_ID_u32 : is_u32 TX_UNIQUE_ID.
Proof. unfold is_u32, TX_UNIQUE_ID. lia. Qed.

(** What one tick does to a TX packet that carries the identifier: the
    frame with the packet's lifesign goes to [queueTxPacket] and the
    lifesign advances. *)
Lemma txTimerCallback_unfold (a : App) :
  a.(tx_packet).(m_unique_id) = TX_UNIQUE_ID ->
  is_u16 a.(tx_packet).(m_lifesign) ->
  let frame := wire_frame TX_UNIQUE_ID a.(tx_packet).(m_lifesign) tx_payload in
  (txTimerCallback a).(threadMgr) = step (QueueTx frame) a.(threadMgr) /\
  (txTimerCallback a).(tx_packet).(m_unique_id) = TX_UNIQUE_ID /\
  (txTimerCallback a).(tx_packet).(m_lifesign)
  = wrap 16 (a.(tx_packet).(m_lifesign) + 1) /\
  (txTimerCallback a).(rx_packet) = a.(rx_packet) /\
  rx_lines (txTimerCallback a).(ui) = rx_lines a.(ui) /\
  decode_failures (txTimerCallback a).(ui) = decode_failures a.(ui).
Proof.
  intros Hid Hls frame.
  set (p1 := setDataPointer (Some tx_payload) a.(tx_packet)).
  assert (Hp1 : p1 = set_data (Some tx_payload) 15 (set_error NoError a.(tx_packet)))
    by reflexivity.
  assert (Hptr : p1.(m_data_ptr) = Some tx_payload) by reflexivity.
  assert (Hlen : p1.(m_data_length) = Z.of_nat (length tx_payload)) by reflexivity.
  assert (Hid1 : p1.(m_unique_id) = TX_UNIQUE_ID) by (rewrite Hp1; exact Hid).
  assert (Hls1 : p1.(m_lifesign) = a.(tx_packet).(m_lifesign)) by reflexivity.
  pose proof (encode_writes_frame p1 tx_payload (replicate (Z.to_nat TX_BUFFER_SIZE) 0)
                Hptr Hlen ltac:(cbn; lia)
                ltac:(rewrite length_replicate; unfold TX_BUFFER_SIZE, tx_payload;
                      cbn [length]; lia)) as Henc.
  rewrite Hid1, Hls1 in Henc. fold frame in Henc.
  unfold txTimerCallback. fold p1. rewrite Henc.
  change (12 + Z.of_nat (length tx_payload) >? 0) with true. cbv iota.
  assert (Hregion :
    take (Z.to_nat (12 + Z.of_nat (length tx_payload)))
      (frame ++ drop (12 + length tx_payload) (replicate (Z.to_nat TX_BUFFER_SIZE) 0))
    = frame).
  { apply take_app_length'. unfold frame. rewrite wire_frame_length. cbn. lia. }
  rewrite Hregion. clear Henc Hregion.
  generalize (Crc.calculateCrc32
                (header_bytes TX_UNIQUE_ID (m_lifesign (tx_packet a))
                   (Z.of_nat (length tx_payload)) ++ tx_payload)).
  intros crc. clearbody frame.
  cbn [threadMgr tx_packet rx_packet ui].
  split; [reflexivity|]. split; [exact Hid1|]. split; [reflexivity|].
  split; [reflexivity|].
  rewrite rx_lines_app, decode_failures_app.
  destruct ((queueTxPacket frame (manager (threadMgr a))).1);
    cbn [rx_lines decode_failures]; now rewrite !app_nil_r.
Qed.

Lemma step_queue_log_tx sentLen txStart txEnd t :
  queue_log (step (TxPass sentLen txStart txEnd) t) = queue_log t.
Proof.
  cbn [step]. unfold txThreadLoop_body.
  destruct (pop _ _ _ _) as [[[popped bf] ln] q]. now destruct popped.
Qed.

Lemma step_queue_log_rx recv rxStart rxEnd t :
  queue_log (step (RxPass recv rxStart rxEnd) t) = queue_log t.
Proof.
  cbn [step]. now destruct (rxThreadLoop_body _ _ _ _) as [h m].
Qed.

Lemma step_queue_log_push data t :
  queue_log (step (QueueTx data) t)
  = queue_log t
    ++ [(data, (push QUEUE_PACKET_SIZE QUEUE_CAPACITY data t.(manager).(m_txQueue)).1)].
Proof.
  cbn [step]. unfold queueTxPacket.
  now destruct (push _ _ _ _) as [ok q].
Qed.

Lemma rxPacketHandler_sender now data a :
  (rxPacketHandler now data a).(threadMgr) = a.(threadMgr) /\
  (rxPacketHandler now data a).(tx_packet) = a.(tx_packet).
Proof.
  unfold rxPacketHandler. now destruct (decode _ _ _) as [ok p].
Qed.

Lemma StronglySorted_snoc (ks : list nat) (n : nat) :
  StronglySorted lt ks -> Forall (fun k => (k < n)%nat) ks ->
  StronglySorted lt (ks ++ [n]).
Proof.
  induction 1 as [|k ks Hs IH Hk]; intros Hall.
  - repeat constructor.
  - apply Forall_cons in Hall. destruct Hall as [Hkn Hall].
    cbn [app]. constructor; [now apply IH|].
    apply Forall_app. split; [exact Hk|]. now repeat constructor.
Qed.

Lemma tick_frame_length k : length (tick_frame k) = 27%nat.
Proof. unfold tick_frame. now rewrite wire_frame_length. Qed.

Lemma sender_inv_step (es : list AppEvent) (e : AppEvent) (a : App) :
  sender_inv es a -> sender_inv (es ++ [e]) (app_step e a).
Proof.
  intros [Htx Hid Hls (ks & Hacc & Hsorted & Hbound & Hfull)].
  pose proof (ticks_snoc es e) as Hticks.
  destruct e as [|sentLen txStart txEnd|recv rxStart now rxEnd]; cbn [app_step];
    rewrite ?Nat.add_0_r in Hticks.
  - assert (Hu16 : is_u16 (m_lifesign (tx_packet a))).
    { rewrite Hls. unfold is_u16. change (2 ^ 16) with 65536.
      apply Z.mod_pos_bound. lia. }
    destruct (txTimerCallback_unfold a Hid Hu16) as (Ht & Hid' & Hls' & _).
    rewrite Hls in Ht. fold (tick_frame (ticks es)) in Ht.
    set (n := ticks es) in *.
    pose proof (step_queue_log_push (tick_frame n) (threadMgr a)) as Hlog.
    set (ok := (push QUEUE_PACKET_SIZE QUEUE_CAPACITY (tick_frame n)
                  (m_txQueue (manager (threadMgr a)))).1) in *.
    constructor; rewrite ?Hticks.
    + rewrite Ht. now apply tx_inv_step.
    + exact Hid'.
    + rewrite Hls', Hls. unfold wrap. change (2 ^ 16) with 65536.
      rewrite Z.add_mod_idemp_l by lia. f_equal. lia.
    + rewrite Ht, Hlog, accepted_snoc.
      destruct ok eqn:Eok.
      * exists (ks ++ [n]). split; [now rewrite map_app, Hacc|].
        split; [now apply StronglySorted_snoc|]. split.
        -- apply Forall_app. split.
           ++ eapply Forall_impl; [exact Hbound|]. intros k Hk. simpl in Hk |- *. lia.
           ++ repeat constructor. lia.
        -- intros Hn. rewrite Hfull by lia.
           replace (n + 1)%nat with (S n) by lia. now rewrite seq_S.
      * exists ks. rewrite app_nil_r. split; [exact Hacc|]. split; [exact Hsorted|].
        split.
        -- eapply Forall_impl; [exact Hbound|]. intros k Hk. simpl in Hk |- *. lia.
        -- intros Hn. exfalso.
           pose proof (tx_ring _ Htx) as Hring.
           apply (push_false_iff _ _ capacity_range _ _ Hring) in Eok.
           rewrite tick_frame_length in Eok.
           destruct Eok as [Hbig|Hfl]; [unfold QUEUE_PACKET_SIZE in Hbig; lia|].
           rewrite <- (next_index_plain _ capacity_range) in Hfl by apply Hring.
           apply (full_iff_held _ _ capacity_range _ Hring) in Hfl.
           pose proof (tx_fifo _ Htx) as Hfifo.
           apply (f_equal (@length _)) in Hfifo.
           rewrite length_app, !length_map, Hacc, length_map, Hfull, length_seq in Hfifo
             by lia.
           pose proof (queued_length QUEUE_CAPACITY (m_txQueue (manager (threadMgr a))))
             as Hql.
           unfold QUEUE_CAPACITY in *. lia.
  - constructor; cbn [threadMgr tx_packet]; rewrite ?Hticks.
    + now apply tx_inv_step.
    + exact Hid.
    + exact Hls.
    + rewrite step_queue_log_tx. exists ks. auto.
  - set (a1 := {| threadMgr := step (RxPass recv rxStart rxEnd) (threadMgr a);
                  tx_packet := tx_packet a; rx_packet := rx_packet a; ui := ui a |}).
    assert (Ha1 : sender_inv es a1).
    { constructor; cbn [a1 threadMgr tx_packet].
      - now apply tx_inv_step.
      - exact Hid.
      - exact Hls.
      - rewrite step_queue_log_rx. exists ks. auto. }
    destruct ((rxThreadLoop_body recv rxStart rxEnd (manager (threadMgr a))).1)
      as [region|].
    2:{ destruct Ha1 as [H1 H2 H3 H4]. constructor; rewrite ?Hticks; assumption. }
    destruct (rxPacketHandler_sender now region a1) as [E1 E2].
    destruct Ha1 as [H1 H2 H3 H4].
    constructor; rewrite ?E1, ?E2, ?Hticks; assumption.
Qed.

Lemma sender_inv_run (es : list AppEvent) (a : App) :
  sender_inv [] a -> sender_inv es (app_run es a).
Proof.
  intros Ha. induction es as [|e es IH] using rev_ind; [exact Ha|].
  rewrite app_run_snoc. now apply sender_inv_step.
Qed.

Lemma sender_inv_start rxSlots txSlots c1 c2 c3 c4 c5 (buf : list Z) len :
  slots_ok txSlots ->
  Z.of_nat (length buf) = THREAD_BUFFER_SIZE ->
  sender_inv [] (main_start rxSlots txSlots c1 c2 c3 c4 c5 buf len).
Proof.
  intros Hs Hb. constructor; cbn [main_start threadMgr tx_packet].
  - exact (new_manager_tx_inv rxSlots txSlots c5 true buf len Hs Hb).
  - reflexivity.
  - reflexivity.
  - exists []. repeat split; constructor.
Qed.

Lemma header_fields_wire_frame id ls (payload : list Z) :
  is_u32 id -> is_u16 ls -> (length payload <= 256)%nat ->
  header_fields (wire_frame id ls payload) = (id, ls, Z.of_nat (length payload)).
Proof.
  intros Hid Hls Hlen. unfold header_fields, wire_frame. cbv zeta.
  rewrite <- app_assoc.
  assert (HN : is_u16 (Z.of_nat (length payload))) by (unfold is_u16; simpl; lia).
  destruct (read_header id ls (Z.of_nat (length payload))
              (payload ++ le_bytes 4 (Crc.calculateCrc32
                 (header_bytes id ls (Z.of_nat (length payload)) ++ payload)))
              Hid Hls HN) as (H1 & H2 & H3).
  cbv zeta in H1, H2, H3. now rewrite H1, H2, H3.
Qed.

Lemma tick_frame_is_frame k :
  is_frame (tick_frame k) /\
  header_fields (tick_frame k) = (TX_UNIQUE_ID, Z.of_nat k mod 65536, 15).
Proof.
  assert (Hls : is_u16 (Z.of_nat k mod 65536)).
  { unfold is_u16. change (2 ^ 16) with 65536. apply Z.mod_pos_bound. lia. }
  split.
  - exists TX_UNIQUE_ID, (Z.of_nat k mod 65536), tx_payload.
    split; [reflexivity|]. split; [apply TX_UNIQUE_ID_u32|]. split; [exact Hls|].
    split; [apply tx_payload_is_byte|]. cbn. lia.
  - unfold tick_frame.
    rewrite header_fields_wire_frame by (try apply TX_UNIQUE_ID_u32; try exact Hls; cbn; lia).
    reflexivity.
Qed.

Lemma decoded_fields now ls N id rx c d :
  let p := set_error NoError
             (set_crc32 c (set_data_ptr d
                (updateReceivedLifesign now ls (set_data_length N (set_unique_id id rx))))) in
  p.(m_unique_id) = id /\ p.(m_rx_lifesign) = ls /\ p.(m_data_length) = N.
Proof. repeat split. Qed.

Lemma rxPacketHandler_frame now (bytes : list Z) a :
  is_frame bytes ->
  let a' := rxPacketHandler now bytes a in
  a'.(threadMgr) = a.(threadMgr) /\
  rx_lines a'.(ui) = rx_lines a.(ui) ++ [header_fields bytes] /\
  decode_failures a'.(ui) = decode_failures a.(ui).
Proof.
  intros (id & ls & payload & -> & Hid & Hls & Hpl & Hlen) a'.
  pose proof (decode_wire_frame now a.(rx_packet) id ls payload Hid Hls Hpl Hlen) as Hdec.
  cbv zeta in Hdec.
  pose proof (header_fields_wire_frame id ls payload Hid Hls Hlen) as Hhf.
  unfold a', rxPacketHandler. rewrite Hdec. clear Hdec.
  generalize (Crc.calculateCrc32 (header_bytes id ls (Z.of_nat (length payload)) ++ payload)).
  intros c.
  generalize (if Z.of_nat (length payload) >? 0
              then Some (drop 8 (wire_frame id ls payload)) else None).
  intros d.
  destruct (decoded_fields now ls (Z.of_nat (length payload)) id a.(rx_packet) c d)
    as (F1 & F2 & F3).
  cbv zeta in F1, F2, F3.
  set (p := set_error NoError _) in *. clearbody p.
  cbn [threadMgr ui]. split; [reflexivity|].
  rewrite rx_lines_app, decode_failures_app, F1, F2, F3, Hhf.
  destruct (isCommUnstable p); cbn [rx_lines decode_failures];
    now rewrite ?app_nil_r.
Qed.

Lemma txTimerCallback_receiver a :
  m_rxCallback (manager (threadMgr (txTimerCallback a)))
  = m_rxCallback (manager (threadMgr a)) /\
  rx_lines (txTimerCallback a).(ui) = rx_lines a.(ui) /\
  decode_failures (txTimerCallback a).(ui) = decode_failures a.(ui).
Proof.
  unfold txTimerCallback.
  destruct (encode _ _) as [[encoded_len buffer] p2].
  destruct (encoded_len >? 0); cbn [threadMgr ui]; [|auto].
  rewrite step_callback_flag, rx_lines_app, decode_failures_app.
  destruct ((queueTxPacket _ _).1); cbn [rx_lines decode_failures];
    now rewrite !app_nil_r.
Qed.

Lemma receiver_inv_step (es : list AppEvent) (e : AppEvent) (a : App) :
  Forall is_frame (received [e]) ->
  receiver_inv es a -> receiver_inv (es ++ [e]) (app_step e a).
Proof.
  intros Hfr [Hcb Hlines Hfail].
  pose proof (received_app es [e]) as Hrecv.
  destruct e as [|sentLen txStart txEnd|recv rxStart now rxEnd]; cbn [app_step].
  - destruct (txTimerCallback_receiver a) as (E1 & E2 & E3).
    cbn [received] in Hrecv. rewrite app_nil_r in Hrecv.
    constructor; rewrite ?E1, ?E2, ?E3, ?Hrecv; assumption.
  - cbn [received] in Hrecv. rewrite app_nil_r in Hrecv.
    constructor; cbn [threadMgr ui]; rewrite ?Hrecv, ?step_callback_flag; assumption.
  - set (a1 := {| threadMgr := step (RxPass recv rxStart rxEnd) (threadMgr a);
                  tx_packet := tx_packet a; rx_packet := rx_packet a; ui := ui a |}).
    assert (Hcb1 : m_rxCallback (manager (threadMgr a1)) = true)
      by (cbn [a1 threadMgr]; now rewrite step_callback_flag).
    cbn [received] in Hfr, Hrecv. unfold rxThreadLoop_body.
    destruct recv as [bytes|].
    + destruct (Z.of_nat (length bytes) >? 0).
      * destruct (push _ _ _ _) as [ok q]. cbn [fst]. rewrite Hcb.
        apply Forall_inv in Hfr.
        destruct (rxPacketHandler_frame now bytes a1 Hfr) as (E1 & E2 & E3).
        constructor; rewrite ?E1, ?E2, ?E3, ?Hrecv; cbn [a1 ui];
          [exact Hcb1| |exact Hfail].
        now rewrite Hlines, map_app.
      * cbn [fst]. rewrite app_nil_r in Hrecv.
        constructor; cbn [a1 threadMgr ui]; rewrite ?Hrecv; assumption.
    + cbn [fst]. rewrite app_nil_r in Hrecv.
      constructor; cbn [a1 threadMgr ui]; rewrite ?Hrecv; assumption.
Qed.

Lemma receiver_inv_run (es : list AppEvent) (a : App) :
  Forall is_frame (received es) ->
  receiver_inv [] a -> receiver_inv es (app_run es a).
Proof.
  intros Hfr Ha. induction es as [|e es IH] using rev_ind; [exact Ha|].
  rewrite received_app in Hfr. apply Forall_app in Hfr. destruct Hfr as [Hfr He].
  rewrite app_run_snoc. apply receiver_inv_step; [exact He|]. now apply IH.
Qed.

(** X23 (timer frames reach [send] numbered and in order): after any
    sequence of timer ticks and passes of the two thread loops, the
    regions handed to [send], followed by the packets waiting in the TX
    queue, are the frames of the ticks [ks], a strictly increasing list of
    tick numbers, each frame carrying the identifier 0x12345678, the tick
    number modulo 65536 as lifesign and the 15 payload bytes; no tick is
    left out as long as at most 1023 ticks have occurred. *)
Theorem tx_timer_frames_reach_send
  (rxSlots txSlots : list Packet) (c1 c2 c3 c4 c5 : Z) (buf : list Z) (len : Z)
  (es : list AppEvent) :
  slots_ok txSlots ->
  Z.of_nat (length buf) = THREAD_BUFFER_SIZE ->
  let a := app_run es (main_start rxSlots txSlots c1 c2 c3 c4 c5 buf len) in
  exists ks,
    map fst a.(threadMgr).(send_log)
    ++ map snd (queued QUEUE_CAPACITY a.(threadMgr).(manager).(m_txQueue))
    = map tick_frame ks /\
    StronglySorted lt ks /\
    Forall (fun k => (k < ticks es)%nat) ks /\
    ((ticks es <= 1023)%nat -> ks = seq 0 (ticks es)) /\
    forall k, is_frame (tick_frame k) /\
              length (tick_frame k) = 27%nat /\
              header_fields (tick_frame k) = (TX_UNIQUE_ID, Z.of_nat k mod 65536, 15).
Proof.
  intros Hs Hb a.
  destruct (sender_inv_run es _ (sender_inv_start rxSlots txSlots c1 c2 c3 c4 c5 buf len Hs Hb))
    as [Htx _ _ (ks & Hacc & Hsorted & Hbound & Hfull)].
  fold a in Htx, Hacc. exists ks.
  split; [now rewrite (tx_fifo_plain _ Htx)|].
  split; [exact Hsorted|]. split; [exact Hbound|]. split; [exact Hfull|].
  intros k. destruct (tick_frame_is_frame k) as [H1 H2].
  split; [exact H1|]. split; [apply tick_frame_length|exact H2].
Qed.

Lemma tx_timer_frames_reach_send_witness :
  let slots := replicate 1024 (mkPacket 0 (replicate 2048 0)) in
  let es := [TxTimer; TxThread 27 10 20; TxTimer; TxTimer; TxThread 27 30 40] in
  let a := app_run es (main_start slots slots 0 0 0 0 0 (replicate 2048 0) 0) in
  map fst a.(threadMgr).(send_log)
  ++ map snd (queued QUEUE_CAPACITY a.(threadMgr).(manager).(m_txQueue))
  = [tick_frame 0; tick_frame 1; tick_frame 2].
Proof.
  intros slots es a.
  assert (Hs : slots_ok slots).
  { split; [reflexivity|]. apply Forall_replicate. reflexivity. }
  assert (Hb : Z.of_nat (length (replicate 2048 0)) = THREAD_BUFFER_SIZE) by reflexivity.
  destruct (tx_timer_frames_reach_send slots slots 0 0 0 0 0 (replicate 2048 0) 0 es Hs Hb)
    as (ks & Hk & _ & _ & Hfull & _).
  fold a in Hk. rewrite Hk, Hfull; [reflexivity|].
  unfold ticks, es. cbn [List.filter length]. lia.
Defined.

(** X24 (the receive handler reports every frame): if every datagram
    received is a frame of the wire format, then after any sequence of
    timer ticks and thread passes the terminal shows no failed decode and
    its [RX] lines give, datagram by datagram and in the order received,
    the identifier, the lifesign and the payload length found in the
    header. *)
Theorem rx_handler_reports_every_frame
  (rxSlots txSlots : list Packet) (c1 c2 c3 c4 c5 : Z) (buf : list Z) (len : Z)
  (es : list AppEvent) :
  Forall is_frame (received es) ->
  let a := app_run es (main_start rxSlots txSlots c1 c2 c3 c4 c5 buf len) in
  decode_failures a.(ui) = [] /\
  rx_lines a.(ui) = map header_fields (received es).
Proof.
  intros Hfr a.
  assert (H0 : receiver_inv [] (main_start rxSlots txSlots c1 c2 c3 c4 c5 buf len))
    by (constructor; reflexivity).
  destruct (receiver_inv_run es _ Hfr H0) as [_ Hlines Hfail].
  split; assumption.
Qed.

Lemma rx_handler_reports_every_frame_witness :
  let slots := replicate 1024 (mkPacket 0 (replicate 2048 0)) in
  let es := [RxThread (Some (tick_frame 0)) 10 11 12; TxTimer;
             RxThread (Some (tick_frame 1)) 20 21 22] in
  let a := app_run es (main_start slots slots 0 0 0 0 0 (replicate 2048 0) 0) in
  decode_failures a.(ui) = [] /\
  rx_lines a.(ui) = [(TX_UNIQUE_ID, 0, 15); (TX_UNIQUE_ID, 1, 15)].
Proof.
  intros slots es a.
  assert (Hrecv : received es = [tick_frame 0; tick_frame 1]).
  { unfold es. cbn [received]. rewrite !tick_frame_length. reflexivity. }
  assert (Hfr : Forall is_frame (received es)).
  { rewrite Hrecv. repeat constructor; apply tick_frame_is_frame. }
  destruct (rx_handler_reports_every_frame slots slots 0 0 0 0 0 (replicate 2048 0) 0 es Hfr)
    as [H1 H2].
  fold a in H1, H2. split; [exact H1|].
  rewrite H2, Hrecv. cbn [map].
  rewrite (proj2 (tick_frame_is_frame 0)), (proj2 (tick_frame_is_frame 1)). reflexivity.
Defined.

End AppFacts.

(** ** Theorems about the timer handle *)

Module TimerFacts.
Import Timer.

(** X25 (timer intervals are exact): for every 32-bit number of
    milliseconds, [msec2nsec] does not wrap and [initialize], once
    [timerfd_create] has succeeded, hands [timerfd_settime] a first
    expiration of [msec / 1000] seconds and [(msec mod 1000) * 10^6]
    nanoseconds, a valid setting that is zero only for 0 ms, with the same
    period if the timer is periodic and none otherwise; likewise
    [sec2nsec] does not wrap. *)
Theorem timer_interval_is_exact (msec : Z) (periodic : bool) (created ret : Z)
  (h : TimerHandle) :
  0 <= msec < 2 ^ 32 ->
  0 <= created ->
  msec2nsec msec = msec * 1000000 /\
  sec2nsec msec = msec * 1000000000 /\
  exists spec,
    (initialize (msec2nsec msec) periodic created ret h).1 = Some spec /\
    spec.(it_value_sec) = msec / 1000 /\
    spec.(it_value_nsec) = (msec mod 1000) * 1000000 /\
    0 <= spec.(it_value_nsec) < NSEC_PER_SEC /\
    (spec.(it_value_sec) = 0 /\ spec.(it_value_nsec) = 0 <-> msec = 0) /\
    spec.(it_interval_sec) = (if periodic then spec.(it_value_sec) else 0) /\
    spec.(it_interval_nsec) = (if periodic then spec.(it_value_nsec) else 0).
Proof.
  intros Hm Hc.
  assert (H1 : msec2nsec msec = msec * 1000000).
  { unfold msec2nsec, wrap, NSEC_PER_MSEC. apply Z.mod_small. lia. }
  assert (H2 : sec2nsec msec = msec * 1000000000).
  { unfold sec2nsec, wrap, NSEC_PER_SEC. apply Z.mod_small. lia. }
  split; [exact H1|]. split; [exact H2|].
  unfold initialize. destruct (Z.ltb_spec created 0) as [?|_]; [lia|].
  rewrite H1. unfold NSEC_PER_SEC. cbn [fst].
  eexists. split; [reflexivity|]. cbn [it_value_sec it_value_nsec it_interval_sec it_interval_nsec].
  assert (Hs : msec * 1000000 / 1000000000 = msec / 1000).
  { replace 1000000000 with (1000000 * 1000) by reflexivity.
    rewrite <- Z.div_div by lia. now rewrite Z.div_mul by lia. }
  assert (Hn : (msec * 1000000) mod 1000000000 = (msec mod 1000) * 1000000).
  { replace 1000000000 with (1000 * 1000000) by reflexivity.
    rewrite Z.mul_mod_distr_r by lia. reflexivity. }
  rewrite Hs, Hn.
  pose proof (Z.mod_pos_bound msec 1000 ltac:(lia)) as Hb.
  pose proof (Z.div_mod msec 1000 ltac:(lia)) as Hd.
  split; [reflexivity|]. split; [reflexivity|]. split; [lia|].
  split; [|split; reflexivity].
  split; [intros [A B]|intros ->; split; reflexivity]. lia.
Qed.

Lemma timer_interval_is_exact_witness :
  (initialize (msec2nsec 100) true 5 0 TimerHandle_new).1
  = Some {| it_value_sec := 0; it_value_nsec := 100000000;
            it_interval_sec := 0; it_interval_nsec := 100000000 |}.
Proof.
  destruct (timer_interval_is_exact 100 true 5 0 TimerHandle_new ltac:(lia) ltac:(lia))
    as (_ & _ & spec & Hspec & _).
  rewrite Hspec. vm_compute in Hspec. exact (eq_sym Hspec).
Defined.

End TimerFacts.

(** ** Theorems about the command line *)

Module ArgParserFacts.
Import Stdlib.Strings.String.
Import ArgParser.

Section Parser.

Variable parseAddrPort : String.string -> ParseOutcome.

Local Abbreviation scan := (scan parseAddrPort).
Local Abbreviation last_parsed := (last_parsed parseAddrPort).
Local Abbreviation has_parsed := (has_parsed parseAddrPort).
Local Abbreviation has_malformed := (has_malformed parseAddrPort).

Lemma flags_of_lor (b0 b1 b2 b3 : bool) :
  Z.lor (flags_of b0 b1 b2 b3) PARSE_FLAG_HAS_SRC = flags_of true b1 b2 b3 /\
  Z.lor (flags_of b0 b1 b2 b3) PARSE_FLAG_HAS_DST = flags_of b0 true b2 b3 /\
  Z.lor (flags_of b0 b1 b2 b3) PARSE_FLAG_ERR_SRC_FMT = flags_of b0 b1 true b3 /\
  Z.lor (flags_of b0 b1 b2 b3) PARSE_FLAG_ERR_DST_FMT = flags_of b0 b1 b2 true.
Proof. destruct b0, b1, b2, b3; repeat split; reflexivity. Qed.

Lemma flags_of_check (b0 b1 b2 b3 : bool) :
  (Z.land (flags_of b0 b1 b2 b3) PARSE_FLAG_REQUIRED_MASK =? PARSE_FLAG_REQUIRED_MASK)
  && (Z.land (flags_of b0 b1 b2 b3) PARSE_FLAG_ERROR_MASK =? 0)
  = b0 && b1 && negb b2 && negb b3.
Proof. destruct b0, b1, b2, b3; reflexivity. Qed.

Lemma scan_options (argv : list String.string) (b0 b1 b2 b3 : bool) (args : UdpPeerArgs) :
  Forall (no_throw parseAddrPort) (options argv) ->
  exists args',
    scan argv (flags_of b0 b1 b2 b3) args
    = Some (flags_of (b0 || has_parsed Src (options argv))
                     (b1 || has_parsed Dst (options argv))
                     (b2 || has_malformed Src (options argv))
                     (b3 || has_malformed Dst (options argv)),
            args') /\
    (args'.(src_addr), args'.(src_port))
    = last_parsed Src (options argv) args.(src_addr) args.(src_port) /\
    (args'.(dst_addr), args'.(dst_port))
    = last_parsed Dst (options argv) args.(dst_addr) args.(dst_port).
Proof.
  assert (Hnil : forall b0 b1 b2 b3 args,
    exists args',
      Some (flags_of b0 b1 b2 b3, args)
      = Some (flags_of (b0 || false) (b1 || false) (b2 || false) (b3 || false), args') /\
      (args'.(src_addr), args'.(src_port)) = (args.(src_addr), args.(src_port)) /\
      (args'.(dst_addr), args'.(dst_port)) = (args.(dst_addr), args.(dst_port))).
  { intros c0 c1 c2 c3 a. exists a. now rewrite !orb_false_r. }
  remember (List.length argv) as n eqn:Hn.
  revert argv Hn b0 b1 b2 b3 args.
  induction n as [n IH] using lt_wf_ind.
  intros argv Hn b0 b1 b2 b3 args Hthrow.
  destruct argv as [|arg [|token rest']]; [apply Hnil|apply Hnil|].
  cbn [ArgParser.scan options] in *.
  destruct (flags_of_lor b0 b1 b2 b3) as (L0 & L1 & L2 & L3).
  destruct (String.eqb arg "--src"%string) eqn:Esrc.
  - apply Forall_cons in Hthrow. destruct Hthrow as [Hth Hthrow].
    unfold no_throw in Hth. cbn [snd] in Hth.
    unfold ArgParser.has_parsed, ArgParser.has_malformed.
    cbn [existsb fst snd side_eqb ArgParser.last_parsed andb].
    destruct (parseAddrPort token) as [addr port| |] eqn:Ep; [| |congruence].
    + rewrite L0.
      destruct (IH (List.length rest') ltac:(subst n; cbn [List.length]; lia) rest' eq_refl
                  true b1 b2 b3
                  {| src_addr := addr; src_port := port;
                     dst_addr := dst_addr args; dst_port := dst_port args |} Hthrow)
        as (args' & Hscan & Hs & Hd).
      exists args'. cbn [orb] in Hscan |- *. rewrite !orb_true_r.
      split; [exact Hscan|]. split; [exact Hs|exact Hd].
    + rewrite L2.
      destruct (IH (List.length rest') ltac:(subst n; cbn [List.length]; lia) rest' eq_refl
                  b0 b1 true b3 args Hthrow)
        as (args' & Hscan & Hs & Hd).
      exists args'. cbn [orb] in Hscan |- *. rewrite !orb_true_r.
      split; [exact Hscan|]. split; [exact Hs|exact Hd].
  - destruct (String.eqb arg "--dst"%string) eqn:Edst.
    + apply Forall_cons in Hthrow. destruct Hthrow as [Hth Hthrow].
      unfold no_throw in Hth. cbn [snd] in Hth.
      unfold ArgParser.has_parsed, ArgParser.has_malformed.
      cbn [existsb fst snd side_eqb ArgParser.last_parsed andb].
      destruct (parseAddrPort token) as [addr port| |] eqn:Ep; [| |congruence].
      * rewrite L1.
        destruct (IH (List.length rest') ltac:(subst n; cbn [List.length]; lia) rest' eq_refl
                    b0 true b2 b3
                    {| src_addr := src_addr args; src_port := src_port args;
                       dst_addr := addr; dst_port := port |} Hthrow)
          as (args' & Hscan & Hs & Hd).
        exists args'. cbn [orb] in Hscan |- *. rewrite !orb_true_r.
        split; [exact Hscan|]. split; [exact Hs|exact Hd].
      * rewrite L3.
        destruct (IH (List.length rest') ltac:(subst n; cbn [List.length]; lia) rest' eq_refl
                    b0 b1 b2 true args Hthrow)
          as (args' & Hscan & Hs & Hd).
        exists args'. cbn [orb] in Hscan |- *. rewrite !orb_true_r.
        split; [exact Hscan|]. split; [exact Hs|exact Hd].
    + exact (IH (List.length (token :: rest')) ltac:(subst n; cbn [List.length]; lia)
                (token :: rest') eq_refl b0 b1 b2 b3 args Hthrow).
Qed.

Lemma has_parsed_spec (side : Side) (opts : list (Side * String.string)) :
  has_parsed side opts = true <->
  exists token, In (side, token) opts /\ well_formed parseAddrPort (side, token).
Proof.
  unfold ArgParser.has_parsed. rewrite existsb_exists. split.
  - intros ([s token] & Hin & Hc). cbn [fst snd] in Hc.
    apply andb_true_iff in Hc. destruct Hc as [Hs Hp].
    assert (s = side) by (destruct s, side; (reflexivity || discriminate)). subst s.
    exists token. split; [exact Hin|]. unfold well_formed. cbn [snd].
    destruct (parseAddrPort token); try discriminate. eauto.
  - intros (token & Hin & addr & port & Hp). cbn [snd] in Hp.
    exists (side, token). split; [exact Hin|]. cbn [fst snd]. rewrite Hp.
    now destruct side.
Qed.

Lemma has_malformed_spec (side : Side) (opts : list (Side * String.string)) :
  has_malformed side opts = true <->
  exists token, In (side, token) opts /\ parseAddrPort token = Malformed.
Proof.
  unfold ArgParser.has_malformed. rewrite existsb_exists. split.
  - intros ([s token] & Hin & Hc). cbn [fst snd] in Hc.
    apply andb_true_iff in Hc. destruct Hc as [Hs Hp].
    assert (s = side) by (destruct s, side; (reflexivity || discriminate)). subst s.
    exists token. split; [exact Hin|].
    destruct (parseAddrPort token); try discriminate. reflexivity.
  - intros (token & Hin & Hp).
    exists (side, token). split; [exact Hin|]. cbn [fst snd]. rewrite Hp.
    now destruct side.
Qed.

End Parser.

(** X26 (what [parseUdpPeerArgs] accepts): if [parseAddrPort] throws on the
    token of no option, the call returns true exactly when the arguments hold a [--src] and a
    [--dst] option and the token of every such option is well formed, one
    malformed token making it fail whatever follows; [args] then holds for
    each side the address and port of the last well-formed token, and is
    left as it was for a side without one.  An option is a [--src] or
    [--dst] that is not the last argument, with the next argument as its
    token, whatever that is. *)
Theorem parseUdpPeerArgs_accepts
  (parseAddrPort : String.string -> ParseOutcome)
  (argv : list String.string) (args : UdpPeerArgs) :
  let opts := options (tl argv) in
  Forall (no_throw parseAddrPort) opts ->
  exists ok args',
    parseUdpPeerArgs parseAddrPort argv args = Some (ok, args') /\
    (ok = true <->
       (exists token, In (Src, token) opts) /\
       (exists token, In (Dst, token) opts) /\
       Forall (well_formed parseAddrPort) opts) /\
    (args'.(src_addr), args'.(src_port))
    = last_parsed parseAddrPort Src opts args.(src_addr) args.(src_port) /\
    (args'.(dst_addr), args'.(dst_port))
    = last_parsed parseAddrPort Dst opts args.(dst_addr) args.(dst_port).
Proof.
  intros opts Hthrow.
  destruct (scan_options parseAddrPort (tl argv) false false false false args Hthrow)
    as (args' & Hscan & Hs & Hd).
  fold opts in Hscan, Hs, Hd. cbn [orb] in Hscan.
  change (flags_of false false false false) with 0 in Hscan.
  unfold parseUdpPeerArgs. rewrite Hscan, flags_of_check.
  eexists _, args'. split; [reflexivity|]. split; [|split; assumption].
  rewrite !andb_true_iff, !negb_true_iff.
  rewrite !has_parsed_spec.
  split.
  - intros [[[(ts & Hts & _) (td & Htd & _)] Hes] Hed].
    split; [eauto|]. split; [eauto|].
    apply List.Forall_forall. intros [side token] Hin.
    rewrite List.Forall_forall in Hthrow. specialize (Hthrow _ Hin).
    unfold no_throw in Hthrow. unfold well_formed. cbn [snd] in *.
    destruct (parseAddrPort token) as [addr port| |] eqn:Ep; [eauto| |congruence].
    exfalso.
    assert (Hm : has_malformed parseAddrPort side opts = true)
      by (apply has_malformed_spec; eauto).
    destruct side; congruence.
  - intros ((ts & Hts) & (td & Htd) & Hall).
    rewrite List.Forall_forall in Hall.
    assert (Hnone : forall side, has_malformed parseAddrPort side opts = false).
    { intros side. destruct (has_malformed parseAddrPort side opts) eqn:E; [|reflexivity].
      apply has_malformed_spec in E. destruct E as (token & Hin & Hm).
      destruct (Hall _ Hin) as (addr & port & Hp). cbn [snd] in Hp. congruence. }
    repeat split; eauto.
Qed.

Lemma parseUdpPeerArgs_accepts_witness :
  let parse := fun token : String.string =>
    if String.eqb token "10.0.0.1:5000"%string then Parsed 167772161 5000
    else if String.eqb token "10.0.0.2:6000"%string then Parsed 167772162 6000
    else Malformed in
  let argv := ["prog"; "--src"; "10.0.0.1:5000"; "--dst"; "10.0.0.2:6000"]%string in
  exists args',
    parseUdpPeerArgs parse argv (mkUdpPeerArgs 0 0 0 0) = Some (true, args') /\
    (args'.(src_addr), args'.(src_port)) = (167772161, 5000) /\
    (args'.(dst_addr), args'.(dst_port)) = (167772162, 6000).
Proof.
  intros parse argv.
  assert (Hthrow : Forall (no_throw parse) (options (tl argv))).
  { repeat constructor; unfold no_throw; cbn; discriminate. }
  destruct (parseUdpPeerArgs_accepts parse argv (mkUdpPeerArgs 0 0 0 0) Hthrow)
    as (ok & args' & H & Hok & Hs & Hd).
  assert (Etrue : ok = true).
  { apply Hok. split; [|split].
    - exists "10.0.0.1:5000"%string. cbn. now left.
    - exists "10.0.0.2:6000"%string. cbn. right. now left.
    - repeat constructor; unfold well_formed; cbn; eauto. }
  subst ok. exists args'. split; [exact H|]. split; [exact Hs|exact Hd].
Defined.

End ArgParserFacts.
